(** * Gesture-driven photo tree: the animation engine, embedded and verified

    A shallow embedding of the gesture classifier ([HandTracker]), the mode
    state machine ([App.handleGestureUpdate]), the focus selection and the
    adaptive camera ([Scene3D]), the per-frame transform interpolator
    ([TreeElement]) and the layout generator ([Generator]), followed by
    the properties proved about them.

    Numbers.  A JavaScript number is an IEEE-754 double.  The embedding keeps
    the three values that are not finite ([PInf], [NInf], [NaN]) with the
    arithmetic IEEE prescribes for them, and reads every finite value as a
    real number: rounding, overflow and the sign of zero are left out (a
    zero divisor counts as [+0]).  The code calls [Math.sqrt], [Math.tan],
    [Math.sin] and [Math.PI], so the finite values are Stdlib's reals; their
    order is decided classically, and a concrete value is derived by
    rewriting rather than by evaluation.  Where rounding decides whether a
    statement holds, at the fixed point of a blend, the two blending
    formulas of three.js are given a second time over the binary64 floats
    of the kernel ([Binary64]).

    Sources.  [src/components/Scene3D.tsx] holds the scene ([AdaptiveCamera],
    [SceneContent]), the layout generator and the application component
    ([handleGestureUpdate]); [src/components/TreeElement.tsx] holds the
    element ([TreeElement], its [useFrame] callback), the shared types and the
    hand tracker ([HandTracker], its [onResults] callback).  *)

From Stdlib Require Import Reals Lra Lia ZArith Bool List String.
From Stdlib Require Floats.
From stdpp Require Import base option list gmap strings.

Local Open Scope R_scope.
#[local] Set Warnings "-clear-no-such-hyp".
#[local] Set Warnings "-inexact-float".

(* ================================================================== *)
(** ** JavaScript numbers and the [Math] functions the code calls *)
(* ================================================================== *)

#[global] Instance Rlt_decision (a b : R) : Decision (a < b) := Rlt_dec a b.
#[global] Instance Rle_decision (a b : R) : Decision (a <= b) := Rle_dec a b.
#[global] Instance Req_decision : EqDecision R := Req_dec_T.

Module JS.

Inductive number : Type :=
| Fin (r : R)
| PInf
| NInf
| NaN.

Definition isFinite (a : number) : bool :=
  match a with Fin _ => true | _ => false end.

(** The sign of a real: [Gt] positive, [Lt] negative, [Eq] zero. *)
Definition sign (r : R) : comparison :=
  if decide (0 < r) then Gt else if decide (r < 0) then Lt else Eq.

(** The infinity of a given sign; a zero sign gives [NaN] (0 * Infinity, 0 / 0). *)
Definition signed_inf (c : comparison) : number :=
  match c with Gt => PInf | Lt => NInf | Eq => NaN end.

Definition neg (a : number) : number :=
  match a with
  | Fin r => Fin (- r)
  | PInf => NInf
  | NInf => PInf
  | NaN => NaN
  end.

Definition add (a b : number) : number :=
  match a, b with
  | NaN, _ | _, NaN => NaN
  | Fin r, Fin s => Fin (r + s)
  | PInf, NInf | NInf, PInf => NaN
  | PInf, _ | _, PInf => PInf
  | NInf, _ | _, NInf => NInf
  end.

Definition sub (a b : number) : number := add a (neg b).

Definition mul (a b : number) : number :=
  match a, b with
  | NaN, _ | _, NaN => NaN
  | Fin r, Fin s => Fin (r * s)
  | Fin r, PInf | PInf, Fin r => signed_inf (sign r)
  | Fin r, NInf | NInf, Fin r => signed_inf (CompOpp (sign r))
  | PInf, PInf | NInf, NInf => PInf
  | PInf, NInf | NInf, PInf => NInf
  end.

Definition div (a b : number) : number :=
  match a, b with
  | NaN, _ | _, NaN => NaN
  | Fin r, Fin s => if decide (s = 0) then signed_inf (sign r) else Fin (r / s)
  | Fin _, (PInf | NInf) => Fin 0
  | PInf, Fin s => if decide (s < 0) then NInf else PInf
  | NInf, Fin s => if decide (s < 0) then PInf else NInf
  | (PInf | NInf), (PInf | NInf) => NaN
  end.

(** [a < b]; every comparison with [NaN] is false. *)
Definition lt (a b : number) : bool :=
  match a, b with
  | NaN, _ | _, NaN => false
  | Fin r, Fin s => bool_decide (r < s)
  | NInf, (Fin _ | PInf) => true
  | Fin _, PInf => true
  | _, _ => false
  end.

(** [a <= b]. *)
Definition le (a b : number) : bool :=
  match a, b with
  | NaN, _ | _, NaN => false
  | Fin r, Fin s => bool_decide (r <= s)
  | NInf, _ | _, PInf => true
  | _, _ => false
  end.

Definition gt (a b : number) : bool := lt b a.
Definition ge (a b : number) : bool := le b a.

(** [Math.max] and [Math.min] of two arguments, then of a list
    ([Math.max()] is [-Infinity], [Math.min()] is [Infinity]). *)
Definition max2 (a b : number) : number :=
  match a, b with
  | NaN, _ | _, NaN => NaN
  | _, _ => if lt a b then b else a
  end.

Definition min2 (a b : number) : number :=
  match a, b with
  | NaN, _ | _, NaN => NaN
  | _, _ => if lt b a then b else a
  end.

Definition Math_max (args : list number) : number := foldr max2 NInf args.
Definition Math_min (args : list number) : number := foldr min2 PInf args.

Definition Math_sqrt (a : number) : number :=
  match a with
  | Fin r => if decide (r < 0) then NaN else Fin (sqrt r)
  | PInf => PInf
  | NInf | NaN => NaN
  end.

(** [Math.pow a n] for a natural exponent. *)
Definition Math_pow (a : number) (n : nat) : number :=
  Nat.iter n (mul a) (Fin 1).

(** The tangent has no value at its poles; a double never hits one. *)
Definition Math_tan (a : number) : number :=
  match a with
  | Fin r => if decide (cos r = 0) then NaN else Fin (tan r)
  | _ => NaN
  end.

Definition Math_sin (a : number) : number :=
  match a with
  | Fin r => Fin (sin r)
  | _ => NaN
  end.

Definition Math_floor (a : number) : number :=
  match a with
  | Fin r => Fin (IZR (Zfloor r))
  | _ => a
  end.

Definition Math_PI : number := Fin PI.

(** An array index: the element at a number that is a natural, else
    [undefined]. *)
Definition index {A : Type} (l : list A) (a : number) : option A :=
  match a with
  | Fin r =>
      if decide (r = IZR (Zfloor r) /\ 0 <= r)
      then l !! Z.to_nat (Zfloor r)
      else None
  | _ => None
  end.

(** Truthiness of a [string | null]: [null] and the empty string are falsy. *)
Definition truthy (s : option string) : bool :=
  match s with
  | None => false
  | Some s => negb (String.eqb s "")
  end.

Definition Math_cos (a : number) : number :=
  match a with
  | Fin r => Fin (cos r)
  | _ => NaN
  end.

(** [Math.atan2(y, x)]: the angle of the point [(x, y)], in [(-pi, pi]]. *)
Definition Math_atan2 (y x : number) : number :=
  match y, x with
  | NaN, _ | _, NaN => NaN
  | Fin s, Fin r =>
      if decide (0 < r) then Fin (atan (s / r))
      else if decide (r < 0) then
        if decide (s < 0) then Fin (atan (s / r) - PI) else Fin (atan (s / r) + PI)
      else if decide (0 < s) then Fin (PI / 2)
      else if decide (s < 0) then Fin (- (PI / 2))
      else Fin 0
  | Fin s, PInf => Fin 0
  | Fin s, NInf => if decide (s < 0) then Fin (- PI) else Fin PI
  | PInf, Fin _ => Fin (PI / 2)
  | NInf, Fin _ => Fin (- (PI / 2))
  | PInf, PInf => Fin (PI / 4)
  | PInf, NInf => Fin (3 * PI / 4)
  | NInf, PInf => Fin (- (PI / 4))
  | NInf, NInf => Fin (- (3 * PI / 4))
  end.

(** [a || b] on numbers: zero and [NaN] are falsy. *)
Definition orElse (a b : number) : number :=
  match a with
  | NaN => b
  | Fin r => if decide (r = 0) then b else a
  | _ => a
  end.

End JS.

Declare Scope js_scope.
Delimit Scope js_scope with js.
Bind Scope js_scope with JS.number.
Infix "+" := JS.add : js_scope.
Infix "-" := JS.sub : js_scope.
Infix "*" := JS.mul : js_scope.
Infix "/" := JS.div : js_scope.
Notation "- a" := (JS.neg a) : js_scope.
Infix "<?" := JS.lt : js_scope.
Infix "<=?" := JS.le : js_scope.
Infix ">?" := JS.gt : js_scope.
Infix ">=?" := JS.ge : js_scope.

Import JS.
Coercion Fin : R >-> number.

(* ================================================================== *)
(** ** The shared types: modes, object kinds, gesture states *)
(* ================================================================== *)

Inductive AppMode : Type := TREE | SCATTERED | FOCUSED.

#[global] Instance AppMode_eq_dec : EqDecision AppMode.
Proof. solve_decision. Defined.

Inductive ObjectType : Type := ball | gift | photo | candy | light | star.

#[global] Instance ObjectType_eq_dec : EqDecision ObjectType.
Proof. solve_decision. Defined.

(** A [{ x: number; y: number }] object. *)
Module Point.
Record t : Type := mk { x : number; y : number }.
End Point.

Record HandGestureState : Type := {
  isFist : bool;
  isOpen : bool;
  isPinching : bool;
  handPosition : Point.t;
  pinchDistance : number
}.

(* ================================================================== *)
(** ** App: the mode state machine *)
(* ================================================================== *)

Module App.

Record State : Type := {
  mode : AppMode;
  gestureStatus : string;
  currentHandState : HandGestureState
}.

Definition initial : State := {|
  mode := TREE;
  gestureStatus := "Waiting for camera...";
  currentHandState := {|
    isFist := false; isOpen := false; isPinching := false;
    handPosition := Point.mk 0 0; pinchDistance := 1 |}
|}.

(** The updater passed to [setMode]: the next mode and, when the branch
    sets one, the new status line. *)
Definition gestureStateMachine (state : HandGestureState) (prevMode : AppMode)
  : AppMode * option string :=
  if isFist state then
    (TREE, Some "Gesture: Fist (Assembling)"%string)
  else if isPinching state then
    if decide (prevMode <> TREE) then
      (FOCUSED, Some "Gesture: Pinch (Focusing)"%string)
    else (prevMode, None)
  else if isOpen state then
    (SCATTERED, Some "Gesture: Open (Move to Rotate)"%string)
  else
    (prevMode, Some "Detecting..."%string).

Definition handleGestureUpdate (state : HandGestureState) (app : State) : State :=
  let '(next, status) := gestureStateMachine state (mode app) in
  {| mode := next;
     gestureStatus := default (gestureStatus app) status;
     currentHandState := state |}.

End App.

(* ================================================================== *)
(** ** HandTracker: the gesture classifier *)
(* ================================================================== *)

Module HandTracker.

Module Landmark.
Record t : Type := mk { x : number; y : number; z : number }.
End Landmark.

(** The detector's result; [multiHandLandmarks] may be missing. *)
Record Results : Type := {
  multiHandLandmarks : option (list (list Landmark.t))
}.

(** [prevPos]: the smoothed position kept between frames. *)
Record State : Type := { prevPos : Point.t }.

Definition initial : State := {| prevPos := Point.mk 0 0 |}.

(** What a call of the [onResults] callback does: it reports a gesture
    state through [onGestureUpdate], or throws a [TypeError] on reading a
    landmark that is not there. *)
Inductive Outcome : Type :=
| Reported (g : HandGestureState)
| TypeError.

Definition SMOOTH_FACTOR : number := 0.3.
Definition PINCH_THRESHOLD : number := 0.06.

Section Frame.
Variable landmarks : list Landmark.t.

(** Euclidean distance between two landmarks (x and y only). *)
Definition dist (idx1 idx2 : nat) : option number :=
  p1 ← landmarks !! idx1;
  p2 ← landmarks !! idx2;
  Some (Math_sqrt (Math_pow (Landmark.x p1 - Landmark.x p2) 2
                   + Math_pow (Landmark.y p1 - Landmark.y p2) 2))%js.

Definition isCurled (tipIdx pipIdx : nat) : option bool :=
  dTip ← dist tipIdx 0;
  dPip ← dist pipIdx 0;
  Some (dTip <? dPip)%js.

Definition curledCount : option nat :=
  indexCurled ← isCurled 8 6;
  middleCurled ← isCurled 12 10;
  ringCurled ← isCurled 16 14;
  pinkyCurled ← isCurled 20 18;
  Some (length (List.filter (fun b : bool => b)
                  [indexCurled; middleCurled; ringCurled; pinkyCurled])).

Definition pinchDist : option number := dist 4 8.

(** The three flags, in the order [(isFist, isOpen, isPinching)]. *)
Definition classification (count : nat) (pinch : number) : bool * bool * bool :=
  let isPinchGeo := (pinch <? PINCH_THRESHOLD)%js in
  if isPinchGeo && (count <? 3)%nat then (false, false, true)
  else if (3 <=? count)%nat then (true, false, false)
  else if (count <=? 1)%nat then (false, true, false)
  else (false, false, false).

(** The target of the smoothing: landmark 9, x flipped, mapped to [-1, 1]. *)
Definition target : option Point.t :=
  palm ← landmarks !! 9%nat;
  let palmX := (1 - Landmark.x palm)%js in
  let palmY := Landmark.y palm in
  Some (Point.mk ((palmX - 0.5) * 2)%js ((palmY - 0.5) * 2)%js).

Definition smooth (prev tgt : Point.t) : Point.t :=
  Point.mk (Point.x prev + (Point.x tgt - Point.x prev) * SMOOTH_FACTOR)%js
           (Point.y prev + (Point.y tgt - Point.y prev) * SMOOTH_FACTOR)%js.

Definition gesture (smoothed : Point.t) : option HandGestureState :=
  count ← curledCount;
  pinch ← pinchDist;
  let '(fist, open, pinching) := classification count pinch in
  Some {| isFist := fist; isOpen := open; isPinching := pinching;
          pinchDistance := pinch; handPosition := smoothed |}.

(** The detected-hand branch: [prevPos] is written before the gesture
    logic reads the other landmarks. *)
Definition handFrame (st : State) : State * Outcome :=
  match target with
  | None => (st, TypeError)
  | Some tgt =>
      let smoothed := smooth (prevPos st) tgt in
      let st' := {| prevPos := smoothed |} in
      match gesture smoothed with
      | Some g => (st', Reported g)
      | None => (st', TypeError)
      end
  end.
End Frame.

Definition noHand : HandGestureState := {|
  isFist := false; isOpen := false; isPinching := false;
  pinchDistance := 1; handPosition := Point.mk 0 0 |}.

Definition onResults (st : State) (res : Results) : State * Outcome :=
  match multiHandLandmarks res with
  | Some (landmarks :: _) => handFrame landmarks st
  | Some [] | None => (st, Reported noHand)
  end.

(** The test of the callback: a hand was detected. *)
Definition handDetected (res : Results) : bool :=
  match multiHandLandmarks res with
  | Some hands => bool_decide (0 < length hands)%nat
  | None => false
  end.

(** The callback run over a stream of results; the outcomes in order. *)
Fixpoint run (st : State) (stream : list Results) : State * list Outcome :=
  match stream with
  | [] => (st, [])
  | res :: rest =>
      let '(st1, o) := onResults st res in
      let '(st2, os) := run st1 rest in
      (st2, o :: os)
  end.

Definition reportedPositions (outcomes : list Outcome) : list Point.t :=
  omap (fun o => match o with Reported g => Some (handPosition g) | TypeError => None end)
       outcomes.

(** The smoothing of the specification, [smoothed = prev + 0.3 * (target -
    prev)], iterated: the coordinate after [n] frames with the target held
    at [tgt], from the stored value [prev].  [run] is compared with it. *)
Fixpoint smoothed (prev tgt : R) (n : nat) : R :=
  match n with
  | O => prev
  | S k => smoothed prev tgt k + (tgt - smoothed prev tgt k) * 0.3
  end.

(** A frame of a whole hand (the 21 landmarks) with landmark 9 at [(px, py)]. *)
Definition handAt (px py : R) (res : Results) : Prop :=
  exists landmarks others palm,
    multiHandLandmarks res = Some (landmarks :: others)
    /\ (21 <= length landmarks)%nat
    /\ landmarks !! 9%nat = Some palm
    /\ Landmark.x palm = Fin px /\ Landmark.y palm = Fin py.

End HandTracker.

(* ================================================================== *)
(** ** three.js: the vector, angle and matrix operations the code calls *)
(* ================================================================== *)

Module Vector3.
Record t : Type := mk { x : number; y : number; z : number }.

Definition clone (v : t) : t := v.

Definition multiplyScalar (v : t) (s : number) : t :=
  mk (x v * s) (y v * s) (z v * s).

(** [v.lerp(w, alpha)]: each coordinate moves by [(w - v) * alpha]. *)
Definition lerp (v w : t) (alpha : number) : t :=
  mk (x v + (x w - x v) * alpha)
     (y v + (y w - y v) * alpha)
     (z v + (z w - z v) * alpha).

(** [v.applyMatrix4(m)], [e] the sixteen elements of [m], column-major. *)
Definition applyMatrix4 (v : t) (e : nat -> number) : t :=
  let w := (1 / (e 3%nat * x v + e 7%nat * y v + e 11%nat * z v + e 15%nat))%js in
  mk ((e 0%nat * x v + e 4%nat * y v + e 8%nat * z v + e 12%nat) * w)
     ((e 1%nat * x v + e 5%nat * y v + e 9%nat * z v + e 13%nat) * w)
     ((e 2%nat * x v + e 6%nat * y v + e 10%nat * z v + e 14%nat) * w).

Definition finite (v : t) : Prop :=
  isFinite (x v) = true /\ isFinite (y v) = true /\ isFinite (z v) = true.

Definition add (v w : t) : t := mk (x v + x w) (y v + y w) (z v + z w).

Definition length (v : t) : number :=
  Math_sqrt (x v * x v + y v * y v + z v * z v).

(** [v.divideScalar(s)] is [v.multiplyScalar(1 / s)]. *)
Definition divideScalar (v : t) (s : number) : t := multiplyScalar v (1 / s).

(** [v.normalize()] is [v.divideScalar(v.length() || 1)]. *)
Definition normalize (v : t) : t := divideScalar v (orElse (length v) 1).
End Vector3.

Module Euler.
Record t : Type := mk { x : number; y : number; z : number }.

Definition finite (e : t) : Prop :=
  isFinite (x e) = true /\ isFinite (y e) = true /\ isFinite (z e) = true.
End Euler.

Module Quaternion.
Record t : Type := mk { x : number; y : number; z : number; w : number }.

(** [new THREE.Quaternion()]. *)
Definition identity : t := mk 0 0 0 1.

(** [q.invert()]: the conjugate. *)
Definition invert (q : t) : t := mk (x q * -(1))%js (y q * -(1))%js (z q * -(1))%js (w q).
End Quaternion.

Module MathUtils.
Definition DEG2RAD : number := Math_PI / 180.
Definition degToRad (degrees : number) : number := degrees * DEG2RAD.
Definition lerp (x y t : number) : number := (1 - t) * x + t * y.
End MathUtils.

(** The two blending formulas once more, over IEEE-754 doubles: one
    coordinate of [Vector3.lerp] ([this.x += (v.x - this.x) * alpha]) and
    [MathUtils.lerp] ([(1 - t) * x + t * y]), with the two rates
    [useFrame] blends at. *)
Module Binary64.
Import PrimFloat SpecFloat FloatOps.

Module Vector3.
Definition lerp (x v alpha : float) : float := x + (v - x) * alpha.
End Vector3.

Module MathUtils.
Definition lerp (x y t : float) : float := (1 - t) * x + t * y.
End MathUtils.

(** A double that is neither an infinity nor NaN. *)
Definition finite (x : float) : Prop :=
  match Prim2SF x with
  | S754_zero _ | S754_finite _ _ _ => True
  | _ => False
  end.

Definition lerpSpeed : float := 0.05.
Definition lerpSpeedFocused : float := 0.12.
End Binary64.

(** The camera and the canvas size, as far as the code reads them. *)
Record Camera : Type := { fov : number; position_z : number }.
Record Size : Type := { width : number; height : number }.

(* ================================================================== *)
(** ** The shared types: scene objects *)
(* ================================================================== *)

Module TreeObjectData.
Record t : Type := mk {
  id : string;
  type : ObjectType;
  color : string;
  textureUrl : option string;
  positionTree : Vector3.t;
  positionScattered : Vector3.t;
  rotationTree : Euler.t;
  rotationScattered : Euler.t;
  scale : number
}.
End TreeObjectData.

(* ================================================================== *)
(** ** Scene3D: the adaptive camera and the focus selection *)
(* ================================================================== *)

Module Scene3D.

(** The effect of [AdaptiveCamera], run whenever the size or the camera
    changes: it writes [camera.position.z]. *)
Definition adaptiveCamera (size : Size) (camera : Camera) : Camera :=
  let TARGET_HEIGHT : number := 18 in
  let TARGET_WIDTH : number := 14 in
  let aspect := (width size / height size)%js in
  let fovRad := (fov camera * (Math_PI / 180))%js in
  let distVertical := (TARGET_HEIGHT / (2 * Math_tan (fovRad / 2)))%js in
  let distHorizontal := (TARGET_WIDTH / (2 * Math_tan (fovRad / 2) * aspect))%js in
  let finalDist := Math_max [distVertical; distHorizontal; Fin 20] in
  {| fov := fov camera; position_z := finalDist |}.

(** The state of [SceneContent]. *)
Record State : Type := {
  objects : list TreeObjectData.t;
  viewedPhotoIds : gset string;
  targetPhotoId : option string
}.

Definition initial : State :=
  {| objects := []; viewedPhotoIds := ∅; targetPhotoId := None |}.

(** A queued state update: a call of one of the three setters.  React
    applies the updates of a commit in the order they were queued, a
    functional update to the state the earlier ones left. *)
Inductive Update : Type :=
| setObjects (data : list TreeObjectData.t)
| setViewedPhotoIds (updater : gset string -> gset string)
| setTargetPhotoId (value : option string).

Definition applyUpdate (st : State) (u : Update) : State :=
  match u with
  | setObjects data =>
      {| objects := data; viewedPhotoIds := viewedPhotoIds st;
         targetPhotoId := targetPhotoId st |}
  | setViewedPhotoIds updater =>
      {| objects := objects st; viewedPhotoIds := updater (viewedPhotoIds st);
         targetPhotoId := targetPhotoId st |}
  | setTargetPhotoId value =>
      {| objects := objects st; viewedPhotoIds := viewedPhotoIds st;
         targetPhotoId := value |}
  end.

Definition applyUpdates (st : State) (us : list Update) : State :=
  foldl applyUpdate st us.

(** The first effect (dependency: [photos]); [data] is what
    [generateTreeData(photos)] returned: the star, a photo object for each
    photo and the ornaments, the id of each drawn by [uuidv4()]. *)
Definition photosEffect (data : list TreeObjectData.t) : list Update :=
  [setObjects data; setViewedPhotoIds (fun _ => ∅)].

Definition isPhoto (o : TreeObjectData.t) : Prop := TreeObjectData.type o = photo.
Definition notViewed (viewed : gset string) (p : TreeObjectData.t) : Prop :=
  TreeObjectData.id p ∉ viewed.

(** The local variables of the second effect, on the rendered state:
    the photos, the photos not yet viewed, whether none is left, and the
    pool the draw is made from. *)
Definition photoObjs (rendered : State) : list TreeObjectData.t :=
  filter isPhoto (objects rendered).

Definition unviewed (rendered : State) : list TreeObjectData.t :=
  filter (notViewed (viewedPhotoIds rendered)) (photoObjs rendered).

Definition shouldResetHistory (rendered : State) : bool :=
  bool_decide (length (unviewed rendered) = 0%nat).

Definition candidates (rendered : State) : list TreeObjectData.t :=
  if shouldResetHistory rendered then photoObjs rendered else unviewed rendered.

(** The second effect (dependencies: [mode], [objects], [targetPhotoId],
    [viewedPhotoIds]), on the values of the render it closes over;
    [random] is the value [Math.random()] returns when called.  [None]:
    the effect throws on reading [randomPhoto.id]. *)
Definition focusEffect (mode : AppMode) (random : number) (rendered : State)
  : option (list Update) :=
  if decide (mode = FOCUSED) then
    if negb (truthy (targetPhotoId rendered)) then
      if decide (0 < length (photoObjs rendered))%nat then
        randomPhoto ← index (candidates rendered)
                        (Math_floor (random * INR (length (candidates rendered)))%js);
        Some [setTargetPhotoId (Some (TreeObjectData.id randomPhoto));
              setViewedPhotoIds (fun prev =>
                let next := if shouldResetHistory rendered then ∅ else prev in
                next ∪ {[TreeObjectData.id randomPhoto]})]
      else Some []
    else Some []
  else
    if truthy (targetPhotoId rendered) then Some [setTargetPhotoId None]
    else Some [].

(** One commit of [SceneContent]: the effects whose dependencies changed
    run in order on the rendered state, and their updates are applied. *)
Inductive Commit : Type :=
| photosChanged (data : list TreeObjectData.t)
| focusChanged (mode : AppMode) (random : number)
| bothChanged (data : list TreeObjectData.t) (mode : AppMode) (random : number).

Definition commit (st : State) (c : Commit) : option State :=
  match c with
  | photosChanged data => Some (applyUpdates st (photosEffect data))
  | focusChanged mode random =>
      us ← focusEffect mode random st;
      Some (applyUpdates st us)
  | bothChanged data mode random =>
      us ← focusEffect mode random st;
      Some (applyUpdates st (photosEffect data ++ us))
  end.

Fixpoint commits (st : State) (cs : list Commit) : option State :=
  match cs with
  | [] => Some st
  | c :: rest => st' ← commit st c; commits st' rest
  end.

Definition commitMode (c : Commit) : option AppMode :=
  match c with
  | photosChanged _ => None
  | focusChanged mode _ | bothChanged _ mode _ => Some mode
  end.

(** A commit during which the mode is FOCUSED, as far as the second
    effect sees it. *)
Definition staysFocused (c : Commit) : Prop :=
  commitMode c = None \/ commitMode c = Some FOCUSED.

(** A visit of FOCUSED: the commit that enters it (one draw), then the
    commit that leaves it for [exit] (which draws nothing, whatever
    [random] is); the id shown and the state after. *)
Definition focusVisit (exit : AppMode) (st : State) (random : number)
  : option (option string * State) :=
  shown ← commit st (focusChanged FOCUSED random);
  left ← commit shown (focusChanged exit random);
  Some (targetPhotoId shown, left).

Fixpoint focusVisits (exit : AppMode) (st : State) (draws : list number)
  : option (list (option string) * State) :=
  match draws with
  | [] => Some ([], st)
  | random :: rest =>
      '(shown, st1) ← focusVisit exit st random;
      '(more, st2) ← focusVisits exit st1 rest;
      Some (shown :: more, st2)
  end.

Definition photoIds (st : State) : list string :=
  TreeObjectData.id <$> photoObjs st.

(** The ids of a generation are uuids: pairwise distinct and not empty. *)
Definition uuids (data : list TreeObjectData.t) : Prop :=
  NoDup (TreeObjectData.id <$> data)
  /\ Forall (fun o => TreeObjectData.id o <> ""%string) data.

(** The index [Math.floor(u * n)] a draw [u] picks among [n] candidates. *)
Definition drawIndex (u : R) (n : nat) : nat := Z.to_nat (Zfloor (u * INR n)).

(** Every photo of the state has been viewed. *)
Definition allViewed (st : State) : Prop :=
  forall p, p ∈ photoObjs st -> TreeObjectData.id p ∈ viewedPhotoIds st.

(** The [useFrame] callback of [SceneContent]: the rotation of the whole
    group follows the hand when Scattered, turns slowly and levels out in
    Tree mode, and rests when Focused.  [groupRef.current] may be unset. *)
Definition groupFrame (mode : AppMode) (handState : HandGestureState)
    (groupRef : option Euler.t) : option Euler.t :=
  match groupRef with
  | None => None
  | Some rotation =>
      if decide (mode = SCATTERED) then
        let SENSITIVITY_X : number := 5.0 in
        let SENSITIVITY_Y : number := 3.0 in
        let targetRotY := (Point.x (handPosition handState) * SENSITIVITY_X)%js in
        let targetRotX := (- Point.y (handPosition handState) * SENSITIVITY_Y)%js in
        Some (Euler.mk (MathUtils.lerp (Euler.x rotation) targetRotX 0.1)
                       (MathUtils.lerp (Euler.y rotation) targetRotY 0.1)
                       (Euler.z rotation))
      else if decide (mode = TREE) then
        Some (Euler.mk (MathUtils.lerp (Euler.x rotation) 0 0.05)
                       (Euler.y rotation + 0.002)%js
                       (Euler.z rotation))
      else Some rotation
  end.

(** [n] frames of the group with the mode and the hand held fixed. *)
Definition groupFrames (mode : AppMode) (handState : HandGestureState)
    (n : nat) (groupRef : option Euler.t) : option Euler.t :=
  Nat.iter n (groupFrame mode handState) groupRef.

End Scene3D.

(* ================================================================== *)
(** ** TreeElement: the per-frame transform interpolator *)
(* ================================================================== *)

Module TreeElement.

(** The mesh of one element, as far as [useFrame] writes it.  three.js
    keeps [rotation] and [quaternion] as two views of one orientation;
    the embedding stores the Euler angles. *)
Record Mesh : Type := {
  position : Vector3.t;
  rotation : Euler.t;
  scale : Vector3.t;
  emissiveIntensity : number
}.

(** The parent group of the mesh: the inverse of its world matrix
    ([matrixWorld.clone().invert()]) and its world orientation
    ([getWorldQuaternion]), both computed by three.js. *)
Record Parent : Type := {
  matrixWorldInverse : nat -> number;
  worldQuaternion : Quaternion.t
}.

(** The values [useMemo] draws once for an element. *)
Record Memo : Type := {
  floatOffset : number;
  twinkleSpeed : number;
  twinklePhase : number
}.

(** The target of a frame: the local variables of [useFrame] before the
    blending. *)
Record Target : Type := {
  targetPos : Vector3.t;
  targetRot : Euler.t;
  targetScale : number;
  useQuaternion : bool;
  targetQuaternion : Quaternion.t
}.

Definition isTarget (data : TreeObjectData.t) (targetPhotoId : option string) : bool :=
  bool_decide (Some (TreeObjectData.id data) = targetPhotoId).

Definition frameTarget (data : TreeObjectData.t) (mode : AppMode)
    (targetPhotoId : option string) (camera : Camera) (size : Size)
    (parent : option Parent) : Target :=
  let targetPos :=
    if decide (mode = TREE) then TreeObjectData.positionTree data
    else TreeObjectData.positionScattered data in
  let targetRot :=
    if decide (mode = TREE) then TreeObjectData.rotationTree data
    else TreeObjectData.rotationScattered data in
  let targetScale := TreeObjectData.scale data in
  let targetPos :=
    if decide (TreeObjectData.type data = star) then
      if decide (mode = SCATTERED) then Vector3.mk 0 0 0 else targetPos
    else targetPos in
  if decide (mode = FOCUSED /\ TreeObjectData.type data = photo) then
    if isTarget data targetPhotoId then
      let distFromCamera : number := 4 in
      let worldTargetPos := Vector3.mk 0 0 (position_z camera - distFromCamera)%js in
      let vFov := MathUtils.degToRad (fov camera) in
      let visibleHeight := (2 * Math_tan (vFov / 2) * distFromCamera)%js in
      let visibleWidth := (visibleHeight * (width size / height size))%js in
      let targetScale := (Math_min [visibleHeight; visibleWidth] * 0.85)%js in
      match parent with
      | Some p =>
          {| targetPos := Vector3.applyMatrix4 worldTargetPos (matrixWorldInverse p);
             targetRot := targetRot;
             targetScale := targetScale;
             useQuaternion := true;
             targetQuaternion := Quaternion.invert (worldQuaternion p) |}
      | None =>
          {| targetPos := targetPos; targetRot := targetRot;
             targetScale := targetScale;
             useQuaternion := false; targetQuaternion := Quaternion.identity |}
      end
    else
      {| targetPos :=
           Vector3.multiplyScalar (Vector3.clone (TreeObjectData.positionScattered data)) 1.5;
         targetRot := targetRot;
         targetScale := (TreeObjectData.scale data * 0.8)%js;
         useQuaternion := false; targetQuaternion := Quaternion.identity |}
  else
    {| targetPos := targetPos; targetRot := targetRot; targetScale := targetScale;
       useQuaternion := false; targetQuaternion := Quaternion.identity |}.

(** The idle float applies when Scattered or Focused, except to the
    focus target and to the star. *)
Definition idles (data : TreeObjectData.t) (mode : AppMode)
    (targetPhotoId : option string) : bool :=
  (bool_decide (mode = SCATTERED) || bool_decide (mode = FOCUSED))
  && negb (isTarget data targetPhotoId)
  && negb (bool_decide (TreeObjectData.type data = star)).

Section Frame.
(** [slerp e q t]: the Euler angles three.js leaves in [mesh.rotation]
    after [mesh.quaternion.slerp(q, t)], [e] the angles before. *)
Variable slerp : Euler.t -> Quaternion.t -> number -> Euler.t.

Definition blend (data : TreeObjectData.t) (mode : AppMode)
    (targetPhotoId : option string) (tg : Target)
    (elapsedTime : number) (memo : Memo) (mesh : Mesh) : Mesh :=
  let isFocusedItem := bool_decide (mode = FOCUSED) && isTarget data targetPhotoId in
  let lerpSpeed : number := if isFocusedItem then 0.12 else 0.05 in
  let position := Vector3.lerp (position mesh) (targetPos tg) lerpSpeed in
  let rotation :=
    if useQuaternion tg then slerp (rotation mesh) (targetQuaternion tg) lerpSpeed
    else
      let r := rotation mesh in
      Euler.mk (MathUtils.lerp (Euler.x r) (Euler.x (targetRot tg)) lerpSpeed)
               (MathUtils.lerp (Euler.y r) (Euler.y (targetRot tg)) lerpSpeed)
               (MathUtils.lerp (Euler.z r) (Euler.z (targetRot tg)) lerpSpeed) in
  let scale :=
    Vector3.lerp (scale mesh)
      (Vector3.mk (targetScale tg) (targetScale tg) (targetScale tg)) lerpSpeed in
  let idle := idles data mode targetPhotoId in
  let position :=
    if idle then
      Vector3.mk (Vector3.x position)
        (Vector3.y position + Math_sin (elapsedTime + floatOffset memo) * 0.005)%js
        (Vector3.z position)
    else position in
  let rotation :=
    if idle then
      Euler.mk (Euler.x rotation) (Euler.y rotation) (Euler.z rotation + 0.002)%js
    else rotation in
  let emissiveIntensity :=
    if decide (TreeObjectData.type data = light) then
      (1.5 + (Math_sin (elapsedTime * twinkleSpeed memo + twinklePhase memo) * 0.5 + 0.5) * 3.5)%js
    else emissiveIntensity mesh in
  {| position := position; rotation := rotation; scale := scale;
     emissiveIntensity := emissiveIntensity |}.

(** The [useFrame] callback of an element; [meshRef.current] may be
    unset, and then the frame does nothing. *)
Definition useFrame (data : TreeObjectData.t) (mode : AppMode)
    (targetPhotoId : option string) (camera : Camera) (size : Size)
    (parent : option Parent) (elapsedTime : number) (memo : Memo)
    (meshRef : option Mesh) : option Mesh :=
  match meshRef with
  | None => None
  | Some mesh =>
      let tg := frameTarget data mode targetPhotoId camera size parent in
      Some (blend data mode targetPhotoId tg elapsedTime memo mesh)
  end.

(** Frames in a row, one per clock reading, everything else held fixed. *)
Definition frames (data : TreeObjectData.t) (mode : AppMode)
    (targetPhotoId : option string) (camera : Camera) (size : Size)
    (parent : option Parent) (memo : Memo)
    (clock : list number) (meshRef : option Mesh) : option Mesh :=
  foldl (fun ref elapsedTime =>
           useFrame data mode targetPhotoId camera size parent elapsedTime memo ref)
        meshRef clock.
End Frame.





(** One arm of the star: five triangles, fifteen vertices, forty-five
    coordinates pushed to [vertices]. *)
Definition starArm (i : nat) : list number :=
  let numPoints : number := 5 in
  let outerRadius : number := 0.5 in
  let innerRadius : number := 0.2 in
  let depth : number := 0.15 in
  let angle1 := ((INR i / numPoints) * Math_PI * 2)%js in
  let angle2 := (((INR i + 1) / numPoints) * Math_PI * 2)%js in
  let angleMid := ((angle1 + angle2) / 2)%js in
  let x1 := (Math_cos angle1 * outerRadius)%js in
  let y1 := (Math_sin angle1 * outerRadius)%js in
  let xInner := (Math_cos angleMid * innerRadius)%js in
  let yInner := (Math_sin angleMid * innerRadius)%js in
  let x2 := (Math_cos angle2 * outerRadius)%js in
  let y2 := (Math_sin angle2 * outerRadius)%js in
  let angleValley := (((INR i * 2 + 1) / (numPoints * 2)) * Math_PI * 2)%js in
  let xVal := (Math_cos angleValley * innerRadius)%js in
  let yVal := (Math_sin angleValley * innerRadius)%js in
  [Fin 0; Fin 0; depth; x1; y1; Fin 0; xInner; yInner; Fin 0;
   Fin 0; Fin 0; depth; x1; y1; Fin 0; xVal; yVal; Fin 0;
   Fin 0; Fin 0; depth; xVal; yVal; Fin 0; x2; y2; Fin 0;
   Fin 0; Fin 0; (- depth)%js; xVal; yVal; Fin 0; x1; y1; Fin 0;
   Fin 0; Fin 0; (- depth)%js; x2; y2; Fin 0; xVal; yVal; Fin 0].

(** The [vertices] array behind [starGeometry]; [None]: the memo returns
    [null], the element is no star. *)
Definition starVertices (data : TreeObjectData.t) : option (list number) :=
  if decide (TreeObjectData.type data <> star) then None
  else Some (concat (starArm <$> seq 0 5)).

(** The vertices of a flat coordinate array, three coordinates each. *)
Fixpoint vertices (coordinates : list number) : list Vector3.t :=
  match coordinates with
  | x :: y :: z :: rest => Vector3.mk x y z :: vertices rest
  | _ => []
  end.

Inductive Material : Type :=
| MaterialGold | MaterialRed | MaterialGreen | MaterialWhite | MaterialStar.

(** [getMaterial]; [None] is [undefined], the photo has its own material. *)
Definition getMaterial (data : TreeObjectData.t) : option Material :=
  if decide (TreeObjectData.type data = star) then Some MaterialStar
  else if decide (TreeObjectData.type data = photo) then None
  else if decide (TreeObjectData.color data = "#FFD700"%string) then Some MaterialGold
  else if decide (TreeObjectData.color data = "#DE2910"%string) then Some MaterialRed
  else if decide (TreeObjectData.color data = "#2F4F2F"%string) then Some MaterialGreen
  else Some MaterialWhite.

End TreeElement.

(* ================================================================== *)
(** ** The layout generator: [generateTreeData] *)
(* ================================================================== *)

Module Generator.

Definition GOLD : string := "#FFD700".
Definition MATTE_GREEN : string := "#2F4F2F".
Definition RED : string := "#DE2910".
Definition WHITE : string := "#F0F0F0".
Definition LIGHT_WARM : string := "#ffddaa".
Definition STAR_CREAM : string := "#FFFACD".

Definition TREE_HEIGHT : number := 12.
Definition TREE_RADIUS_BASE : number := 4.5.
Definition baseObjectCount : number := 220.

(** Index to tree position, on the cone spiral. *)
Definition getTreePos (i total : number) : Vector3.t :=
  let y := (- TREE_HEIGHT / 2 + (i / total) * TREE_HEIGHT)%js in
  let radius := (TREE_RADIUS_BASE * (1 - (y + TREE_HEIGHT / 2) / TREE_HEIGHT))%js in
  let angle := (i * 0.5)%js in
  let x := (Math_cos angle * radius)%js in
  let z := (Math_sin angle * radius)%js in
  Vector3.mk x y z.

(** The tree slot of photo [index] among [count] photos. *)
Definition photoTreeIdx (count index : nat) : number :=
  let step := Math_floor (baseObjectCount / (INR count + 1))%js in
  ((INR index + 1) * step)%js.

(** The tree position and the facing angle of a photo at a tree slot;
    [multiplyScalar] scales [radialDir] in place before the angle is read. *)
Definition photoPlacement (treeIdx : number) : Vector3.t * number :=
  let basePos := getTreePos treeIdx baseObjectCount in
  let radialDir := Vector3.normalize (Vector3.mk (Vector3.x basePos) 0 (Vector3.z basePos)) in
  let radialDir := Vector3.multiplyScalar radialDir 0.8 in
  let surfacePos := Vector3.add (Vector3.clone basePos) radialDir in
  let facingAngle := Math_atan2 (Vector3.x radialDir) (Vector3.z radialDir) in
  (surfacePos, facingAngle).

(** The kind of an ornament, by the band its first draw [r] falls in. *)
Definition ornamentKind (r : number) : ObjectType :=
  if (r >? 0.85)%js then gift
  else if (r >? 0.75)%js then candy
  else if (r >? 0.55)%js then light
  else ball.

Section Supply.
(** The successive results of [Math.random()] and of [uuidv4()]. *)
Variable randomSrc : nat -> number.
Variable uuidSrc : nat -> string.

(** A computation that draws: from the numbers of draws made so far to a
    result and the numbers after. *)
Definition Gen (A : Type) : Type := nat * nat -> A * (nat * nat).

Definition ret {A : Type} (a : A) : Gen A := fun c => (a, c).

Definition bind {A B : Type} (m : Gen A) (k : A -> Gen B) : Gen B :=
  fun c => let '(a, c') := m c in k a c'.

Definition Math_random : Gen number :=
  fun c => (randomSrc c.1, (S c.1, c.2)).

Definition uuidv4 : Gen string :=
  fun c => (uuidSrc c.2, (c.1, S c.2)).

#[local] Notation "'let*' x ':=' m 'in' k" := (bind m (fun x => k))
  (at level 10, x name, m at level 100, k at level 200).

Definition getScatteredPos : Gen Vector3.t :=
  let* rx := Math_random in
  let* ry := Math_random in
  let* rz := Math_random in
  ret (Vector3.mk ((rx - 0.5) * 20)%js ((ry - 0.5) * 20)%js ((rz - 0.5) * 10)%js).

Definition randomRotationScattered : Gen Euler.t :=
  let* rx := Math_random in
  let* ry := Math_random in
  ret (Euler.mk (rx * Math_PI)%js (ry * Math_PI)%js 0).

Definition makeStar : Gen TreeObjectData.t :=
  let* id := uuidv4 in
  ret (TreeObjectData.mk id star STAR_CREAM None
         (Vector3.mk 0 (TREE_HEIGHT / 2 + 0.5)%js 0) (Vector3.mk 0 0 0)
         (Euler.mk 0 0 0) (Euler.mk 0 0 0) 2.5).

Definition makePhoto (count index : nat) (url : string) : Gen TreeObjectData.t :=
  let '(surfacePos, facingAngle) := photoPlacement (photoTreeIdx count index) in
  let* id := uuidv4 in
  let* positionScattered := getScatteredPos in
  let* rotationScattered := randomRotationScattered in
  ret (TreeObjectData.mk id photo WHITE (Some url)
         surfacePos positionScattered
         (Euler.mk 0 facingAngle 0) rotationScattered 1.5).

Fixpoint makePhotos (count index : nat) (urls : list string)
  : Gen (list TreeObjectData.t) :=
  match urls with
  | [] => ret []
  | url :: rest =>
      let* o := makePhoto count index url in
      let* os := makePhotos count (S index) rest in
      ret (o :: os)
  end.

Definition makeOrnament (i : nat) : Gen TreeObjectData.t :=
  let* r := Math_random in
  let* s := Math_random in
  let type := ornamentKind r in
  let* look :=
    match type with
    | gift => ret (RED, Fin 0.5)
    | candy => ret (WHITE, Fin 0.4)
    | light => ret (LIGHT_WARM, Fin 0.15)
    | _ =>
        let* c := Math_random in
        ret (if (c >? 0.5)%js then RED else GOLD, (0.3 + s * 0.3)%js)
    end in
  let treePos := getTreePos (INR i) baseObjectCount in
  let* nx := Math_random in
  let* nz := Math_random in
  let* ny := Math_random in
  let treePos :=
    Vector3.mk (Vector3.x treePos + (nx - 0.5) * 0.5)%js
               (Vector3.y treePos + (ny - 0.5) * 0.5)%js
               (Vector3.z treePos + (nz - 0.5) * 0.5)%js in
  let treePos :=
    if decide (type = light) then Vector3.multiplyScalar treePos 0.95 else treePos in
  let* id := uuidv4 in
  let* positionScattered := getScatteredPos in
  let* ra := Math_random in
  let* rb := Math_random in
  let* rc := Math_random in
  let* rotationScattered := randomRotationScattered in
  ret (TreeObjectData.mk id type look.1 None
         treePos positionScattered
         (Euler.mk ra rb rc) rotationScattered look.2).

(** The loop [for (let i = 0; i < baseObjectCount; i++)], [count] rounds
    from [i]. *)
Fixpoint makeOrnaments (count i : nat) : Gen (list TreeObjectData.t) :=
  match count with
  | O => ret []
  | S count' =>
      let* o := makeOrnament i in
      let* os := makeOrnaments count' (S i) in
      ret (o :: os)
  end.

Definition generate (photoUrls : list string) : Gen (list TreeObjectData.t) :=
  let* theStar := makeStar in
  let* photos := makePhotos (length photoUrls) 0 photoUrls in
  let* ornaments := makeOrnaments 220 0 in
  ret (theStar :: photos ++ ornaments).

Definition generateTreeData (photoUrls : list string) : list TreeObjectData.t :=
  (generate photoUrls (0%nat, 0%nat)).1.
End Supply.

End Generator.

(* ================================================================== *)
(** ** The tracker wired to the application *)
(* ================================================================== *)

Module Pipeline.

(** [<HandTracker onGestureUpdate={handleGestureUpdate} />]: the tracker
    state and the application state. *)
Record State : Type := {
  tracker : HandTracker.State;
  app : App.State
}.

Definition initial : State :=
  {| tracker := HandTracker.initial; app := App.initial |}.

(** One detector result: the tracker reports to [handleGestureUpdate];
    when it throws, the application is not called. *)
Definition onResults (st : State) (res : HandTracker.Results) : State :=
  let '(tracker', outcome) := HandTracker.onResults (tracker st) res in
  match outcome with
  | HandTracker.Reported g =>
      {| tracker := tracker'; app := App.handleGestureUpdate g (app st) |}
  | HandTracker.TypeError => {| tracker := tracker'; app := app st |}
  end.

Definition run (st : State) (stream : list HandTracker.Results) : State :=
  foldl onResults st stream.

End Pipeline.

(* ================================================================== *)
(** ** Predicates of the statements below *)
(* ================================================================== *)

(** A position inside the square [-1, 1] x [-1, 1]. *)
Definition inSquare (p : Point.t) : Prop :=
  exists x y : R, p = Point.mk (Fin x) (Fin y) /\ -1 <= x <= 1 /\ -1 <= y <= 1.

(** The palm landmark of a result, when it has one, lies in the image:
    its coordinates are in [0, 1]. *)
Definition palmInImage (res : HandTracker.Results) : Prop :=
  forall landmarks others palm,
    HandTracker.multiHandLandmarks res = Some (landmarks :: others) ->
    landmarks !! 9%nat = Some palm ->
    exists px py : R,
      HandTracker.Landmark.x palm = Fin px /\ HandTracker.Landmark.y palm = Fin py
      /\ 0 <= px <= 1 /\ 0 <= py <= 1.

(** At most one of the three flags of a gesture state is set: the
    states the tracker reports, and the ones the state machine is
    specified on. *)
Definition atMostOneFlag (g : HandGestureState) : Prop :=
  (Nat.b2n (isFist g) + Nat.b2n (isOpen g) + Nat.b2n (isPinching g) <= 1)%nat.

(** Every draw of [Math.random()] is a number in [0, 1). *)
Definition unitDraws (randomSrc : nat -> number) : Prop :=
  forall k, exists u : R, randomSrc k = Fin u /\ 0 <= u < 1.

(** A scattered position inside the box the generator draws from:
    20 wide, 20 high, 10 deep, centred at the origin. *)
Definition inScatterBox (v : Vector3.t) : Prop :=
  exists x y z : R,
    v = Vector3.mk (Fin x) (Fin y) (Fin z)
    /\ -10 <= x <= 10 /\ -10 <= y <= 10 /\ -5 <= z <= 5.

(** The look of an ornament of the generator: its kind fixes colour and
    scale, but for a ball, red or gold at a scale drawn between 0.3 and 0.6. *)
Definition ornamentLook (o : TreeObjectData.t) : Prop :=
  TreeObjectData.textureUrl o = None
  /\ ((TreeObjectData.type o = gift /\ TreeObjectData.color o = Generator.RED
       /\ TreeObjectData.scale o = Fin 0.5)
      \/ (TreeObjectData.type o = candy /\ TreeObjectData.color o = Generator.WHITE
          /\ TreeObjectData.scale o = Fin 0.4)
      \/ (TreeObjectData.type o = light /\ TreeObjectData.color o = Generator.LIGHT_WARM
          /\ TreeObjectData.scale o = Fin 0.15)
      \/ (TreeObjectData.type o = ball
          /\ (TreeObjectData.color o = Generator.RED
              \/ TreeObjectData.color o = Generator.GOLD))).

(** A gesture state that takes the open-hand branch of the state machine. *)
Definition opensHand (g : HandGestureState) : bool :=
  negb (isFist g) && negb (isPinching g) && isOpen g.

(** The application after a list of gesture updates. *)
Definition gestureUpdates (app : App.State) (gs : list HandGestureState) : App.State :=
  foldl (fun a g => App.handleGestureUpdate g a) app gs.

(** Every viewed id is the id of a photo of the scene. *)
Definition viewedArePhotos (st : Scene3D.State) : Prop :=
  forall i, i ∈ Scene3D.viewedPhotoIds st -> i ∈ Scene3D.photoIds st.

(** A commit in which one of the two effects runs. *)
Definition oneEffect (c : Scene3D.Commit) : Prop :=
  match c with
  | Scene3D.bothChanged _ _ _ => False
  | _ => True
  end.

(* ================================================================== *)
(** ** Sample inputs, for the concrete statements below *)
(* ================================================================== *)

(** A hand with every landmark at the origin, but the thumb tip. *)
Definition flatHand : list HandTracker.Landmark.t :=
  replicate 4 (HandTracker.Landmark.mk 0 0 0)
  ++ [HandTracker.Landmark.mk 1 0 0]
  ++ replicate 16 (HandTracker.Landmark.mk 0 0 0).

Definition sampleStar : TreeObjectData.t :=
  TreeObjectData.mk "star-0" star "#FFFACD" None
    (Vector3.mk 0 6.5 0) (Vector3.mk 0 0 0)
    (Euler.mk 0 0 0) (Euler.mk 0 0 0) 2.5.

Definition samplePhoto (name : string) : TreeObjectData.t :=
  TreeObjectData.mk name photo "#F0F0F0" (Some name)
    (Vector3.mk 1 2 3) (Vector3.mk 2 4 6)
    (Euler.mk 0 1 0) (Euler.mk 1 2 0) 1.5.

Definition sampleBall : TreeObjectData.t :=
  TreeObjectData.mk "ball-0" ball "#FFD700" None
    (Vector3.mk 1 0 1) (Vector3.mk 4 2 2)
    (Euler.mk 0.5 0.5 0.5) (Euler.mk 1 2 0) 0.5.

Definition sampleObjects : list TreeObjectData.t :=
  [sampleStar; samplePhoto "photo-a"; samplePhoto "photo-b"; samplePhoto "photo-c";
   sampleBall].

Definition sampleCamera : Camera := {| fov := 90; position_z := 25 |}.
Definition sampleSize : Size := {| width := 800; height := 600 |}.
Definition sampleMemo : TreeElement.Memo :=
  {| TreeElement.floatOffset := 0; TreeElement.twinkleSpeed := 2;
     TreeElement.twinklePhase := 0 |}.

(** The sample scene just generated: nothing viewed, no target held. *)
Definition sampleScene : Scene3D.State :=
  {| Scene3D.objects := sampleObjects; Scene3D.viewedPhotoIds := ∅;
     Scene3D.targetPhotoId := None |}.

(** The sample scene while photo-b is shown, and the objects generated
    when a photo is added to the list: every id is new. *)
Definition sampleFocused : Scene3D.State :=
  {| Scene3D.objects := sampleObjects; Scene3D.viewedPhotoIds := {["photo-b"%string]};
     Scene3D.targetPhotoId := Some "photo-b"%string |}.

Definition sampleRegenerated : list TreeObjectData.t :=
  [TreeObjectData.mk "star-1" star "#FFFACD" None
     (Vector3.mk 0 6.5 0) (Vector3.mk 0 0 0) (Euler.mk 0 0 0) (Euler.mk 0 0 0) 2.5;
   samplePhoto "photo-d"; samplePhoto "photo-e"; samplePhoto "photo-f";
   samplePhoto "photo-g"].

(** A source of identifiers that never repeats and never gives the empty
    string. *)
Fixpoint tally (n : nat) : string :=
  match n with
  | O => "u"
  | S n => String.append "1" (tally n)
  end.

(** A mesh that sits at the target of a frame. *)
Definition meshAt (tg : TreeElement.Target) : TreeElement.Mesh :=
  {| TreeElement.position := TreeElement.targetPos tg;
     TreeElement.rotation := TreeElement.targetRot tg;
     TreeElement.scale :=
       Vector3.mk (TreeElement.targetScale tg) (TreeElement.targetScale tg)
                  (TreeElement.targetScale tg);
     TreeElement.emissiveIntensity := 2 |}.

(* ================================================================== *)
(** * Properties *)
(* ================================================================== *)

(** ** Arithmetic of finite numbers *)

Lemma div_fin (r s : R) : s <> 0 -> (Fin r / Fin s)%js = Fin (r / s).
Proof. intros Hs. unfold div. destruct (decide (s = 0)); [contradiction | reflexivity]. Qed.

Lemma div_zero_pos (r : R) : 0 < r -> (Fin r / Fin 0)%js = PInf.
Proof.
  intros Hr. unfold div, sign.
  destruct (decide (0 = 0)) as [_ | Hn]; [| contradiction].
  destruct (decide (0 < r)); [reflexivity | contradiction].
Qed.

Lemma lt_fin (r s : R) : (Fin r <? Fin s)%js = bool_decide (r < s).
Proof. reflexivity. Qed.

Lemma max2_fin (r s : R) : max2 (Fin r) (Fin s) = Fin (Rmax r s).
Proof.
  unfold max2, Rmax. rewrite lt_fin.
  destruct (Rle_dec r s) as [Hle | Hle]; case_bool_decide; try reflexivity.
  - f_equal; lra.
  - exfalso; lra.
Qed.

Lemma Math_max3_fin (a b c : R) :
  Math_max [Fin a; Fin b; Fin c] = Fin (Rmax a (Rmax b c)).
Proof.
  unfold Math_max. cbn [foldr].
  change (max2 (Fin c) NInf) with (Fin c).
  rewrite !max2_fin. reflexivity.
Qed.

Lemma Math_tan_fin (r : R) : cos r <> 0 -> Math_tan (Fin r) = Fin (tan r).
Proof. intros H. unfold Math_tan. destruct (decide (cos r = 0)); [contradiction | reflexivity]. Qed.

Lemma Math_tan_0 : Math_tan (Fin 0) = Fin 0.
Proof. rewrite Math_tan_fin; [now rewrite tan_0 | rewrite cos_0; lra]. Qed.

Lemma Math_sqrt_fin (r : R) : 0 <= r -> Math_sqrt (Fin r) = Fin (sqrt r).
Proof. intros H. unfold Math_sqrt. destruct (decide (r < 0)); [lra | reflexivity]. Qed.

(* ------------------------------------------------------------------ *)
(** ** The mode state machine *)
(* ------------------------------------------------------------------ *)

Section ModeMachine.
Import App.

(** The three flags of a gesture state decide the next mode in the order
    fist, pinch, open. *)
Lemma gestureStateMachine_mode (g : HandGestureState) (prev : AppMode) :
  (gestureStateMachine g prev).1 =
    if isFist g then TREE
    else if isPinching g then (if decide (prev = TREE) then prev else FOCUSED)
    else if isOpen g then SCATTERED
    else prev.
Proof.
  unfold gestureStateMachine.
  destruct (isFist g), (isPinching g), (isOpen g); simpl; try reflexivity;
    destruct prev; reflexivity.
Qed.

Lemma handleGestureUpdate_mode (g : HandGestureState) (app : State) :
  mode (handleGestureUpdate g app) = (gestureStateMachine g (mode app)).1.
Proof.
  unfold handleGestureUpdate.
  destruct (gestureStateMachine g (mode app)); reflexivity.
Qed.
End ModeMachine.

(* ------------------------------------------------------------------ *)
(** ** The gesture classifier *)
(* ------------------------------------------------------------------ *)

Section Classifier.
Import HandTracker.

Lemma ge_not_lt (a b : number) : (a >=? b)%js = true -> (a <? b)%js = false.
Proof.
  unfold ge, le, lt. destruct a, b; try reflexivity; try discriminate.
  intros H. apply bool_decide_eq_true_1 in H.
  apply bool_decide_eq_false_2. lra.
Qed.

(** The priority chain, read off the three flags. *)
Lemma classification_flags (count : nat) (pinch : number) :
  let '(fist, open, pinching) := classification count pinch in
  pinching = (pinch <? PINCH_THRESHOLD)%js && (count <? 3)%nat
  /\ fist = negb pinching && (3 <=? count)%nat
  /\ open = negb pinching && negb fist && (count <=? 1)%nat.
Proof.
  unfold classification.
  destruct (pinch <? PINCH_THRESHOLD)%js; simpl;
    destruct count as [| [| [| [| n]]]]; simpl; auto.
Qed.

Variable landmarks : list Landmark.t.
Hypothesis whole_hand : (21 <= length landmarks)%nat.

Lemma landmark_defined (i : nat) : (i < 21)%nat -> is_Some (landmarks !! i).
Proof. intros Hi. apply lookup_lt_is_Some_2. lia. Qed.

Lemma dist_defined (i j : nat) :
  (i < 21)%nat -> (j < 21)%nat -> is_Some (dist landmarks i j).
Proof.
  intros Hi Hj. unfold dist.
  destruct (landmark_defined i Hi) as [p1 ->], (landmark_defined j Hj) as [p2 ->].
  simpl. eauto.
Qed.

Lemma isCurled_defined (tip pip : nat) :
  (tip < 21)%nat -> (pip < 21)%nat -> is_Some (isCurled landmarks tip pip).
Proof.
  intros Ht Hp. unfold isCurled.
  destruct (dist_defined tip 0 Ht ltac:(lia)) as [d1 ->].
  destruct (dist_defined pip 0 Hp ltac:(lia)) as [d2 ->].
  simpl. eauto.
Qed.

Lemma curledCount_defined :
  exists count, curledCount landmarks = Some count /\ (count <= 4)%nat.
Proof.
  unfold curledCount.
  destruct (isCurled_defined 8 6) as [b1 ->]; [lia | lia |].
  destruct (isCurled_defined 12 10) as [b2 ->]; [lia | lia |].
  destruct (isCurled_defined 16 14) as [b3 ->]; [lia | lia |].
  destruct (isCurled_defined 20 18) as [b4 ->]; [lia | lia |].
  simpl. eexists; split; [reflexivity |].
  destruct b1, b2, b3, b4; simpl; lia.
Qed.

Lemma pinchDist_defined : is_Some (pinchDist landmarks).
Proof. apply dist_defined; lia. Qed.

Lemma target_defined : is_Some (target landmarks).
Proof.
  unfold target. destruct (landmark_defined 9) as [p ->]; [lia |]. simpl. eauto.
Qed.

(** A frame of a whole hand is classified: nothing throws. *)
Lemma handFrame_reports (st : State) :
  exists tgt count pinch,
    target landmarks = Some tgt
    /\ curledCount landmarks = Some count
    /\ pinchDist landmarks = Some pinch
    /\ handFrame landmarks st =
         ({| prevPos := smooth (prevPos st) tgt |},
          Reported {| isFist := (classification count pinch).1.1;
                      isOpen := (classification count pinch).1.2;
                      isPinching := (classification count pinch).2;
                      pinchDistance := pinch;
                      handPosition := smooth (prevPos st) tgt |}).
Proof.
  destruct target_defined as [tgt Ht].
  destruct curledCount_defined as (count & Hc & _).
  destruct pinchDist_defined as [pinch Hp].
  exists tgt, count, pinch. repeat split; try assumption.
  unfold handFrame, gesture. rewrite Ht, Hc, Hp. simpl.
  destruct (classification count pinch) as [[fist open] pinching]. reflexivity.
Qed.
End Classifier.

Section ReportedFlags.

(** The branches of the state machine, in the order the code tests the
    flags: fist, pinch, open. *)
Lemma handleGestureUpdate_branches (g : HandGestureState) (app : App.State) :
  (isFist g = true -> App.mode (App.handleGestureUpdate g app) = TREE)
  /\ (isFist g = false -> isPinching g = true -> App.mode app <> TREE ->
      App.mode (App.handleGestureUpdate g app) = FOCUSED)
  /\ (isFist g = false -> isPinching g = true -> App.mode app = TREE ->
      App.mode (App.handleGestureUpdate g app) = TREE)
  /\ (isFist g = false -> isPinching g = false -> isOpen g = true ->
      App.mode (App.handleGestureUpdate g app) = SCATTERED)
  /\ (isFist g = false -> isPinching g = false -> isOpen g = false ->
      App.mode (App.handleGestureUpdate g app) = App.mode app).
Proof.
  rewrite handleGestureUpdate_mode, gestureStateMachine_mode.
  destruct (isFist g), (isPinching g), (isOpen g); repeat split; intros;
    try discriminate; try reflexivity; case_decide; congruence.
Qed.

(** Whatever the tracker reports has at most one flag set. *)
Lemma reported_one_flag (st : HandTracker.State) (res : HandTracker.Results)
    (g : HandGestureState) :
  (HandTracker.onResults st res).2 = HandTracker.Reported g ->
  (isFist g = true -> isOpen g = false /\ isPinching g = false)
  /\ (isOpen g = true -> isFist g = false /\ isPinching g = false)
  /\ (isPinching g = true -> isFist g = false /\ isOpen g = false).
Proof.
  unfold HandTracker.onResults.
  destruct (HandTracker.multiHandLandmarks res) as [[| landmarks others] |].
  - intros H. injection H as <-. cbn. repeat split; discriminate.
  - unfold HandTracker.handFrame.
    destruct (HandTracker.target landmarks) as [tgt |]; [| discriminate].
    unfold HandTracker.gesture.
    destruct (HandTracker.curledCount landmarks) as [count |]; [| discriminate].
    destruct (HandTracker.pinchDist landmarks) as [pinch |]; [| discriminate].
    cbn. pose proof (classification_flags count pinch) as Hflags.
    destruct (HandTracker.classification count pinch) as [[fist open] pinching].
    intros H. injection H as <-. cbn.
    destruct Hflags as (_ & -> & ->).
    destruct pinching, (3 <=? count)%nat, (count <=? 1)%nat; cbn;
      repeat split; intros; congruence.
  - intros H. injection H as <-. cbn. repeat split; discriminate.
Qed.
End ReportedFlags.

(** C1: on every gesture state with at most one flag set, as the tracker
    reports them, the next mode is ASSEMBLED ([TREE]) when [isFist] is set,
    from any previous mode; SCATTERED when [isFist] is clear and [isOpen]
    is set, from any previous mode; FOCUSED when [isPinching] is set and
    the previous mode is not ASSEMBLED; the previous mode when
    [isPinching] is set and the previous mode is ASSEMBLED; and the
    previous mode when no flag is set.  Every gesture state that
    [onResults] reports has at most one flag set. *)
Theorem mode_machine_transitions :
  (forall (g : HandGestureState) (app : App.State),
     atMostOneFlag g ->
     let next := App.mode (App.handleGestureUpdate g app) in
     (isFist g = true -> next = TREE)
     /\ (isFist g = false -> isOpen g = true -> next = SCATTERED)
     /\ (isPinching g = true -> App.mode app <> TREE -> next = FOCUSED)
     /\ (isPinching g = true -> App.mode app = TREE -> next = App.mode app)
     /\ (isFist g = false -> isOpen g = false -> isPinching g = false ->
         next = App.mode app))
  /\ (forall (st : HandTracker.State) (res : HandTracker.Results)
             (g : HandGestureState),
        (HandTracker.onResults st res).2 = HandTracker.Reported g ->
        atMostOneFlag g).
Proof.
  split.
  - intros g app Hone. cbv zeta. unfold atMostOneFlag in Hone.
    destruct (handleGestureUpdate_branches g app)
      as (Hfist & Hpinch & Hignored & Hopen & Hnone).
    destruct (isFist g), (isOpen g), (isPinching g); cbn in Hone; try lia;
      repeat match goal with H : ?a = ?a -> _ |- _ => specialize (H eq_refl) end;
      repeat split; intros; try discriminate; auto;
      rewrite Hignored by assumption; congruence.
  - intros st res g Hreported. unfold atMostOneFlag.
    destruct (reported_one_flag st res g Hreported) as (Hfist & Hopen & Hpinch).
    destruct (isFist g), (isOpen g), (isPinching g); cbn; try lia; exfalso;
      first [destruct (Hfist eq_refl); discriminate
            | destruct (Hopen eq_refl); discriminate].
Qed.

Lemma mode_machine_transitions_witness :
  let pinch := {| isFist := false; isOpen := false; isPinching := true;
                  handPosition := Point.mk 0 0; pinchDistance := 0.01 |} in
  let scattered := {| App.mode := SCATTERED; App.gestureStatus := "Detecting...";
                      App.currentHandState := App.currentHandState App.initial |} in
  atMostOneFlag pinch
  /\ App.mode (App.handleGestureUpdate pinch scattered) = FOCUSED.
Proof.
  cbv zeta.
  assert (Hone : atMostOneFlag
                   {| isFist := false; isOpen := false; isPinching := true;
                      handPosition := Point.mk 0 0; pinchDistance := 0.01 |})
    by (unfold atMostOneFlag; cbn; lia).
  split; [exact Hone |].
  destruct (proj1 mode_machine_transitions _
              {| App.mode := SCATTERED; App.gestureStatus := "Detecting...";
                 App.currentHandState := App.currentHandState App.initial |} Hone)
    as (_ & _ & Hpinch & _).
  apply Hpinch; [reflexivity | discriminate].
Defined.

(** C2: a frame with a detected hand (its 21 landmarks) is classified, and
    the flags follow the priority chain.  With [count] the number of curled
    fingers and [pinch] the thumb-index distance: [isPinching] holds iff
    [pinch < 0.06] and [count < 3]; otherwise [isFist] holds iff
    [count >= 3]; otherwise [isOpen] holds iff [count <= 1]; with
    [count = 2] and no pinch all three are false; at most one flag is set;
    and [count >= 3] with [pinch >= 0.06] gives [isFist] alone. *)
Theorem classifier_priority (st : HandTracker.State)
    (landmarks : list HandTracker.Landmark.t)
    (others : list (list HandTracker.Landmark.t)) :
  (21 <= length landmarks)%nat ->
  exists count pinch g,
    HandTracker.curledCount landmarks = Some count
    /\ HandTracker.pinchDist landmarks = Some pinch
    /\ (HandTracker.onResults st
          {| HandTracker.multiHandLandmarks := Some (landmarks :: others) |}).2
       = HandTracker.Reported g
    /\ pinchDistance g = pinch
    /\ (isPinching g = true <-> (pinch <? 0.06)%js = true /\ (count < 3)%nat)
    /\ (isPinching g = false -> (isFist g = true <-> (3 <= count)%nat))
    /\ (isPinching g = false -> isFist g = false ->
        (isOpen g = true <-> (count <= 1)%nat))
    /\ (count = 2%nat -> (pinch <? 0.06)%js = false ->
        isFist g = false /\ isOpen g = false /\ isPinching g = false)
    /\ (length (List.filter (fun b : bool => b) [isFist g; isOpen g; isPinching g])
        <= 1)%nat
    /\ ((3 <= count)%nat -> (pinch >=? 0.06)%js = true ->
        isFist g = true /\ isOpen g = false /\ isPinching g = false).
Proof.
  intros Hlen.
  destruct (handFrame_reports landmarks Hlen st)
    as (tgt & count & pinch & _ & Hc & Hp & Hframe).
  exists count, pinch. eexists. split; [exact Hc |]. split; [exact Hp |].
  split.
  { unfold HandTracker.onResults. cbn [HandTracker.multiHandLandmarks].
    rewrite Hframe. reflexivity. }
  pose proof (classification_flags count pinch) as Hflags.
  destruct (HandTracker.classification count pinch) as [[fist open] pinching].
  destruct Hflags as (Hpinching & Hfist & Hopen). cbn [isFist isOpen isPinching pinchDistance fst snd].
  change HandTracker.PINCH_THRESHOLD with (Fin 0.06) in Hpinching.
  split; [reflexivity |].
  split.
  { rewrite Hpinching, andb_true_iff, Nat.ltb_lt. reflexivity. }
  split.
  { intros Hnp. rewrite Hfist, Hnp. cbn [negb andb]. apply Nat.leb_le. }
  split.
  { intros Hnp Hnf. rewrite Hopen, Hnp, Hnf. cbn [negb andb]. apply Nat.leb_le. }
  split.
  { intros -> Hgeo. rewrite Hgeo in Hpinching. cbn in Hpinching.
    subst pinching. cbn in Hfist. subst fist. cbn in Hopen. auto. }
  split.
  { subst open fist. destruct pinching, (3 <=? count)%nat, (count <=? 1)%nat; simpl; lia. }
  intros Hc3 Hge. apply ge_not_lt in Hge. rewrite Hge in Hpinching.
  cbn [andb] in Hpinching. subst pinching.
  apply Nat.leb_le in Hc3. rewrite Hc3 in Hfist. cbn [negb andb] in Hfist. subst fist.
  cbn [negb andb] in Hopen. auto.
Qed.

Section FlatHand.
Import HandTracker.

(** The distance of two landmarks with finite coordinates. *)
Lemma dist_finite (landmarks : list Landmark.t) (i j : nat) (a b c d : R)
    (za zb : number) :
  landmarks !! i = Some (Landmark.mk (Fin a) (Fin b) za) ->
  landmarks !! j = Some (Landmark.mk (Fin c) (Fin d) zb) ->
  dist landmarks i j = Some (Fin (sqrt ((a - c) * (a - c) + (b - d) * (b - d)))).
Proof.
  intros Hi Hj. unfold dist. rewrite Hi, Hj.
  cbn [mbind option_bind Landmark.x Landmark.y]. unfold Math_pow, sub.
  cbn [Nat.iter nat_rect neg add mul].
  pose proof (Rle_0_sqr (a + - c)) as Hx. pose proof (Rle_0_sqr (b + - d)) as Hy.
  unfold Rsqr in Hx, Hy.
  rewrite Math_sqrt_fin by lra. do 2 f_equal. f_equal. lra.
Qed.

Lemma flatHand_finger (tip pip : nat) :
  flatHand !! tip = Some (Landmark.mk 0 0 0) ->
  flatHand !! pip = Some (Landmark.mk 0 0 0) ->
  isCurled flatHand tip pip = Some false.
Proof.
  intros Htip Hpip. unfold isCurled.
  rewrite (dist_finite flatHand tip 0 0 0 0 0 0 0 Htip eq_refl).
  rewrite (dist_finite flatHand pip 0 0 0 0 0 0 0 Hpip eq_refl).
  cbn. rewrite bool_decide_eq_false_2; [reflexivity | lra].
Qed.

Lemma flatHand_curledCount : curledCount flatHand = Some 0%nat.
Proof.
  unfold curledCount. rewrite !flatHand_finger by reflexivity. reflexivity.
Qed.

Lemma flatHand_pinchDist : pinchDist flatHand = Some (Fin 1).
Proof.
  unfold pinchDist.
  rewrite (dist_finite flatHand 4 8 1 0 0 0 0 0 eq_refl eq_refl).
  do 2 f_equal.
  replace ((1 - 0) * (1 - 0) + (0 - 0) * (0 - 0)) with 1 by lra. apply sqrt_1.
Qed.
End FlatHand.

Lemma classifier_priority_witness :
  exists g,
    (HandTracker.onResults HandTracker.initial
       {| HandTracker.multiHandLandmarks := Some [flatHand] |}).2
    = HandTracker.Reported g
    /\ isPinching g = false /\ isFist g = false /\ isOpen g = true.
Proof.
  destruct (classifier_priority HandTracker.initial flatHand [])
    as (count & pinch & g & Hc & Hp & Hg & _ & Hpinching & Hfist & Hopen & _).
  - simpl. lia.
  - rewrite flatHand_curledCount in Hc. injection Hc as <-.
    rewrite flatHand_pinchDist in Hp. injection Hp as <-.
    assert (Hnp : isPinching g = false).
    { destruct (isPinching g); [| reflexivity].
      destruct Hpinching as [Hgeo _]. destruct (Hgeo eq_refl) as [Hgeo' _].
      rewrite lt_fin in Hgeo'. apply bool_decide_eq_true in Hgeo'. lra. }
    assert (Hnf : isFist g = false).
    { destruct (isFist g); [| reflexivity].
      destruct (Hfist Hnp) as [Hthree _]. specialize (Hthree eq_refl). lia. }
    exists g. split; [exact Hg |]. split; [exact Hnp |]. split; [exact Hnf |].
    apply (Hopen Hnp Hnf). lia.
Defined.

(** C7: a frame with no hand detected reports the three flags false,
    [pinchDistance = 1] and [handPosition = (0, 0)], and leaves the stored
    smoothed position as it was: whatever frame comes next is handled as if
    the empty frame had not been there, and the next frame with a hand is
    smoothed from the stored position, not from [(0, 0)]. *)
Theorem no_hand_keeps_accumulator (st : HandTracker.State) (res : HandTracker.Results) :
  HandTracker.handDetected res = false ->
  exists g,
    HandTracker.onResults st res = (st, HandTracker.Reported g)
    /\ isFist g = false /\ isOpen g = false /\ isPinching g = false
    /\ pinchDistance g = Fin 1
    /\ handPosition g = Point.mk 0 0
    /\ (forall next,
          HandTracker.onResults (HandTracker.onResults st res).1 next
          = HandTracker.onResults st next)
    /\ (forall landmarks others, (21 <= length landmarks)%nat ->
          exists tgt g',
            HandTracker.target landmarks = Some tgt
            /\ (HandTracker.onResults (HandTracker.onResults st res).1
                  {| HandTracker.multiHandLandmarks := Some (landmarks :: others) |}).2
               = HandTracker.Reported g'
            /\ handPosition g' = HandTracker.smooth (HandTracker.prevPos st) tgt).
Proof.
  intros Hnone.
  assert (Hres : HandTracker.onResults st res = (st, HandTracker.Reported HandTracker.noHand)).
  { unfold HandTracker.onResults, HandTracker.handDetected in *.
    destruct (HandTracker.multiHandLandmarks res) as [[| hand hands] |];
      [reflexivity | | reflexivity].
    apply bool_decide_eq_false in Hnone. cbn [length] in Hnone. lia. }
  exists HandTracker.noHand. rewrite Hres. cbn [fst].
  repeat split; try reflexivity.
  intros landmarks others Hlen.
  destruct (handFrame_reports landmarks Hlen st)
    as (tgt & count & pinch & Ht & _ & _ & Hframe).
  exists tgt. eexists. split; [exact Ht |].
  unfold HandTracker.onResults. cbn [HandTracker.multiHandLandmarks].
  rewrite Hframe. split; reflexivity.
Qed.

Lemma no_hand_keeps_accumulator_witness :
  let st := {| HandTracker.prevPos := Point.mk 0.5 0.25 |} in
  let lost := {| HandTracker.multiHandLandmarks := None |} in
  (HandTracker.onResults st lost).1 = st
  /\ exists g, (HandTracker.onResults st lost).2 = HandTracker.Reported g
               /\ handPosition g = Point.mk 0 0.
Proof.
  cbv zeta.
  destruct (no_hand_keeps_accumulator
              {| HandTracker.prevPos := Point.mk 0.5 0.25 |}
              {| HandTracker.multiHandLandmarks := None |} eq_refl)
    as (g & Hres & _ & _ & _ & _ & Hpos & _).
  rewrite Hres. split; [reflexivity |]. exists g. split; [reflexivity | exact Hpos].
Defined.

(** *** Position smoothing *)

Section Smoothing.
Import HandTracker.

Lemma smoothed_shift (prev tgt : R) (n : nat) :
  smoothed prev tgt (S n) = smoothed (prev + (tgt - prev) * 0.3) tgt n.
Proof.
  induction n as [| n IH]; [reflexivity |].
  change (smoothed prev tgt (S (S n)))
    with (smoothed prev tgt (S n) + (tgt - smoothed prev tgt (S n)) * 0.3).
  rewrite IH. reflexivity.
Qed.

(** The distance to the target shrinks by the factor 0.7 each frame. *)
Lemma smoothed_closed_form (prev tgt : R) (n : nat) :
  tgt - smoothed prev tgt n = 0.7 ^ n * (tgt - prev).
Proof.
  induction n as [| n IH]; simpl; [lra |].
  replace (tgt - (smoothed prev tgt n + (tgt - smoothed prev tgt n) * 0.3))
    with (0.7 * (tgt - smoothed prev tgt n)) by lra.
  rewrite IH. lra.
Qed.

Lemma smoothed_below (prev tgt : R) (n : nat) :
  prev <= tgt -> smoothed prev tgt n <= smoothed prev tgt (S n) <= tgt.
Proof.
  intros Hle.
  assert (H : 0 <= tgt - smoothed prev tgt n).
  { rewrite smoothed_closed_form. apply Rmult_le_pos; [apply pow_le |]; lra. }
  simpl. lra.
Qed.

Lemma smoothed_above (prev tgt : R) (n : nat) :
  tgt <= prev -> tgt <= smoothed prev tgt (S n) <= smoothed prev tgt n.
Proof.
  intros Hle.
  assert (H : 0 <= smoothed prev tgt n - tgt).
  { replace (smoothed prev tgt n - tgt) with (- (tgt - smoothed prev tgt n)) by lra.
    rewrite smoothed_closed_form.
    replace (- (0.7 ^ n * (tgt - prev))) with (0.7 ^ n * (prev - tgt)) by lra.
    apply Rmult_le_pos; [apply pow_le |]; lra. }
  simpl. lra.
Qed.

Lemma smoothed_converges (prev tgt eps : R) :
  0 < eps -> exists N, forall n, (N <= n)%nat -> Rabs (tgt - smoothed prev tgt n) < eps.
Proof.
  intros Heps.
  destruct (Req_dec tgt prev) as [-> | Hne].
  { exists 0%nat. intros n _. rewrite smoothed_closed_form.
    replace (0.7 ^ n * (prev - prev)) with 0 by lra. rewrite Rabs_R0. exact Heps. }
  assert (Hd : 0 < Rabs (tgt - prev)) by (apply Rabs_pos_lt; lra).
  destruct (pow_lt_1_zero 0.7) with (y := eps / Rabs (tgt - prev)) as [N HN].
  { rewrite Rabs_pos_eq; lra. }
  { apply Rdiv_lt_0_compat; assumption. }
  exists N. intros n Hn. rewrite smoothed_closed_form, Rabs_mult.
  specialize (HN n ltac:(lia)).
  apply (Rmult_lt_compat_r (Rabs (tgt - prev))) in HN; [| exact Hd].
  replace (eps / Rabs (tgt - prev) * Rabs (tgt - prev)) with eps in HN
    by (field; lra).
  exact HN.
Qed.

Lemma target_at (landmarks : list Landmark.t) (palm : Landmark.t) (px py : R) :
  landmarks !! 9%nat = Some palm ->
  Landmark.x palm = Fin px -> Landmark.y palm = Fin py ->
  target landmarks = Some (Point.mk (Fin ((1 - px - 0.5) * 2)) (Fin ((py - 0.5) * 2))).
Proof.
  intros Hpalm Hx Hy. unfold target. rewrite Hpalm. simpl. rewrite Hx, Hy. simpl.
  do 2 f_equal; f_equal; lra.
Qed.

Lemma smooth_fin (a b tx ty : R) :
  smooth (Point.mk (Fin a) (Fin b)) (Point.mk (Fin tx) (Fin ty))
  = Point.mk (Fin (a + (tx - a) * 0.3)) (Fin (b + (ty - b) * 0.3)).
Proof. unfold smooth. simpl. f_equal; f_equal; lra. Qed.

Lemma run_constant_target (px py : R) (stream : list Results) :
  Forall (handAt px py) stream ->
  forall x0 y0 : R,
    reportedPositions (run {| prevPos := Point.mk x0 y0 |} stream).2
    = (fun k => Point.mk (Fin (smoothed x0 ((1 - px - 0.5) * 2) (S k)))
                         (Fin (smoothed y0 ((py - 0.5) * 2) (S k))))
      <$> seq 0 (length stream).
Proof.
  induction 1 as [| res stream Hres _ IH]; intros x0 y0; [reflexivity |].
  destruct Hres as (landmarks & others & palm & Hres & Hlen & Hpalm & Hx & Hy).
  destruct (handFrame_reports landmarks Hlen {| prevPos := Point.mk x0 y0 |})
    as (tgt & count & pinch & Ht & _ & _ & Hframe).
  rewrite (target_at landmarks palm px py Hpalm Hx Hy) in Ht.
  injection Ht as <-. cbn [prevPos] in Hframe. rewrite smooth_fin in Hframe.
  cbn [run]. unfold onResults at 1. rewrite Hres, Hframe.
  specialize (IH (x0 + ((1 - px - 0.5) * 2 - x0) * 0.3)
                 (y0 + ((py - 0.5) * 2 - y0) * 0.3)).
  destruct (run _ stream) as [st2 os].
  cbn [snd] in *. unfold reportedPositions in *.
  cbn [omap list_omap handPosition length seq fmap list_fmap]. rewrite IH.
  f_equal. rewrite <- seq_shift, <- list_fmap_compose.
  apply list_fmap_ext. intros _ k _. cbn [compose].
  rewrite (smoothed_shift x0), (smoothed_shift y0). reflexivity.
Qed.
End Smoothing.

(** C8: over consecutive frames of a detected hand whose palm landmark
    stays at one place, the k-th reported position is the stored position
    after k+1 smoothing steps [s + 0.3 * (target - s)]; in each coordinate
    that sequence moves toward the target without passing it (it rises to
    the target from below, falls to it from above), its distance to the
    target shrinks by the factor 0.7 at every frame, and it comes within any
    positive distance of the target after finitely many frames. *)
Theorem smoothing_monotone_no_overshoot (x0 y0 px py : R)
    (stream : list HandTracker.Results) :
  Forall (HandTracker.handAt px py) stream ->
  let tx := (1 - px - 0.5) * 2 in
  let ty := (py - 0.5) * 2 in
  HandTracker.reportedPositions
    (HandTracker.run {| HandTracker.prevPos := Point.mk x0 y0 |} stream).2
  = (fun k => Point.mk (Fin (HandTracker.smoothed x0 tx (S k)))
                       (Fin (HandTracker.smoothed y0 ty (S k))))
    <$> seq 0 (length stream)
  /\ (forall prev tgt n,
        (prev <= tgt ->
         HandTracker.smoothed prev tgt n <= HandTracker.smoothed prev tgt (S n) <= tgt)
        /\ (tgt <= prev ->
            tgt <= HandTracker.smoothed prev tgt (S n) <= HandTracker.smoothed prev tgt n)
        /\ Rabs (tgt - HandTracker.smoothed prev tgt (S n))
           = 0.7 * Rabs (tgt - HandTracker.smoothed prev tgt n))
  /\ (forall prev tgt eps, 0 < eps ->
        exists N, forall n, (N <= n)%nat ->
          Rabs (tgt - HandTracker.smoothed prev tgt n) < eps).
Proof.
  intros Hstream tx ty. split; [| split].
  - apply run_constant_target, Hstream.
  - intros prev tgt n. split; [apply smoothed_below |]. split; [apply smoothed_above |].
    rewrite !smoothed_closed_form. cbn [pow].
    rewrite Rmult_assoc, Rabs_mult, (Rabs_pos_eq 0.7); lra.
  - intros prev tgt eps. apply smoothed_converges.
Qed.

Lemma smoothing_monotone_no_overshoot_witness :
  let frame := {| HandTracker.multiHandLandmarks := Some [flatHand] |} in
  HandTracker.reportedPositions (HandTracker.run HandTracker.initial [frame; frame]).2
  = (fun k => Point.mk (Fin (HandTracker.smoothed 0 ((1 - 0 - 0.5) * 2) (S k)))
                       (Fin (HandTracker.smoothed 0 ((0 - 0.5) * 2) (S k))))
    <$> [0; 1]%nat.
Proof.
  cbv zeta.
  refine (proj1 (smoothing_monotone_no_overshoot 0 0 0 0
                   [{| HandTracker.multiHandLandmarks := Some [flatHand] |};
                    {| HandTracker.multiHandLandmarks := Some [flatHand] |}] _)).
  repeat constructor;
    exists flatHand, [], (HandTracker.Landmark.mk 0 0 0);
    repeat split; simpl; lia.
Defined.

(* ------------------------------------------------------------------ *)
(** ** The adaptive camera *)
(* ------------------------------------------------------------------ *)

Section AdaptiveCamera.
Import Scene3D.

(** Half the field of view in radians, for a field of view in degrees. *)
Lemma half_fov_range (f : R) :
  0 < f * (PI / 180) < PI -> 0 < f * (PI / 180) / 2 < PI / 2.
Proof. intros [H0 H1]. split; lra. Qed.

Lemma tan_half_fov_pos (f : R) :
  0 < f * (PI / 180) < PI -> 0 < tan (f * (PI / 180) / 2).
Proof. intros H. apply half_fov_range in H. apply tan_gt_0; lra. Qed.

Lemma cos_half_fov_nonzero (f : R) :
  0 < f * (PI / 180) < PI -> cos (f * (PI / 180) / 2) <> 0.
Proof.
  intros H. apply half_fov_range in H.
  pose proof (cos_gt_0 (f * (PI / 180) / 2)) as Hc. lra.
Qed.

Lemma tan_half_fov (f : R) :
  0 < f * (PI / 180) < PI ->
  Math_tan (Fin f * (Math_PI / 180) / 2)%js = Fin (tan (f * (PI / 180) / 2)).
Proof.
  intros H. unfold Math_PI.
  rewrite (div_fin PI 180) by lra. cbn [mul].
  rewrite div_fin by lra.
  apply Math_tan_fin, cos_half_fov_nonzero, H.
Qed.

(** On a positive viewport and a field of view inside (0, 180) degrees
    every intermediate value is finite. *)
Lemma adaptiveCamera_finite (w h f z : R) :
  0 < w -> 0 < h -> 0 < f * (PI / 180) < PI ->
  position_z (adaptiveCamera {| width := w; height := h |}
                             {| fov := f; position_z := z |})
  = Fin (Rmax (18 / (2 * tan (f * (PI / 180) / 2)))
              (Rmax (14 / (2 * tan (f * (PI / 180) / 2) * (w / h))) 20)).
Proof.
  intros Hw Hh Hf.
  pose proof (tan_half_fov_pos f Hf) as Ht.
  assert (Ha : 0 < w / h) by (apply Rdiv_lt_0_compat; assumption).
  unfold adaptiveCamera. cbn [fov width height position_z].
  rewrite (tan_half_fov f Hf). cbn [mul].
  rewrite (div_fin w h) by lra. cbn [mul].
  rewrite !div_fin.
  - apply Math_max3_fin.
  - apply Rgt_not_eq. apply Rmult_lt_0_compat; lra.
  - lra.
Qed.

(** The fitting distance for an extent grows as the field of view narrows. *)
Lemma fit_antitone (extent a f f' : R) :
  0 <= extent -> 0 < a ->
  0 < f' * (PI / 180) -> f' <= f -> f * (PI / 180) < PI ->
  extent / (2 * tan (f * (PI / 180) / 2) * a)
  <= extent / (2 * tan (f' * (PI / 180) / 2) * a).
Proof.
  intros He Ha Hf' Hle Hf.
  pose proof PI_RGT_0 as Hpi.
  assert (Hr : f' * (PI / 180) <= f * (PI / 180)).
  { apply Rmult_le_compat_r; lra. }
  assert (Ht' : 0 < tan (f' * (PI / 180) / 2)) by (apply tan_half_fov_pos; lra).
  assert (Htt : tan (f' * (PI / 180) / 2) <= tan (f * (PI / 180) / 2)).
  { destruct Hle as [Hlt | ->]; [| lra].
    left. apply tan_increasing; try lra.
    apply Rmult_lt_compat_r with (r := PI / 180) in Hlt; lra. }
  unfold Rdiv at 1 3. apply Rmult_le_compat_l; [exact He |].
  apply Rinv_le_contravar.
  - apply Rmult_lt_0_compat; lra.
  - apply Rmult_le_compat_r; lra.
Qed.
End AdaptiveCamera.

(** C9: for a positive viewport and a field of view whose angle lies in
    (0, pi), the recomputed camera distance is the largest of the distance
    that fits the target height 18, the distance that fits the target width
    14 at the viewport's aspect, and the minimum 20; hence, at a fixed
    aspect, a narrower field of view never gives a smaller distance. *)
Theorem camera_distance_max_and_monotone (w h f z : R) :
  0 < w -> 0 < h -> 0 < f * (PI / 180) < PI ->
  let distance size camera := position_z (Scene3D.adaptiveCamera size camera) in
  distance {| width := w; height := h |} {| fov := f; position_z := z |}
  = Fin (Rmax (18 / (2 * tan (f * (PI / 180) / 2)))
              (Rmax (14 / (2 * tan (f * (PI / 180) / 2) * (w / h))) 20))
  /\ (forall w' h' f' z' : R,
        0 < w' -> 0 < h' -> w' / h' = w / h ->
        0 < f' * (PI / 180) -> f' <= f ->
        exists d d' : R,
          distance {| width := w; height := h |} {| fov := f; position_z := z |} = Fin d
          /\ distance {| width := w'; height := h' |} {| fov := f'; position_z := z' |}
             = Fin d'
          /\ d <= d').
Proof.
  intros Hw Hh Hf distance. subst distance. cbv beta.
  split; [apply adaptiveCamera_finite; assumption |].
  intros w' h' f' z' Hw' Hh' Haspect Hf' Hle.
  assert (Ha : 0 < w / h) by (apply Rdiv_lt_0_compat; assumption).
  rewrite (adaptiveCamera_finite w h f z) by assumption.
  assert (Hr : f' * (PI / 180) <= f * (PI / 180)).
  { pose proof PI_RGT_0. apply Rmult_le_compat_r; lra. }
  rewrite (adaptiveCamera_finite w' h' f' z') by (try assumption; lra).
  rewrite Haspect. do 2 eexists. split; [reflexivity |]. split; [reflexivity |].
  apply Rmax_lub.
  - eapply Rle_trans; [| apply Rmax_l].
    pose proof (fit_antitone 18 1 f f') as Hfit. rewrite !Rmult_1_r in Hfit.
    apply Hfit; lra.
  - eapply Rle_trans; [| apply Rmax_r]. apply Rle_max_compat_r.
    apply fit_antitone; lra.
Qed.

Lemma camera_distance_max_and_monotone_witness :
  position_z (Scene3D.adaptiveCamera {| width := 800; height := 600 |}
                                     {| fov := 90; position_z := 25 |})
  = Fin 20.
Proof.
  pose proof PI_RGT_0 as Hpi.
  assert (Hw : 0 < 800) by lra.
  assert (Hh : 0 < 600) by lra.
  assert (Hf : 0 < 90 * (PI / 180) < PI) by lra.
  destruct (camera_distance_max_and_monotone 800 600 90 25 Hw Hh Hf) as [Hd _].
  cbv beta zeta in Hd. rewrite Hd. f_equal.
  replace (90 * (PI / 180) / 2) with (PI / 4) by lra.
  rewrite tan_PI4.
  rewrite (Rmax_right (14 / (2 * 1 * (800 / 600))) 20) by lra.
  apply Rmax_right. lra.
Defined.

Section UnguardedCamera.
Import Scene3D.

Lemma sign_pos (r : R) : 0 < r -> sign r = Gt.
Proof. intros H. unfold sign. destruct (decide (0 < r)); [reflexivity | contradiction]. Qed.

(** The effect never reads the distance it overwrites. *)
Lemma adaptiveCamera_overwrites (size : Size) (f z z' : number) :
  adaptiveCamera size {| fov := f; position_z := z |}
  = adaptiveCamera size {| fov := f; position_z := z' |}.
Proof. reflexivity. Qed.

Lemma adaptiveCamera_zero_fov (w h z : R) :
  0 < w -> 0 < h ->
  position_z (adaptiveCamera {| width := w; height := h |}
                             {| fov := 0; position_z := z |}) = PInf.
Proof.
  intros Hw Hh. unfold adaptiveCamera. cbn [fov width height position_z].
  unfold Math_PI. rewrite (div_fin PI 180) by lra. cbn [mul].
  rewrite (div_fin (0 * (PI / 180)) 2) by lra.
  replace (0 * (PI / 180) / 2) with 0 by lra.
  rewrite Math_tan_0. cbn [mul]. rewrite (div_fin w h) by lra. cbn [mul].
  replace (2 * 0) with 0 by lra. replace (0 * (w / h)) with 0 by lra.
  rewrite !div_zero_pos by lra. reflexivity.
Qed.

Lemma adaptiveCamera_zero_width (h f z : R) :
  0 < h -> 0 < f * (PI / 180) < PI ->
  position_z (adaptiveCamera {| width := 0; height := h |}
                             {| fov := f; position_z := z |}) = PInf.
Proof.
  intros Hh Hf. pose proof (tan_half_fov_pos f Hf) as Ht.
  unfold adaptiveCamera. cbn [fov width height position_z].
  rewrite (tan_half_fov f Hf). cbn [mul].
  rewrite (div_fin 0 h) by lra. cbn [mul].
  replace (2 * tan (f * (PI / 180) / 2) * (0 / h)) with 0 by (field; lra).
  rewrite div_zero_pos by lra.
  rewrite div_fin by (apply Rgt_not_eq; lra).
  reflexivity.
Qed.

Lemma adaptiveCamera_zero_height (w f z : R) :
  0 < w -> 0 < f * (PI / 180) < PI ->
  exists d, position_z (adaptiveCamera {| width := w; height := 0 |}
                                       {| fov := f; position_z := z |}) = Fin d
            /\ 20 <= d.
Proof.
  intros Hw Hf. pose proof (tan_half_fov_pos f Hf) as Ht.
  unfold adaptiveCamera. cbn [fov width height position_z].
  rewrite (tan_half_fov f Hf). cbn [mul].
  rewrite (div_zero_pos w Hw). cbn [mul]. rewrite sign_pos by lra.
  cbn [signed_inf]. change (Fin 14 / PInf)%js with (Fin 0).
  rewrite div_fin by (apply Rgt_not_eq; lra).
  rewrite Math_max3_fin. eexists. split; [reflexivity |].
  eapply Rle_trans; [| apply Rmax_r]. apply Rmax_r.
Qed.
End UnguardedCamera.

(* ------------------------------------------------------------------ *)
(** ** The transform interpolator *)
(* ------------------------------------------------------------------ *)

Section Interpolator.
Import TreeElement.

Lemma finite_inv (a : number) : isFinite a = true -> exists r, a = Fin r.
Proof. destruct a; try discriminate. eauto. Qed.



Lemma angle_lerp_fixed (r t : R) : MathUtils.lerp (Fin r) (Fin r) (Fin t) = Fin r.
Proof. unfold MathUtils.lerp. simpl. f_equal. lra. Qed.

Lemma euler_lerp_fixed (e : Euler.t) (t : R) :
  Euler.finite e ->
  Euler.mk (MathUtils.lerp (Euler.x e) (Euler.x e) (Fin t))
           (MathUtils.lerp (Euler.y e) (Euler.y e) (Fin t))
           (MathUtils.lerp (Euler.z e) (Euler.z e) (Fin t)) = e.
Proof.
  destruct e as [ex ey ez]. intros (Hx & Hy & Hz). cbn in Hx, Hy, Hz.
  apply finite_inv in Hx as [x ->], Hy as [y ->], Hz as [z ->].
  cbn [Euler.x Euler.y Euler.z]. rewrite !angle_lerp_fixed. reflexivity.
Qed.


Variable slerp : Euler.t -> Quaternion.t -> number -> Euler.t.





Section Rounding.
Import PrimFloat SpecFloat FloatOps FloatAxioms.


End Rounding.
End Interpolator.

(** C4 (as amended): while the mode is FOCUSED, a photo that is not the
    held focus target is sent to its scattered position scaled by 1.5, at
    its base scale times 0.8; an object of any other kind is sent to its
    scattered position at its base scale. *)
Theorem focused_bystander_target (data : TreeObjectData.t)
    (targetPhotoId : option string) (camera : Camera) (size : Size)
    (parent : option TreeElement.Parent) :
  let tg := TreeElement.frameTarget data FOCUSED targetPhotoId camera size parent in
  (TreeObjectData.type data = photo ->
   Some (TreeObjectData.id data) <> targetPhotoId ->
   TreeElement.targetPos tg
   = Vector3.multiplyScalar (TreeObjectData.positionScattered data) 1.5
   /\ TreeElement.targetScale tg = (TreeObjectData.scale data * 0.8)%js)
  /\ (TreeObjectData.type data <> photo ->
      TreeElement.targetPos tg = TreeObjectData.positionScattered data
      /\ TreeElement.targetScale tg = TreeObjectData.scale data).
Proof.
  cbv zeta. unfold TreeElement.frameTarget, TreeElement.isTarget. split.
  - intros Hphoto Hnot.
    destruct (decide (FOCUSED = TREE)) as [Hm | _]; [discriminate |].
    destruct (decide (_ /\ _)) as [_ | Hn]; [| exfalso; apply Hn; auto].
    rewrite bool_decide_eq_false_2 by exact Hnot. split; reflexivity.
  - intros Hother.
    destruct (decide (FOCUSED = TREE)) as [Hm | _]; [discriminate |].
    destruct (decide (_ /\ _)) as [[_ Hp] | _]; [contradiction |].
    destruct (decide (TreeObjectData.type data = star)); split; reflexivity.
Qed.

Lemma focused_bystander_target_witness :
  let tg := TreeElement.frameTarget (samplePhoto "photo-c") FOCUSED
              (Some "photo-a"%string) sampleCamera sampleSize None in
  TreeElement.targetPos tg = Vector3.mk (Fin (2 * 1.5)) (Fin (4 * 1.5)) (Fin (6 * 1.5))
  /\ TreeElement.targetScale tg = Fin (1.5 * 0.8).
Proof.
  cbv zeta.
  destruct (focused_bystander_target (samplePhoto "photo-c") (Some "photo-a"%string)
              sampleCamera sampleSize None) as [Hphoto _].
  destruct (Hphoto eq_refl ltac:(discriminate)) as [Hpos Hscale].
  rewrite Hpos, Hscale. split; reflexivity.
Defined.

(** C4 fails as stated: a ball in FOCUSED mode, not the focus target,
    keeps its scattered position and its base scale. *)
Lemma focused_ball_not_pushed :
  let tg := TreeElement.frameTarget sampleBall FOCUSED (Some "photo-a"%string)
              sampleCamera sampleSize None in
  Some (TreeObjectData.id sampleBall) <> Some "photo-a"%string
  /\ TreeElement.targetPos tg = Vector3.mk 4 2 2
  /\ TreeElement.targetPos tg
     <> Vector3.multiplyScalar (TreeObjectData.positionScattered sampleBall) 1.5
  /\ TreeElement.targetScale tg = Fin 0.5
  /\ TreeElement.targetScale tg <> (TreeObjectData.scale sampleBall * 0.8)%js.
Proof.
  cbv zeta. split; [discriminate |].
  split; [reflexivity |]. split.
  { cbn. intros H. injection H as H _ _. lra. }
  split; [reflexivity |].
  cbn. intros H. injection H as H. lra.
Qed.

Section SteadyState.
Import TreeElement.


End SteadyState.




Section FocusScale.
Import TreeElement.

Lemma min2_fin (r s : R) : min2 (Fin r) (Fin s) = Fin (Rmin r s).
Proof.
  unfold min2, Rmin. rewrite lt_fin.
  destruct (Rle_dec r s) as [Hle | Hle]; case_bool_decide; try reflexivity.
  - exfalso; lra.
  - exfalso; lra.
Qed.

Lemma Math_min2_fin (a b : R) : Math_min [Fin a; Fin b] = Fin (Rmin a b).
Proof.
  unfold Math_min. cbn [foldr].
  change (min2 (Fin b) PInf) with (Fin b). apply min2_fin.
Qed.

Lemma Math_min_NaN (a : number) : Math_min [a; NaN] = NaN.
Proof. unfold Math_min. cbn [foldr]. destruct a; reflexivity. Qed.

(** The scale the held focus photo is sent to. *)
Lemma focus_scale (data : TreeObjectData.t) (tp : option string)
    (camera : Camera) (size : Size) (parent : option Parent) :
  TreeObjectData.type data = photo -> Some (TreeObjectData.id data) = tp ->
  targetScale (frameTarget data FOCUSED tp camera size parent)
  = (Math_min [2 * Math_tan (fov camera * (Math_PI / 180) / 2) * 4;
               2 * Math_tan (fov camera * (Math_PI / 180) / 2) * 4
               * (width size / height size)] * 0.85)%js.
Proof.
  intros Hphoto Htarget. unfold frameTarget, isTarget.
  destruct (decide (_ /\ _)) as [_ | Hn]; [| exfalso; apply Hn; auto].
  rewrite bool_decide_eq_true_2 by exact Htarget.
  destruct parent; reflexivity.
Qed.

Lemma focus_scale_finite (data : TreeObjectData.t) (tp : option string)
    (parent : option Parent) (w h f z : R) :
  TreeObjectData.type data = photo -> Some (TreeObjectData.id data) = tp ->
  0 < w -> 0 < h -> 0 < f * (PI / 180) < PI ->
  exists s : R,
    targetScale (frameTarget data FOCUSED tp {| fov := f; position_z := z |}
                   {| width := w; height := h |} parent) = Fin s
    /\ 0 < s.
Proof.
  intros Hphoto Htarget Hw Hh Hf.
  pose proof (tan_half_fov_pos f Hf) as Ht.
  assert (Ha : 0 < w / h) by (apply Rdiv_lt_0_compat; assumption).
  rewrite focus_scale by assumption. cbn [fov width height].
  rewrite (tan_half_fov f Hf). cbn [mul].
  rewrite (div_fin w h) by lra. cbn [mul].
  rewrite Math_min2_fin. cbn [mul]. eexists. split; [reflexivity |].
  apply Rmult_lt_0_compat; [| lra].
  apply Rmin_glb_lt; [lra |]. apply Rmult_lt_0_compat; lra.
Qed.

Lemma focus_scale_empty_viewport (data : TreeObjectData.t) (tp : option string)
    (parent : option Parent) (camera : Camera) :
  TreeObjectData.type data = photo -> Some (TreeObjectData.id data) = tp ->
  targetScale (frameTarget data FOCUSED tp camera {| width := 0; height := 0 |} parent)
  = NaN.
Proof.
  intros Hphoto Htarget. rewrite focus_scale by assumption. cbn [width height].
  assert (H00 : (Fin 0 / Fin 0)%js = NaN).
  { unfold div, sign. destruct (decide (0 = 0)) as [_ | Hn]; [| contradiction].
    destruct (decide (0 < 0)); [lra |]. reflexivity. }
  rewrite H00.
  set (vh := (2 * Math_tan (fov camera * (Math_PI / 180) / 2) * 4)%js).
  replace (vh * NaN)%js with NaN by (destruct vh; reflexivity).
  rewrite Math_min_NaN. reflexivity.
Qed.
End FocusScale.

(** C5 (as amended): neither the adaptive camera nor the focus scale
    rejects an input, and a recomputation never keeps the previous camera
    distance: the new distance does not depend on it.  On a viewport of
    positive width and height with a field of view inside (0, 180) degrees
    the distance is finite and at least 20, and the focus scale is finite
    and positive.  With a zero field of view on a positive viewport, or a
    zero width at a positive height, the distance is [+Infinity]; with a
    zero height at a positive width it is finite; with width and height
    both zero the focus scale is [NaN]. *)
Theorem camera_and_scale_unguarded (w h f z : R) :
  (forall size fov0 z0 z1,
      Scene3D.adaptiveCamera size {| fov := fov0; position_z := z0 |}
      = Scene3D.adaptiveCamera size {| fov := fov0; position_z := z1 |})
  /\ (0 < w -> 0 < h -> 0 < f * (PI / 180) < PI ->
      exists d : R,
        position_z (Scene3D.adaptiveCamera {| width := w; height := h |}
                                           {| fov := f; position_z := z |}) = Fin d
        /\ 20 <= d)
  /\ (0 < w -> 0 < h ->
      position_z (Scene3D.adaptiveCamera {| width := w; height := h |}
                                         {| fov := 0; position_z := z |}) = PInf)
  /\ (0 < h -> 0 < f * (PI / 180) < PI ->
      position_z (Scene3D.adaptiveCamera {| width := 0; height := h |}
                                         {| fov := f; position_z := z |}) = PInf)
  /\ (0 < w -> 0 < f * (PI / 180) < PI ->
      exists d : R,
        position_z (Scene3D.adaptiveCamera {| width := w; height := 0 |}
                                           {| fov := f; position_z := z |}) = Fin d
        /\ 20 <= d)
  /\ (forall data tp parent,
        TreeObjectData.type data = photo -> Some (TreeObjectData.id data) = tp ->
        0 < w -> 0 < h -> 0 < f * (PI / 180) < PI ->
        exists s : R,
          TreeElement.targetScale
            (TreeElement.frameTarget data FOCUSED tp {| fov := f; position_z := z |}
               {| width := w; height := h |} parent) = Fin s
          /\ 0 < s)
  /\ (forall data tp parent camera,
        TreeObjectData.type data = photo -> Some (TreeObjectData.id data) = tp ->
        TreeElement.targetScale
          (TreeElement.frameTarget data FOCUSED tp camera
             {| width := 0; height := 0 |} parent) = NaN).
Proof.
  split; [intros; apply adaptiveCamera_overwrites |].
  split.
  { intros Hw Hh Hf. rewrite adaptiveCamera_finite by assumption.
    eexists. split; [reflexivity |].
    eapply Rle_trans; [| apply Rmax_r]. apply Rmax_r. }
  split; [apply adaptiveCamera_zero_fov |].
  split; [apply adaptiveCamera_zero_width |].
  split; [apply adaptiveCamera_zero_height |].
  split.
  { intros data tp parent. apply focus_scale_finite. }
  intros data tp parent camera. apply focus_scale_empty_viewport.
Qed.

Lemma camera_and_scale_unguarded_witness :
  exists d : R,
    position_z (Scene3D.adaptiveCamera sampleSize sampleCamera) = Fin d /\ 20 <= d.
Proof.
  pose proof PI_RGT_0 as Hpi.
  destruct (camera_and_scale_unguarded 800 600 90 25) as (_ & Hfinite & _).
  apply Hfinite; lra.
Defined.

(** C5 fails as stated: a zero field of view is not rejected, the distance
    25 is replaced by [+Infinity]; and on a viewport of zero width and
    height the scale of the focus photo is [NaN]. *)
Lemma zero_fov_gives_infinite_distance :
  let camera := {| fov := 0; position_z := 25 |} in
  let camera' := Scene3D.adaptiveCamera sampleSize camera in
  let tg := TreeElement.frameTarget (samplePhoto "photo-a") FOCUSED
              (Some "photo-a"%string) sampleCamera {| width := 0; height := 0 |} None in
  position_z camera' = PInf
  /\ isFinite (position_z camera') = false
  /\ position_z camera' <> position_z camera
  /\ TreeElement.targetScale tg = NaN
  /\ isFinite (TreeElement.targetScale tg) = false.
Proof.
  cbv zeta.
  assert (Hd : position_z (Scene3D.adaptiveCamera sampleSize {| fov := 0; position_z := 25 |})
               = PInf)
    by (apply adaptiveCamera_zero_fov; lra).
  assert (Hs : TreeElement.targetScale
                 (TreeElement.frameTarget (samplePhoto "photo-a") FOCUSED
                    (Some "photo-a"%string) sampleCamera
                    {| width := 0; height := 0 |} None) = NaN)
    by (apply focus_scale_empty_viewport; reflexivity).
  rewrite Hd, Hs. repeat split; try reflexivity. discriminate.
Qed.

(* ------------------------------------------------------------------ *)
(** ** The focus selection *)
(* ------------------------------------------------------------------ *)

Section Draw.
Import Scene3D.

Lemma div_le_iff (a b c : R) : 0 < c -> a / c <= b <-> a <= b * c.
Proof.
  intros Hc. split; intros H.
  - replace a with (a / c * c) by (field; lra). apply Rmult_le_compat_r; lra.
  - apply Rmult_le_reg_r with c; [exact Hc |].
    replace (a / c * c) with a by (field; lra). exact H.
Qed.

Lemma lt_div_iff (a b c : R) : 0 < c -> b < a / c <-> b * c < a.
Proof.
  intros Hc. split; intros H.
  - replace a with (a / c * c) by (field; lra). apply Rmult_lt_compat_r; lra.
  - apply Rmult_lt_reg_r with c; [exact Hc |].
    replace (a / c * c) with a by (field; lra). exact H.
Qed.

Lemma drawIndex_bounds (u : R) (n : nat) :
  0 <= u < 1 -> (0 < n)%nat ->
  (0 <= Zfloor (u * INR n))%Z /\ (drawIndex u n < n)%nat.
Proof.
  intros [Hu0 Hu1] Hn.
  assert (Hpos : 0 < INR n) by (apply lt_0_INR; lia).
  pose proof (Zfloor_bound (u * INR n)) as [Hlo Hhi].
  assert (H0 : (0 <= Zfloor (u * INR n))%Z).
  { apply Zfloor_lub. simpl. apply Rmult_le_pos; lra. }
  split; [exact H0 |].
  unfold drawIndex.
  assert (Hlt : IZR (Zfloor (u * INR n)) < IZR (Z.of_nat n)).
  { rewrite <- INR_IZR_INZ. apply Rle_lt_trans with (u * INR n); [exact Hlo |]. nra. }
  apply lt_IZR in Hlt. lia.
Qed.

(** The array read [candidates[Math.floor(random * length)]]. *)
Lemma index_draw {A : Type} (l : list A) (u : R) (n : nat) :
  0 <= u < 1 -> (0 < n)%nat ->
  index l (Math_floor (Fin u * Fin (INR n))%js) = l !! drawIndex u n.
Proof.
  intros Hu Hn. destruct (drawIndex_bounds u n Hu Hn) as [H0 _].
  unfold index, Math_floor. cbn [mul].
  rewrite ZfloorZ.
  destruct (decide (_ /\ _)) as [_ | Hbad]; [reflexivity |].
  exfalso. apply Hbad. split; [reflexivity |]. apply IZR_le in H0. exact H0.
Qed.

(** Candidate [i] of [n] is drawn exactly on the interval
    [i / n <= u < (i + 1) / n]: every candidate has a share [1 / n] of the
    draws. *)
Lemma drawIndex_interval (u : R) (n i : nat) :
  0 <= u < 1 -> (0 < n)%nat ->
  drawIndex u n = i <-> INR i / INR n <= u < (INR i + 1) / INR n.
Proof.
  intros Hu Hn. destruct (drawIndex_bounds u n Hu Hn) as [H0 _].
  assert (Hpos : 0 < INR n) by (apply lt_0_INR; lia).
  pose proof (Zfloor_bound (u * INR n)) as [Hlo Hhi].
  unfold drawIndex in *. split.
  - intros <-.
    assert (Hk : INR (Z.to_nat (Zfloor (u * INR n))) = IZR (Zfloor (u * INR n))).
    { rewrite INR_IZR_INZ, Z2Nat.id by exact H0. reflexivity. }
    rewrite Hk. split.
    + apply div_le_iff; [lra |]. exact Hlo.
    + apply lt_div_iff; [lra |]. exact Hhi.
  - intros [Hl Hr].
    apply div_le_iff in Hl; [| lra]. apply lt_div_iff in Hr; [| lra].
    rewrite (Zfloor_eq (Z.of_nat i)); [apply Nat2Z.id |].
    rewrite <- INR_IZR_INZ. split; assumption.
Qed.
End Draw.

Section FocusSelection.
Import Scene3D.

Lemma candidates_nonempty (st : State) :
  photoObjs st <> [] -> (0 < length (candidates st))%nat.
Proof.
  intros Hp. unfold candidates, shouldResetHistory. case_bool_decide.
  - destruct (photoObjs st); [contradiction | simpl; lia].
  - lia.
Qed.

Lemma candidates_are_photos (st : State) (c : TreeObjectData.t) :
  c ∈ candidates st -> c ∈ objects st /\ TreeObjectData.type c = photo.
Proof.
  unfold candidates, unviewed, photoObjs.
  destruct (shouldResetHistory st); rewrite ?list_elem_of_filter; unfold isPhoto; tauto.
Qed.

Lemma candidates_not_viewed (st : State) (c : TreeObjectData.t) :
  shouldResetHistory st = false -> c ∈ candidates st ->
  TreeObjectData.id c ∉ viewedPhotoIds st.
Proof.
  unfold candidates, unviewed. intros ->. rewrite list_elem_of_filter.
  unfold notViewed. tauto.
Qed.

Lemma shouldResetHistory_allViewed (st : State) :
  shouldResetHistory st = true <-> allViewed st.
Proof.
  unfold shouldResetHistory, allViewed, unviewed.
  rewrite bool_decide_eq_true, length_zero_iff_nil. split.
  - intros Hnil p Hp.
    destruct (decide (TreeObjectData.id p ∈ viewedPhotoIds st)) as [Hin | Hout];
      [exact Hin |].
    exfalso. eapply filter_nil_not_elem_of; [exact Hnil | exact Hout | exact Hp].
  - intros Hall.
    destruct (filter _ _) as [| c rest] eqn:E; [reflexivity |].
    assert (Hc : c ∈ filter (notViewed (viewedPhotoIds st)) (photoObjs st))
      by (rewrite E; apply list_elem_of_here).
    apply list_elem_of_filter in Hc as [Hnv Hc]. exfalso. apply Hnv, Hall, Hc.
Qed.

(** Entering FOCUSED with no target held and a photo in the scene. *)
Lemma focus_select (st : State) (u : R) :
  truthy (targetPhotoId st) = false -> photoObjs st <> [] -> 0 <= u < 1 ->
  exists chosen,
    candidates st !! drawIndex u (length (candidates st)) = Some chosen
    /\ commit st (focusChanged FOCUSED (Fin u))
       = Some {| objects := objects st;
                 viewedPhotoIds :=
                   (if shouldResetHistory st then ∅ else viewedPhotoIds st)
                   ∪ {[TreeObjectData.id chosen]};
                 targetPhotoId := Some (TreeObjectData.id chosen) |}.
Proof.
  intros Hfalsy Hphotos Hu.
  pose proof (candidates_nonempty st Hphotos) as Hn.
  destruct (drawIndex_bounds u _ Hu Hn) as [_ Hlt].
  destruct (lookup_lt_is_Some_2 (candidates st) _ Hlt) as [chosen Hchosen].
  exists chosen. split; [exact Hchosen |].
  unfold commit, focusEffect. rewrite Hfalsy. cbn [negb].
  destruct (decide (FOCUSED = FOCUSED)) as [_ | Hn']; [| contradiction].
  destruct (decide (0 < length (photoObjs st))%nat) as [_ | Hz].
  - rewrite (index_draw _ u _ Hu Hn), Hchosen. reflexivity.
  - exfalso. destruct (photoObjs st); [contradiction | simpl in Hz; lia].
Qed.

(** While FOCUSED with a target held, the effect changes nothing. *)
Lemma focus_hold (st : State) (random : number) :
  truthy (targetPhotoId st) = true ->
  commit st (focusChanged FOCUSED random) = Some st.
Proof.
  intros Hheld. unfold commit, focusEffect. rewrite Hheld.
  destruct (decide (FOCUSED = FOCUSED)) as [_ | Hn]; [| contradiction].
  simpl. destruct st; reflexivity.
Qed.

(** In any other mode the effect clears a held target. *)
Lemma focus_leave (st : State) (mode : AppMode) (random : number) :
  mode <> FOCUSED -> truthy (targetPhotoId st) = true ->
  commit st (focusChanged mode random)
  = Some {| objects := objects st; viewedPhotoIds := viewedPhotoIds st;
            targetPhotoId := None |}.
Proof.
  intros Hmode Hheld. unfold commit, focusEffect. rewrite Hheld.
  destruct (decide (mode = FOCUSED)) as [Hm | _]; [contradiction |].
  reflexivity.
Qed.

Lemma uuid_truthy (data : list TreeObjectData.t) (o : TreeObjectData.t) :
  uuids data -> o ∈ data -> truthy (Some (TreeObjectData.id o)) = true.
Proof.
  intros [_ Hne] Ho. rewrite Forall_forall in Hne. specialize (Hne o Ho).
  simpl. apply negb_true_iff. apply String.eqb_neq. exact Hne.
Qed.
End FocusSelection.

Section WithoutReplacement.
Import Scene3D.

(** Viewing an id that no element of the list carries filters nothing more. *)
Lemma filter_fresh_id (viewed : gset string) (k : string) (l : list TreeObjectData.t) :
  k ∉ TreeObjectData.id <$> l ->
  filter (notViewed (viewed ∪ {[k]})) l = filter (notViewed viewed) l.
Proof.
  induction l as [| p l IH]; intros Hk; [reflexivity |].
  rewrite fmap_cons, not_elem_of_cons in Hk. destruct Hk as [Hne Hk].
  rewrite !filter_cons, (IH Hk). unfold notViewed.
  destruct (decide (TreeObjectData.id p ∉ viewed ∪ {[k]})) as [Hl | Hl];
    destruct (decide (TreeObjectData.id p ∉ viewed)) as [Hr | Hr];
    try reflexivity; exfalso.
  - apply Hr. intros Hin. apply Hl, elem_of_union. left. exact Hin.
  - apply Hl. intros Hin. apply elem_of_union in Hin as [Hin | Hin];
      [contradiction |]. apply elem_of_singleton in Hin. congruence.
Qed.

(** Viewing one unviewed element leaves one fewer unviewed. *)
Lemma unviewed_shrinks (viewed : gset string) (c : TreeObjectData.t)
    (l : list TreeObjectData.t) :
  NoDup (TreeObjectData.id <$> l) ->
  c ∈ filter (notViewed viewed) l ->
  S (length (filter (notViewed (viewed ∪ {[TreeObjectData.id c]})) l))
  = length (filter (notViewed viewed) l).
Proof.
  induction l as [| p l IH]; intros Hnd Hc.
  - rewrite filter_nil in Hc. inversion Hc.
  - rewrite fmap_cons in Hnd. apply NoDup_cons in Hnd as [Hp Hnd].
    rewrite filter_cons in Hc. rewrite !filter_cons. unfold notViewed in *.
    destruct (decide (TreeObjectData.id p ∉ viewed)) as [Hpv | Hpv].
    + apply elem_of_cons in Hc as [-> | Hc].
      * destruct (decide (TreeObjectData.id p ∉ viewed ∪ {[TreeObjectData.id p]}))
          as [Hbad | _]; [set_solver |].
        pose proof (filter_fresh_id viewed (TreeObjectData.id p) l Hp) as Hf.
        unfold notViewed in Hf. rewrite Hf. reflexivity.
      * assert (Hcl : TreeObjectData.id c ∈ TreeObjectData.id <$> l).
        { apply list_elem_of_fmap_2. apply list_elem_of_filter in Hc. tauto. }
        destruct (decide (TreeObjectData.id p ∉ viewed ∪ {[TreeObjectData.id c]}))
          as [_ | Hbad].
        -- simpl. f_equal. apply IH; assumption.
        -- exfalso. apply Hbad. intros Hin. apply elem_of_union in Hin as [Hin | Hin];
             [contradiction |]. apply elem_of_singleton in Hin. congruence.
    + destruct (decide (TreeObjectData.id p ∉ viewed ∪ {[TreeObjectData.id c]}))
        as [Hbad | _]; [set_solver |].
      apply IH; assumption.
Qed.

Lemma photo_ids_NoDup (st : State) :
  uuids (objects st) -> NoDup (TreeObjectData.id <$> photoObjs st).
Proof.
  intros [Hnd _]. eapply sublist_NoDup; [exact Hnd |].
  apply fmap_sublist, sublist_filter.
Qed.

(** Visits of FOCUSED, as many as there are unviewed photos at most,
    show pairwise different photos, none of them viewed before. *)
Lemma visits_distinct (exit : AppMode) (draws : list R) :
  exit <> FOCUSED ->
  forall st : State,
    uuids (objects st) -> targetPhotoId st = None ->
    Forall (fun u => 0 <= u < 1) draws ->
    (length draws <= length (unviewed st))%nat ->
    exists shown st',
      focusVisits exit st (Fin <$> draws) = Some (Some <$> shown, st')
      /\ length shown = length draws
      /\ NoDup shown
      /\ (forall i, i ∈ shown -> i ∈ photoIds st /\ (i ∉ viewedPhotoIds st))
      /\ objects st' = objects st
      /\ targetPhotoId st' = None
      /\ viewedPhotoIds st' = viewedPhotoIds st ∪ list_to_set shown.
Proof.
  intros Hexit. induction draws as [| u draws IH]; intros st Hids Hnone Hdraws Hlen.
  - exists [], st.
    split; [reflexivity |]. split; [reflexivity |]. split; [constructor |].
    split; [intros i Hi; inversion Hi |].
    split; [reflexivity |]. split; [exact Hnone |].
    cbn [list_to_set foldr]. set_solver.
  - apply Forall_cons in Hdraws as [Hu Hdraws]. cbn [length] in Hlen.
    assert (Hreset : shouldResetHistory st = false).
    { unfold shouldResetHistory. apply bool_decide_eq_false_2. lia. }
    assert (Hphotos : photoObjs st <> []).
    { intros Hnil. unfold unviewed in Hlen. rewrite Hnil, filter_nil in Hlen.
      simpl in Hlen. lia. }
    assert (Hfalsy : truthy (targetPhotoId st) = false) by (rewrite Hnone; reflexivity).
    destruct (focus_select st u Hfalsy Hphotos Hu) as (chosen & Hchosen & Hcommit).
    rewrite Hreset in Hcommit.
    assert (Hin : chosen ∈ candidates st) by (eapply list_elem_of_lookup_2; exact Hchosen).
    pose proof (candidates_are_photos st chosen Hin) as [Hobj Hphoto].
    pose proof (candidates_not_viewed st chosen Hreset Hin) as Hfresh.
    set (shownSt := {| objects := objects st;
                       viewedPhotoIds := viewedPhotoIds st ∪ {[TreeObjectData.id chosen]};
                       targetPhotoId := Some (TreeObjectData.id chosen) |}) in *.
    set (leftSt := {| objects := objects st;
                      viewedPhotoIds := viewedPhotoIds st ∪ {[TreeObjectData.id chosen]};
                      targetPhotoId := None |}).
    assert (Hleave : commit shownSt (focusChanged exit (Fin u)) = Some leftSt).
    { apply (focus_leave shownSt exit (Fin u) Hexit).
      apply (uuid_truthy (objects st)); assumption. }
    assert (Hcount : S (length (unviewed leftSt)) = length (unviewed st)).
    { unfold unviewed, photoObjs. cbn [objects viewedPhotoIds leftSt].
      apply unviewed_shrinks; [apply photo_ids_NoDup, Hids |].
      unfold candidates in Hin. rewrite Hreset in Hin. exact Hin. }
    destruct (IH leftSt Hids eq_refl Hdraws ltac:(lia))
      as (shown & st' & Hvisits & Hlength & Hnd & Hshown & Hobjs & Htarget & Hviewed).
    exists (TreeObjectData.id chosen :: shown), st'.
    split.
    { rewrite fmap_cons. cbn [focusVisits]. unfold focusVisit.
      rewrite Hcommit. cbn [mbind option_bind]. rewrite Hleave. cbn [mbind option_bind].
      rewrite Hvisits. reflexivity. }
    split; [simpl; lia |].
    split.
    { apply NoDup_cons. split; [| exact Hnd].
      intros Hrep. apply Hshown in Hrep as [_ Hrep]. apply Hrep.
      cbn [viewedPhotoIds leftSt]. set_solver. }
    split.
    { intros i Hi. apply elem_of_cons in Hi as [-> | Hi].
      - split; [| exact Hfresh].
        unfold photoIds, photoObjs. apply list_elem_of_fmap_2.
        apply list_elem_of_filter. split; assumption.
      - apply Hshown in Hi as [Hi1 Hi2]. split; [exact Hi1 |].
        cbn [viewedPhotoIds leftSt] in Hi2. set_solver. }
    split; [exact Hobjs |]. split; [exact Htarget |].
    rewrite Hviewed. cbn [viewedPhotoIds leftSt]. rewrite list_to_set_cons. set_solver.
Qed.
End WithoutReplacement.

(** C3: with uuid ids, a photo in the scene and no target held, the commit
    that enters FOCUSED with the draw [u] picks element [floor (u * n)] of
    the pool of [n] candidates: the photos not yet viewed, or all photos
    once every photo has been viewed.  Each candidate is picked on a draw
    interval of the same length [1 / n].  The picked id becomes the held
    target and joins the viewed set, which is first emptied when every
    photo had been viewed.  The target is held through every further
    commit in FOCUSED and cleared by the first commit in another mode.
    Hence visits of FOCUSED, as many as there are unviewed photos at most,
    show pairwise different photos, none viewed before; from an empty
    history as many visits as there are photos show every photo once. *)
Theorem focus_selection_without_replacement (st : Scene3D.State) (u : R) :
  Scene3D.uuids (Scene3D.objects st) -> Scene3D.photoIds st <> [] ->
  truthy (Scene3D.targetPhotoId st) = false -> 0 <= u < 1 ->
  let pool := Scene3D.candidates st in
  let n := length pool in
  exists chosen shownSt,
    (Scene3D.allViewed st -> pool = Scene3D.photoObjs st)
    /\ (~ Scene3D.allViewed st -> pool = Scene3D.unviewed st)
    /\ pool !! Scene3D.drawIndex u n = Some chosen
    /\ (forall i : nat,
          Scene3D.drawIndex u n = i <-> INR i / INR n <= u < (INR i + 1) / INR n)
    /\ Scene3D.commit st (Scene3D.focusChanged FOCUSED (Fin u)) = Some shownSt
    /\ Scene3D.targetPhotoId shownSt = Some (TreeObjectData.id chosen)
    /\ Scene3D.objects shownSt = Scene3D.objects st
    /\ TreeObjectData.id chosen ∈ Scene3D.photoIds st
    /\ (~ Scene3D.allViewed st ->
        (TreeObjectData.id chosen ∉ Scene3D.viewedPhotoIds st)
        /\ Scene3D.viewedPhotoIds shownSt
           = Scene3D.viewedPhotoIds st ∪ {[TreeObjectData.id chosen]})
    /\ (Scene3D.allViewed st ->
        Scene3D.viewedPhotoIds shownSt = {[TreeObjectData.id chosen]})
    /\ (forall random,
          Scene3D.commit shownSt (Scene3D.focusChanged FOCUSED random) = Some shownSt)
    /\ (forall mode random, mode <> FOCUSED ->
          exists leftSt,
            Scene3D.commit shownSt (Scene3D.focusChanged mode random) = Some leftSt
            /\ Scene3D.targetPhotoId leftSt = None
            /\ Scene3D.viewedPhotoIds leftSt = Scene3D.viewedPhotoIds shownSt
            /\ Scene3D.objects leftSt = Scene3D.objects st)
    /\ (forall exit (draws : list R),
          exit <> FOCUSED -> Scene3D.targetPhotoId st = None ->
          Forall (fun v => 0 <= v < 1) draws ->
          (length draws <= length (Scene3D.unviewed st))%nat ->
          exists shown st',
            Scene3D.focusVisits exit st (Fin <$> draws) = Some (Some <$> shown, st')
            /\ NoDup shown
            /\ (forall i, i ∈ shown ->
                  i ∈ Scene3D.photoIds st /\ (i ∉ Scene3D.viewedPhotoIds st))
            /\ Scene3D.viewedPhotoIds st'
               = Scene3D.viewedPhotoIds st ∪ list_to_set shown
            /\ (Scene3D.viewedPhotoIds st = ∅ ->
                length draws = length (Scene3D.photoIds st) ->
                shown ≡ₚ Scene3D.photoIds st)).
Proof.
  intros Hids Hphotos Hfalsy Hu pool n.
  assert (Hobjs : Scene3D.photoObjs st <> []).
  { intros Hnil. apply Hphotos. unfold Scene3D.photoIds. rewrite Hnil. reflexivity. }
  pose proof (candidates_nonempty st Hobjs) as Hn.
  destruct (focus_select st u Hfalsy Hobjs Hu) as (chosen & Hchosen & Hcommit).
  assert (Hin : chosen ∈ Scene3D.candidates st)
    by (eapply list_elem_of_lookup_2; exact Hchosen).
  pose proof (candidates_are_photos st chosen Hin) as [Hobj Hphoto].
  assert (Hheld : truthy (Some (TreeObjectData.id chosen)) = true)
    by (apply (uuid_truthy (Scene3D.objects st)); assumption).
  eexists chosen, _.
  split.
  { intros Hall. apply shouldResetHistory_allViewed in Hall.
    subst pool. unfold Scene3D.candidates. rewrite Hall. reflexivity. }
  split.
  { intros Hnot. subst pool. unfold Scene3D.candidates.
    destruct (Scene3D.shouldResetHistory st) eqn:E; [| reflexivity].
    apply shouldResetHistory_allViewed in E. contradiction. }
  split; [exact Hchosen |].
  split; [intros i; apply drawIndex_interval; assumption |].
  split; [exact Hcommit |].
  split; [reflexivity |]. split; [reflexivity |].
  split.
  { unfold Scene3D.photoIds, Scene3D.photoObjs. apply list_elem_of_fmap_2.
    apply list_elem_of_filter. split; assumption. }
  split.
  { intros Hnot.
    destruct (Scene3D.shouldResetHistory st) eqn:E.
    - apply shouldResetHistory_allViewed in E. contradiction.
    - split; [apply candidates_not_viewed; assumption | reflexivity]. }
  split.
  { intros Hall. apply shouldResetHistory_allViewed in Hall. rewrite Hall.
    cbn [Scene3D.viewedPhotoIds]. apply union_empty_l_L. }
  split; [intros random; apply focus_hold; exact Hheld |].
  split.
  { intros mode random Hmode. eexists. split; [apply focus_leave; assumption |].
    repeat split. }
  intros exit draws Hexit Hnone Hdraws Hlen.
  destruct (visits_distinct exit draws Hexit st Hids Hnone Hdraws Hlen)
    as (shown & st' & Hvisits & Hlength & Hnd & Hshown & _ & _ & Hviewed).
  exists shown, st'. split; [exact Hvisits |]. split; [exact Hnd |].
  split; [exact Hshown |]. split; [exact Hviewed |].
  intros Hempty Hall.
  apply submseteq_length_Permutation; [| lia].
  apply NoDup_submseteq; [exact Hnd |]. intros i Hi. apply Hshown, Hi.
Qed.

Lemma sampleObjects_uuids : Scene3D.uuids sampleObjects.
Proof.
  split.
  - apply (bool_decide_unpack _). vm_compute. exact I.
  - repeat constructor; discriminate.
Qed.

Lemma focus_selection_without_replacement_witness :
  exists shownSt,
    Scene3D.commit sampleScene (Scene3D.focusChanged FOCUSED (Fin 0.5)) = Some shownSt
    /\ Scene3D.targetPhotoId shownSt = Some "photo-b"%string.
Proof.
  assert (Hu : 0 <= 0.5 < 1) by lra.
  assert (Hphotos : Scene3D.photoIds sampleScene <> []) by discriminate.
  destruct (focus_selection_without_replacement sampleScene 0.5
              sampleObjects_uuids Hphotos eq_refl Hu)
    as (chosen & shownSt & _ & _ & Hpool & Hdraw & Hcommit & Htarget & _).
  exists shownSt. split; [exact Hcommit |]. rewrite Htarget.
  change (Scene3D.candidates sampleScene)
    with [samplePhoto "photo-a"; samplePhoto "photo-b"; samplePhoto "photo-c"]
    in Hpool, Hdraw.
  cbn [length] in Hpool, Hdraw.
  assert (Hindex : Scene3D.drawIndex 0.5 3 = 1%nat).
  { apply Hdraw. simpl. lra. }
  rewrite Hindex in Hpool. injection Hpool as <-. reflexivity.
Defined.

(* ------------------------------------------------------------------ *)
(** ** Regeneration while a target is held *)
(* ------------------------------------------------------------------ *)

Section Regeneration.
Import Scene3D.

Lemma held_through_focused_commit (st : State) (c : Commit) :
  truthy (targetPhotoId st) = true -> staysFocused c ->
  exists st', commit st c = Some st' /\ targetPhotoId st' = targetPhotoId st.
Proof.
  intros Hheld Hc. destruct c as [data | mode random | data mode random].
  - eexists. split; reflexivity.
  - destruct Hc as [Hc | Hc]; [discriminate |]. injection Hc as ->.
    exists st. split; [apply focus_hold, Hheld | reflexivity].
  - destruct Hc as [Hc | Hc]; [discriminate |]. injection Hc as ->.
    unfold commit, focusEffect. rewrite Hheld.
    destruct (decide (FOCUSED = FOCUSED)) as [_ | Hn]; [| contradiction].
    eexists. split; reflexivity.
Qed.

Lemma held_through_focused_commits (cs : list Commit) :
  Forall staysFocused cs ->
  forall st, truthy (targetPhotoId st) = true ->
    exists st', commits st cs = Some st' /\ targetPhotoId st' = targetPhotoId st.
Proof.
  induction 1 as [| c cs Hc _ IH]; intros st Hheld; [eauto |].
  destruct (held_through_focused_commit st c Hheld Hc) as (st1 & Hcommit & Htarget).
  destruct (IH st1) as (st' & Hcommits & Htarget'); [congruence |].
  exists st'. cbn [commits]. rewrite Hcommit. cbn [mbind option_bind].
  split; [exact Hcommits | congruence].
Qed.
End Regeneration.

(** C10: when the photo list changes while a focus target is held, the
    regeneration installs the new objects and empties the viewed set but
    leaves the held id in place (also when the second effect runs in the
    same commit with the mode FOCUSED).  The new ids being new uuids, the
    held id is the id of no object of the new generation, so no element
    sees itself as the target.  The id stays held through any commits in
    which the mode is FOCUSED; the first commit in another mode clears it,
    and the next commit in FOCUSED then picks a photo of the new
    generation. *)
Theorem stale_target_after_regeneration (st : Scene3D.State)
    (data : list TreeObjectData.t) (held : string) :
  Scene3D.targetPhotoId st = Some held -> held <> ""%string ->
  held ∈ TreeObjectData.id <$> Scene3D.objects st ->
  (forall o, o ∈ data ->
     TreeObjectData.id o ∉ TreeObjectData.id <$> Scene3D.objects st) ->
  let regenerated := {| Scene3D.objects := data; Scene3D.viewedPhotoIds := ∅;
                        Scene3D.targetPhotoId := Some held |} in
  Scene3D.commit st (Scene3D.photosChanged data) = Some regenerated
  /\ (forall random,
        Scene3D.commit st (Scene3D.bothChanged data FOCUSED random) = Some regenerated)
  /\ (forall o, o ∈ data ->
        TreeObjectData.id o <> held
        /\ TreeElement.isTarget o (Scene3D.targetPhotoId regenerated) = false)
  /\ (forall cs, Forall Scene3D.staysFocused cs ->
        exists st', Scene3D.commits regenerated cs = Some st'
                    /\ Scene3D.targetPhotoId st' = Some held)
  /\ (forall exit random, exit <> FOCUSED ->
        exists leftSt,
          Scene3D.commit regenerated (Scene3D.focusChanged exit random) = Some leftSt
          /\ Scene3D.targetPhotoId leftSt = None
          /\ Scene3D.objects leftSt = data
          /\ Scene3D.viewedPhotoIds leftSt = ∅
          /\ (forall u : R,
                Scene3D.uuids data -> Scene3D.photoObjs leftSt <> [] -> 0 <= u < 1 ->
                exists chosen st',
                  Scene3D.commit leftSt (Scene3D.focusChanged FOCUSED (Fin u)) = Some st'
                  /\ Scene3D.targetPhotoId st' = Some (TreeObjectData.id chosen)
                  /\ chosen ∈ data /\ TreeObjectData.type chosen = photo)).
Proof.
  intros Hheld Hne Hold Hfresh regenerated.
  assert (Htruthy : truthy (Some held) = true).
  { simpl. apply negb_true_iff, String.eqb_neq, Hne. }
  assert (Hstale : forall o, o ∈ data -> TreeObjectData.id o <> held).
  { intros o Ho Heq. apply (Hfresh o Ho). rewrite Heq. exact Hold. }
  split.
  { unfold Scene3D.commit, Scene3D.photosEffect, Scene3D.applyUpdates. cbn.
    rewrite Hheld. reflexivity. }
  split.
  { intros random. unfold Scene3D.commit, Scene3D.focusEffect.
    rewrite Hheld, Htruthy.
    destruct (decide (FOCUSED = FOCUSED)) as [_ | Hn]; [| contradiction].
    cbn. rewrite Hheld. reflexivity. }
  split.
  { intros o Ho. split; [apply Hstale, Ho |].
    unfold TreeElement.isTarget. apply bool_decide_eq_false_2.
    cbn [Scene3D.targetPhotoId regenerated]. intros Heq. injection Heq as Heq.
    exact (Hstale o Ho Heq). }
  split.
  { intros cs Hcs.
    destruct (held_through_focused_commits cs Hcs regenerated Htruthy)
      as (st' & Hcommits & Htarget).
    exists st'. split; [exact Hcommits | exact Htarget]. }
  intros exit random Hexit.
  eexists. split; [apply focus_leave; [exact Hexit | exact Htruthy] |].
  cbn [Scene3D.targetPhotoId Scene3D.objects Scene3D.viewedPhotoIds regenerated].
  split; [reflexivity |]. split; [reflexivity |]. split; [reflexivity |].
  intros u Hids Hphotos Hu.
  destruct (focus_select
              {| Scene3D.objects := data; Scene3D.viewedPhotoIds := ∅;
                 Scene3D.targetPhotoId := None |} u eq_refl Hphotos Hu)
    as (chosen & Hchosen & Hcommit).
  apply list_elem_of_lookup_2 in Hchosen.
  apply candidates_are_photos in Hchosen as [Hobj Hphoto].
  exists chosen. eexists. split; [exact Hcommit |].
  split; [reflexivity |]. split; [exact Hobj | exact Hphoto].
Qed.

Lemma stale_target_after_regeneration_witness :
  Scene3D.commit sampleFocused (Scene3D.photosChanged sampleRegenerated)
  = Some {| Scene3D.objects := sampleRegenerated; Scene3D.viewedPhotoIds := ∅;
            Scene3D.targetPhotoId := Some "photo-b"%string |}.
Proof.
  refine (proj1 (stale_target_after_regeneration sampleFocused sampleRegenerated
                   "photo-b" eq_refl _ _ _)).
  - discriminate.
  - apply (bool_decide_unpack _). vm_compute. exact I.
  - intros o Ho. apply (bool_decide_unpack _).
    repeat (apply elem_of_cons in Ho as [-> | Ho]; [vm_compute; exact I |]).
    inversion Ho.
Defined.


(* ================================================================== *)
(** * Further properties of the code *)
(* ================================================================== *)

(* ------------------------------------------------------------------ *)
(** ** The classifier on incomplete frames, and the range of positions *)
(* ------------------------------------------------------------------ *)

Section IncompleteFrames.
Import HandTracker.

Lemma gesture_needs_pinky (landmarks : list Landmark.t) (smoothed : Point.t) :
  (length landmarks < 21)%nat -> gesture landmarks smoothed = None.
Proof.
  intros Hlen.
  assert (Htip : landmarks !! 20%nat = None) by (apply lookup_ge_None; lia).
  assert (Hpinky : isCurled landmarks 20 18 = None).
  { unfold isCurled, dist. rewrite Htip. reflexivity. }
  unfold gesture, curledCount. rewrite Hpinky.
  destruct (isCurled landmarks 8 6); [| reflexivity].
  destruct (isCurled landmarks 12 10); [| reflexivity].
  destruct (isCurled landmarks 16 14); reflexivity.
Qed.
End IncompleteFrames.

(** X1: a first hand with fewer than 21 landmarks is not handled as "no
    hand": the callback throws and reports nothing.  With at most 9
    landmarks the stored smoothed position is left as it was; with 10 to 20
    it has already been overwritten by the smoothing step when the throw
    happens. *)
Theorem incomplete_frame_throws (st : HandTracker.State)
    (landmarks : list HandTracker.Landmark.t)
    (others : list (list HandTracker.Landmark.t)) :
  (length landmarks < 21)%nat ->
  let result :=
    HandTracker.onResults st
      {| HandTracker.multiHandLandmarks := Some (landmarks :: others) |} in
  result.2 = HandTracker.TypeError
  /\ ((length landmarks <= 9)%nat -> result.1 = st)
  /\ ((10 <= length landmarks)%nat ->
      exists tgt, HandTracker.target landmarks = Some tgt
                  /\ result.1
                     = {| HandTracker.prevPos :=
                            HandTracker.smooth (HandTracker.prevPos st) tgt |}).
Proof.
  intros Hlen result. subst result.
  unfold HandTracker.onResults. cbn [HandTracker.multiHandLandmarks].
  unfold HandTracker.handFrame.
  destruct (HandTracker.target landmarks) as [tgt |] eqn:Htgt.
  - rewrite gesture_needs_pinky by exact Hlen. cbn [fst snd].
    split; [reflexivity |]. split.
    + intros Hshort. exfalso. unfold HandTracker.target in Htgt.
      rewrite (lookup_ge_None_2 landmarks 9) in Htgt by lia. discriminate.
    + intros _. exists tgt. split; reflexivity.
  - cbn [fst snd]. split; [reflexivity |]. split; [reflexivity |].
    intros Hlong. exfalso. unfold HandTracker.target in Htgt.
    destruct (lookup_lt_is_Some_2 landmarks 9 ltac:(lia)) as [palm Hpalm].
    rewrite Hpalm in Htgt. discriminate.
Qed.

Lemma incomplete_frame_throws_witness :
  let st := {| HandTracker.prevPos := Point.mk 0.5 0.25 |} in
  let frame := {| HandTracker.multiHandLandmarks := Some [take 12 flatHand] |} in
  (HandTracker.onResults st frame).2 = HandTracker.TypeError
  /\ (HandTracker.onResults st frame).1 <> st.
Proof.
  cbv zeta.
  destruct (incomplete_frame_throws {| HandTracker.prevPos := Point.mk 0.5 0.25 |}
              (take 12 flatHand) []) as (Hthrow & _ & Hwritten).
  - simpl. lia.
  - split; [exact Hthrow |].
    destruct Hwritten as (tgt & Htgt & Hst); [simpl; lia |].
    cbv zeta in Hst. rewrite Hst.
    assert (Hpalm : take 12 flatHand !! 9%nat = Some (HandTracker.Landmark.mk 0 0 0))
      by reflexivity.
    rewrite (target_at _ _ 0 0 Hpalm eq_refl eq_refl) in Htgt. injection Htgt as <-.
    cbn [HandTracker.prevPos]. rewrite smooth_fin.
    intros Heq. injection Heq as Hx _. lra.
Defined.

Section PositionRange.
Import HandTracker.

Lemma gesture_position (landmarks : list Landmark.t) (smoothed : Point.t)
    (g : HandGestureState) :
  gesture landmarks smoothed = Some g -> handPosition g = smoothed.
Proof.
  unfold gesture. destruct (curledCount landmarks) as [count |]; [| discriminate].
  destruct (pinchDist landmarks) as [pinch |]; [| discriminate]. cbn.
  destruct (classification count pinch) as [[fist open] pinching].
  intros H. injection H as <-. reflexivity.
Qed.

Lemma smooth_in_square (prev tgt : Point.t) :
  inSquare prev -> inSquare tgt -> inSquare (smooth prev tgt).
Proof.
  intros (x & y & -> & Hx & Hy) (tx & ty & -> & Htx & Hty).
  rewrite smooth_fin. eexists _, _. split; [reflexivity |]. lra.
Qed.

Lemma onResults_in_square (st : State) (res : Results) :
  inSquare (prevPos st) -> palmInImage res ->
  inSquare (prevPos (onResults st res).1)
  /\ (forall g, (onResults st res).2 = Reported g -> inSquare (handPosition g)).
Proof.
  intros Hst Hpalm. unfold onResults.
  assert (Hzero : inSquare (handPosition noHand)).
  { exists 0, 0. split; [reflexivity |]. lra. }
  destruct (multiHandLandmarks res) as [[| landmarks others] |] eqn:Hres.
  - split; [exact Hst |]. intros g Hg. injection Hg as <-. exact Hzero.
  - unfold handFrame.
    destruct (target landmarks) as [tgt |] eqn:Htgt;
      [| split; [exact Hst | intros g Hg; discriminate]].
    assert (Hin : inSquare (smooth (prevPos st) tgt)).
    { apply smooth_in_square; [exact Hst |].
      destruct (landmarks !! 9%nat) as [palm |] eqn:Hlookup;
        [| unfold target in Htgt; rewrite Hlookup in Htgt; discriminate].
      destruct (Hpalm landmarks others palm Hres Hlookup)
        as (px & py & Hx & Hy & Hpx & Hpy).
      rewrite (target_at landmarks palm px py Hlookup Hx Hy) in Htgt.
      injection Htgt as <-. eexists _, _. split; [reflexivity |]. lra. }
    destruct (gesture landmarks (smooth (prevPos st) tgt)) as [g |] eqn:Hg.
    + split; [exact Hin |]. intros g' Hg'. injection Hg' as <-.
      rewrite (gesture_position _ _ _ Hg). exact Hin.
    + split; [exact Hin |]. intros g' Hg'. discriminate.
  - split; [exact Hst |]. intros g Hg. injection Hg as <-. exact Hzero.
Qed.
End PositionRange.

(** X2: hand positions stay normalized.  When the stored smoothed position
    lies in [-1, 1] x [-1, 1] and the palm landmark of every frame lies in
    the image (coordinates in [0, 1]), then over any stream of results,
    with or without a hand, complete or not, the stored position stays in
    that square and so does every reported [handPosition]. *)
Theorem positions_stay_in_square (st : HandTracker.State)
    (stream : list HandTracker.Results) :
  inSquare (HandTracker.prevPos st) -> Forall palmInImage stream ->
  inSquare (HandTracker.prevPos (HandTracker.run st stream).1)
  /\ Forall inSquare (HandTracker.reportedPositions (HandTracker.run st stream).2).
Proof.
  intros Hst Hstream. revert st Hst.
  induction Hstream as [| res stream Hres _ IH]; intros st Hst.
  - split; [exact Hst | constructor].
  - destruct (onResults_in_square st res Hst Hres) as [Hnext Hreported].
    cbn [HandTracker.run].
    destruct (HandTracker.onResults st res) as [st1 o].
    cbn [fst snd] in Hnext, Hreported.
    specialize (IH st1 Hnext).
    destruct (HandTracker.run st1 stream) as [st2 os]. cbn [fst snd] in *.
    split; [apply IH |].
    unfold HandTracker.reportedPositions in *. cbn [omap list_omap].
    destruct o as [g |]; [| apply IH].
    constructor; [apply Hreported; reflexivity | apply IH].
Qed.

Lemma positions_stay_in_square_witness :
  let stream := [{| HandTracker.multiHandLandmarks := Some [flatHand] |};
                 {| HandTracker.multiHandLandmarks := None |};
                 {| HandTracker.multiHandLandmarks := Some [take 12 flatHand] |}] in
  inSquare (HandTracker.prevPos (HandTracker.run HandTracker.initial stream).1).
Proof.
  cbv zeta.
  refine (proj1 (positions_stay_in_square HandTracker.initial _ _ _)).
  - exists 0, 0. split; [reflexivity |]. lra.
  - assert (Hflat : forall n landmarks others palm,
               Some [take n flatHand] = Some (landmarks :: others) ->
               landmarks !! 9%nat = Some palm ->
               exists px py : R,
                 HandTracker.Landmark.x palm = Fin px
                 /\ HandTracker.Landmark.y palm = Fin py
                 /\ 0 <= px <= 1 /\ 0 <= py <= 1).
    { intros n landmarks others palm Heq Hpalm. injection Heq as <- _.
      apply lookup_take_Some in Hpalm as [Hpalm _].
      injection Hpalm as <-. exists 0, 0. repeat split; try reflexivity; lra. }
    repeat constructor.
    + intros landmarks others palm Heq. exact (Hflat 21%nat landmarks others palm Heq).
    + intros landmarks others palm Heq. discriminate.
    + intros landmarks others palm Heq. exact (Hflat 12%nat landmarks others palm Heq).
Defined.

(* ------------------------------------------------------------------ *)
(** ** The mode machine over gesture streams, and behind the tracker *)
(* ------------------------------------------------------------------ *)

Section ModeStreams.

Lemma assembled_step (g : HandGestureState) (app : App.State) :
  App.mode app = TREE -> opensHand g = false ->
  App.mode (App.handleGestureUpdate g app) = TREE.
Proof.
  intros Hmode Hopen.
  rewrite handleGestureUpdate_mode, gestureStateMachine_mode, Hmode.
  unfold opensHand in Hopen.
  destruct (isFist g), (isPinching g), (isOpen g); try reflexivity; discriminate.
Qed.

End ModeStreams.

(** X3: the assembled tree cannot be left without an open hand.  From
    ASSEMBLED, any list of gesture updates none of which takes the
    open-hand branch ([isOpen] with neither [isFist] nor [isPinching])
    ends in ASSEMBLED: pinches alone never reach FOCUSED. *)
Theorem assembled_until_open_hand (app : App.State) (gs : list HandGestureState) :
  App.mode app = TREE -> Forall (fun g => opensHand g = false) gs ->
  App.mode (gestureUpdates app gs) = TREE.
Proof.
  intros Hmode Hgs. revert app Hmode. unfold gestureUpdates.
  induction Hgs as [| g gs Hg _ IH]; intros app Hmode; [exact Hmode |].
  cbn [foldl]. apply IH, assembled_step; assumption.
Qed.

Lemma assembled_until_open_hand_witness :
  let pinch := {| isFist := false; isOpen := false; isPinching := true;
                  handPosition := Point.mk 0 0; pinchDistance := 0.01 |} in
  let idle := {| isFist := false; isOpen := false; isPinching := false;
                 handPosition := Point.mk 0 0; pinchDistance := 1 |} in
  App.mode (gestureUpdates App.initial [pinch; idle; pinch; pinch]) = TREE.
Proof.
  cbv zeta. apply assembled_until_open_hand; [reflexivity |].
  repeat constructor.
Defined.

(** X4: behind the tracker the order of the tests does not matter.  For
    every detector result on which the tracker reports a gesture state,
    the next mode is ASSEMBLED when [isFist] is reported, SCATTERED when
    [isOpen] is reported, FOCUSED when [isPinching] is reported outside
    ASSEMBLED, and the previous mode otherwise; when the tracker throws,
    the application state is not touched. *)
Theorem tracked_gesture_decides_mode (st : Pipeline.State) (res : HandTracker.Results) :
  let outcome := (HandTracker.onResults (Pipeline.tracker st) res).2 in
  let before := App.mode (Pipeline.app st) in
  let after := App.mode (Pipeline.app (Pipeline.onResults st res)) in
  (forall g, outcome = HandTracker.Reported g ->
     (isFist g = true -> after = TREE)
     /\ (isOpen g = true -> after = SCATTERED)
     /\ (isPinching g = true -> before <> TREE -> after = FOCUSED)
     /\ (isPinching g = true -> before = TREE -> after = TREE)
     /\ (isFist g = false -> isOpen g = false -> isPinching g = false ->
         after = before))
  /\ (outcome = HandTracker.TypeError ->
      Pipeline.app (Pipeline.onResults st res) = Pipeline.app st).
Proof.
  cbv zeta. split.
  - intros g Hg. pose proof (reported_one_flag _ _ _ Hg) as (Hfist & Hopen & Hpinch).
    unfold Pipeline.onResults.
    destruct (HandTracker.onResults (Pipeline.tracker st) res) as [tracker' o].
    cbn [snd] in Hg. subst o. cbn [Pipeline.app].
    destruct (handleGestureUpdate_branches g (Pipeline.app st))
      as (H1 & H2 & H3 & H4 & H5).
    split; [exact H1 |].
    split; [intros Ho; destruct (Hopen Ho); apply H4; assumption |].
    split; [intros Hp Hb; destruct (Hpinch Hp); apply H2; assumption |].
    split; [intros Hp Hb; destruct (Hpinch Hp); apply H3; assumption |].
    intros Hf Ho Hp. apply H5; assumption.
  - intros Hthrow. unfold Pipeline.onResults.
    destruct (HandTracker.onResults (Pipeline.tracker st) res) as [tracker' o].
    cbn [snd] in Hthrow. subst o. reflexivity.
Qed.

Lemma flatHand_reported (st : HandTracker.State) :
  exists g,
    (HandTracker.onResults st {| HandTracker.multiHandLandmarks := Some [flatHand] |}).2
    = HandTracker.Reported g
    /\ isOpen g = true.
Proof.
  destruct (handFrame_reports flatHand ltac:(simpl; lia) st)
    as (tgt & count & pinch & _ & Hc & Hp & Hframe).
  rewrite flatHand_curledCount in Hc. injection Hc as <-.
  rewrite flatHand_pinchDist in Hp. injection Hp as <-.
  eexists. unfold HandTracker.onResults. cbn [HandTracker.multiHandLandmarks].
  rewrite Hframe. split; [reflexivity |].
  cbn [isOpen]. unfold HandTracker.classification, HandTracker.PINCH_THRESHOLD.
  rewrite lt_fin, bool_decide_eq_false_2 by lra. reflexivity.
Qed.

Lemma tracked_gesture_decides_mode_witness :
  App.mode (Pipeline.app (Pipeline.onResults Pipeline.initial
                            {| HandTracker.multiHandLandmarks := Some [flatHand] |}))
  = SCATTERED.
Proof.
  destruct (flatHand_reported (Pipeline.tracker Pipeline.initial)) as (g & Hg & Hopen).
  destruct (tracked_gesture_decides_mode Pipeline.initial
              {| HandTracker.multiHandLandmarks := Some [flatHand] |}) as [Hreported _].
  destruct (Hreported g Hg) as (_ & Hscatter & _).
  exact (Hscatter Hopen).
Defined.

Section TrackingLoss.

Lemma lost_frame (st : Pipeline.State) (res : HandTracker.Results) :
  HandTracker.handDetected res = false ->
  Pipeline.tracker (Pipeline.onResults st res) = Pipeline.tracker st
  /\ App.mode (Pipeline.app (Pipeline.onResults st res)) = App.mode (Pipeline.app st)
  /\ App.gestureStatus (Pipeline.app (Pipeline.onResults st res)) = "Detecting..."%string
  /\ App.currentHandState (Pipeline.app (Pipeline.onResults st res)) = HandTracker.noHand.
Proof.
  intros Hlost.
  assert (Hres : HandTracker.onResults (Pipeline.tracker st) res
                 = (Pipeline.tracker st, HandTracker.Reported HandTracker.noHand)).
  { unfold HandTracker.onResults, HandTracker.handDetected in *.
    destruct (HandTracker.multiHandLandmarks res) as [[| hand hands] |];
      [reflexivity | | reflexivity].
    apply bool_decide_eq_false in Hlost. cbn [length] in Hlost. lia. }
  unfold Pipeline.onResults. rewrite Hres. cbn [Pipeline.tracker Pipeline.app].
  split; [reflexivity |]. split; [| split; reflexivity].
  rewrite handleGestureUpdate_mode, gestureStateMachine_mode. reflexivity.
Qed.
End TrackingLoss.

(** X5: losing the hand holds the mode.  Over any stream of results with
    no hand detected, the display mode and the stored smoothed position
    stay as they were; after the first such result the status line reads
    "Detecting..." and the hand state passed to the scene is the neutral
    one (no flag, position (0, 0), pinch distance 1). *)
Theorem tracking_loss_holds_mode (st : Pipeline.State)
    (stream : list HandTracker.Results) :
  Forall (fun res => HandTracker.handDetected res = false) stream ->
  let final := Pipeline.run st stream in
  App.mode (Pipeline.app final) = App.mode (Pipeline.app st)
  /\ Pipeline.tracker final = Pipeline.tracker st
  /\ (stream <> [] ->
      App.gestureStatus (Pipeline.app final) = "Detecting..."%string
      /\ App.currentHandState (Pipeline.app final) = HandTracker.noHand).
Proof.
  intros Hstream. cbv zeta. unfold Pipeline.run. revert st.
  induction Hstream as [| res stream Hres _ IH]; intros st.
  - repeat split; try reflexivity; contradiction.
  - cbn [foldl].
    destruct (lost_frame st res Hres) as (Ht & Hm & Hs & Hh).
    destruct (IH (Pipeline.onResults st res)) as (Hmode & Htracker & Hstatus).
    split; [congruence |]. split; [congruence |].
    intros _. destruct stream as [| res' stream'].
    + cbn [foldl]. split; assumption.
    + apply Hstatus. discriminate.
Qed.

Lemma tracking_loss_holds_mode_witness :
  let shown := Pipeline.onResults Pipeline.initial
                 {| HandTracker.multiHandLandmarks := Some [flatHand] |} in
  let lost := [{| HandTracker.multiHandLandmarks := None |};
               {| HandTracker.multiHandLandmarks := Some [] |}] in
  App.mode (Pipeline.app (Pipeline.run shown lost)) = SCATTERED.
Proof.
  cbv zeta.
  destruct (flatHand_reported (Pipeline.tracker Pipeline.initial)) as (g & Hg & Hopen).
  destruct (tracking_loss_holds_mode
              (Pipeline.onResults Pipeline.initial
                 {| HandTracker.multiHandLandmarks := Some [flatHand] |})
              [{| HandTracker.multiHandLandmarks := None |};
               {| HandTracker.multiHandLandmarks := Some [] |}])
    as (Hmode & _).
  - repeat constructor.
  - cbv zeta in Hmode. rewrite Hmode.
    pose proof (reported_one_flag _ _ _ Hg) as (_ & Hflags & _).
    destruct (Hflags Hopen) as [Hnf Hnp].
    unfold Pipeline.onResults.
    destruct (HandTracker.onResults (Pipeline.tracker Pipeline.initial) _) as [t o].
    cbn [snd] in Hg. subst o. cbn [Pipeline.app].
    apply handleGestureUpdate_branches; assumption.
Defined.

(* ------------------------------------------------------------------ *)
(** ** The focus selection at its edges *)
(* ------------------------------------------------------------------ *)

Section FocusEdges.
Import Scene3D.

Lemma index_elem {A : Type} (l : list A) (a : number) (x : A) :
  index l a = Some x -> x ∈ l.
Proof.
  unfold index. destruct a as [r | | |]; try discriminate.
  destruct (decide _); [| discriminate].
  apply list_elem_of_lookup_2.
Qed.

Lemma photoObjs_of_candidates (st : State) (c : TreeObjectData.t) :
  c ∈ candidates st -> c ∈ photoObjs st.
Proof.
  unfold candidates, unviewed.
  destruct (shouldResetHistory st); [tauto |].
  rewrite list_elem_of_filter. tauto.
Qed.

Lemma commit_no_photos (st : State) (random : number) :
  photoObjs st = [] -> commit st (focusChanged FOCUSED random) = Some st.
Proof.
  intros Hnone. unfold commit, focusEffect. rewrite Hnone.
  destruct (decide (FOCUSED = FOCUSED)) as [_ | Hn]; [| contradiction].
  destruct (negb (truthy (targetPhotoId st))); cbn; destruct st; reflexivity.
Qed.

(** A commit of the second effect keeps the viewed ids among the photos. *)
Lemma focus_commit_viewed (st st' : State) (mode : AppMode) (random : number) :
  commit st (focusChanged mode random) = Some st' ->
  viewedArePhotos st -> viewedArePhotos st' /\ objects st' = objects st.
Proof.
  unfold commit, focusEffect. intros Hcommit Hinv.
  destruct (decide (mode = FOCUSED)) as [-> | Hmode].
  - destruct (negb (truthy (targetPhotoId st))).
    + destruct (decide (0 < length (photoObjs st))%nat).
      * destruct (index (candidates st) _) as [randomPhoto |] eqn:Hpick;
          [| discriminate].
        cbn in Hcommit. injection Hcommit as <-.
        apply index_elem, photoObjs_of_candidates in Hpick.
        split; [| reflexivity].
        intros i Hi. cbn [viewedPhotoIds] in Hi.
        apply elem_of_union in Hi as [Hi | Hi].
        -- destruct (shouldResetHistory st); [set_solver | apply Hinv, Hi].
        -- apply elem_of_singleton in Hi as ->.
           unfold photoIds. cbn [objects photoObjs].
           apply list_elem_of_fmap_2. exact Hpick.
      * cbn in Hcommit. injection Hcommit as <-. split; [exact Hinv | reflexivity].
    + cbn in Hcommit. injection Hcommit as <-. split; [exact Hinv | reflexivity].
  - destruct (truthy (targetPhotoId st)); cbn in Hcommit; injection Hcommit as <-;
      split; try reflexivity; exact Hinv.
Qed.
End FocusEdges.

(** X6: with no photo in the scene, entering FOCUSED selects nothing and
    does not throw, whatever [Math.random()] would return: the state is
    unchanged, and with no target held no element sees itself as the focus
    target. *)
Theorem no_photo_no_target (st : Scene3D.State) (random : number) :
  Scene3D.photoObjs st = [] -> Scene3D.targetPhotoId st = None ->
  Scene3D.commit st (Scene3D.focusChanged FOCUSED random) = Some st
  /\ (forall data, TreeElement.isTarget data (Scene3D.targetPhotoId st) = false).
Proof.
  intros Hnone Htarget. split; [apply commit_no_photos, Hnone |].
  intros data. rewrite Htarget. reflexivity.
Qed.

Lemma no_photo_no_target_witness :
  let st := {| Scene3D.objects := [sampleStar; sampleBall];
               Scene3D.viewedPhotoIds := ∅; Scene3D.targetPhotoId := None |} in
  Scene3D.commit st (Scene3D.focusChanged FOCUSED NaN) = Some st.
Proof.
  cbv zeta.
  exact (proj1 (no_photo_no_target
                  {| Scene3D.objects := [sampleStar; sampleBall];
                     Scene3D.viewedPhotoIds := ∅; Scene3D.targetPhotoId := None |}
                  NaN eq_refl eq_refl)).
Defined.

(** X7: the viewed set holds photo ids only.  If every viewed id is the id
    of a photo of the scene, this is still so after any commits in which
    one of the two effects runs, whatever the modes and the draws: a
    selection adds the id of a photo, a regeneration empties the set. *)
Theorem viewed_ids_are_photos (st st' : Scene3D.State) (cs : list Scene3D.Commit) :
  viewedArePhotos st -> Forall oneEffect cs ->
  Scene3D.commits st cs = Some st' -> viewedArePhotos st'.
Proof.
  intros Hinv Hcs. revert st Hinv.
  induction Hcs as [| c cs Hc _ IH]; intros st Hinv Hcommits.
  - cbn in Hcommits. injection Hcommits as <-. exact Hinv.
  - cbn [Scene3D.commits] in Hcommits.
    destruct (Scene3D.commit st c) as [st1 |] eqn:Hcommit; [| discriminate].
    cbn in Hcommits. apply (IH st1); [| exact Hcommits].
    destruct c as [data | mode random | data mode random]; [| | contradiction].
    + cbn in Hcommit. injection Hcommit as <-.
      intros i Hi. cbn in Hi. set_solver.
    + eapply focus_commit_viewed; eassumption.
Qed.

Lemma sampleFocused_viewed : viewedArePhotos sampleFocused.
Proof.
  intros i Hi. cbn in Hi. apply elem_of_singleton in Hi as ->.
  apply (bool_decide_unpack _). vm_compute. exact I.
Qed.

Lemma viewed_ids_are_photos_witness :
  viewedArePhotos
    {| Scene3D.objects := sampleRegenerated; Scene3D.viewedPhotoIds := ∅;
       Scene3D.targetPhotoId := None |}.
Proof.
  apply (viewed_ids_are_photos sampleFocused _
           [Scene3D.focusChanged FOCUSED (Fin 0.5);
            Scene3D.photosChanged sampleRegenerated;
            Scene3D.focusChanged SCATTERED (Fin 0)]
           sampleFocused_viewed).
  - repeat constructor.
  - reflexivity.
Defined.

Section Reachable.
Import Scene3D.

Lemma middle_draw (k n : nat) :
  (k < n)%nat ->
  0 <= (INR k + 1 / 2) / INR n < 1
  /\ drawIndex ((INR k + 1 / 2) / INR n) n = k.
Proof.
  intros Hk.
  assert (Hn : 0 < INR n) by (apply lt_0_INR; lia).
  assert (Hk0 : 0 <= INR k) by apply pos_INR.
  assert (Hkn : INR k + 1 <= INR n).
  { rewrite <- S_INR. apply le_INR. lia. }
  assert (Hrange : 0 <= (INR k + 1 / 2) / INR n < 1).
  { split.
    - apply Rmult_le_pos; [lra |]. left. apply Rinv_0_lt_compat, Hn.
    - apply Rmult_lt_reg_r with (INR n); [exact Hn |].
      replace ((INR k + 1 / 2) / INR n * INR n) with (INR k + 1 / 2) by (field; lra).
      lra. }
  split; [exact Hrange |].
  apply drawIndex_interval; [exact Hrange | lia |].
  split.
  - apply div_le_iff; [exact Hn |].
    replace ((INR k + 1 / 2) / INR n * INR n) with (INR k + 1 / 2) by (field; lra). lra.
  - apply lt_div_iff; [exact Hn |].
    replace ((INR k + 1 / 2) / INR n * INR n) with (INR k + 1 / 2) by (field; lra). lra.
Qed.

Lemma single_photo_pick (st : State) (p : TreeObjectData.t) (u : R) :
  photoObjs st = [p] -> truthy (targetPhotoId st) = false -> 0 <= u < 1 ->
  commit st (focusChanged FOCUSED (Fin u))
  = Some {| objects := objects st;
            viewedPhotoIds :=
              (if shouldResetHistory st then ∅ else viewedPhotoIds st)
              ∪ {[TreeObjectData.id p]};
            targetPhotoId := Some (TreeObjectData.id p) |}.
Proof.
  intros Hone Hfalsy Hu.
  destruct (focus_select st u Hfalsy ltac:(rewrite Hone; discriminate) Hu)
    as (chosen & Hchosen & Hcommit).
  apply list_elem_of_lookup_2, photoObjs_of_candidates in Hchosen.
  rewrite Hone in Hchosen. apply list_elem_of_singleton in Hchosen as ->.
  exact Hcommit.
Qed.
End Reachable.

(** X8: no candidate is out of reach.  With no target held, the photo at
    any place [k] of the pool of [n] candidates is the one picked for the
    draw [(k + 1/2) / n], which is a value [Math.random()] can return; once
    every photo has been viewed the pool is all photos, so the photo shown
    last can be picked again at once. *)
Theorem every_candidate_can_be_drawn (st : Scene3D.State) (k : nat)
    (p : TreeObjectData.t) :
  truthy (Scene3D.targetPhotoId st) = false ->
  Scene3D.candidates st !! k = Some p ->
  let u := (INR k + 1 / 2) / INR (length (Scene3D.candidates st)) in
  0 <= u < 1
  /\ (exists st',
        Scene3D.commit st (Scene3D.focusChanged FOCUSED (Fin u)) = Some st'
        /\ Scene3D.targetPhotoId st' = Some (TreeObjectData.id p))
  /\ (Scene3D.allViewed st -> Scene3D.candidates st = Scene3D.photoObjs st).
Proof.
  intros Hfalsy Hk u. subst u.
  assert (Hlt : (k < length (Scene3D.candidates st))%nat)
    by (eapply lookup_lt_Some; exact Hk).
  destruct (middle_draw k _ Hlt) as [Hrange Hindex].
  split; [exact Hrange |]. split.
  - assert (Hphotos : Scene3D.photoObjs st <> []).
    { intros Hnil. apply list_elem_of_lookup_2, photoObjs_of_candidates in Hk.
      rewrite Hnil in Hk. inversion Hk. }
    destruct (focus_select st _ Hfalsy Hphotos Hrange) as (chosen & Hchosen & Hcommit).
    rewrite Hindex, Hk in Hchosen. injection Hchosen as <-.
    eexists. split; [exact Hcommit | reflexivity].
  - intros Hall. apply shouldResetHistory_allViewed in Hall.
    unfold Scene3D.candidates. rewrite Hall. reflexivity.
Qed.

Lemma every_candidate_can_be_drawn_witness :
  exists st',
    Scene3D.commit sampleScene
      (Scene3D.focusChanged FOCUSED (Fin ((INR 2 + 1 / 2) / INR 3))) = Some st'
    /\ Scene3D.targetPhotoId st' = Some "photo-c"%string.
Proof.
  destruct (every_candidate_can_be_drawn sampleScene 2 (samplePhoto "photo-c")
              eq_refl eq_refl) as (_ & Hpick & _).
  exact Hpick.
Defined.

(** X9: a scene with a single photo shows that photo on every visit of
    FOCUSED, whatever the draws: the viewed set is exhausted by the first
    visit and reset by each later one. *)
Theorem single_photo_always_shown (exit : AppMode) (p : TreeObjectData.t)
    (draws : list R) (st : Scene3D.State) :
  exit <> FOCUSED -> Scene3D.photoObjs st = [p] ->
  TreeObjectData.id p <> ""%string -> Scene3D.targetPhotoId st = None ->
  Forall (fun u => 0 <= u < 1) draws ->
  exists st',
    Scene3D.focusVisits exit st (Fin <$> draws)
    = Some (replicate (length draws) (Some (TreeObjectData.id p)), st')
    /\ Scene3D.objects st' = Scene3D.objects st
    /\ Scene3D.targetPhotoId st' = None
    /\ (draws <> [] -> TreeObjectData.id p ∈ Scene3D.viewedPhotoIds st').
Proof.
  intros Hexit Hone Hid Hnone Hdraws. revert st Hone Hnone.
  induction Hdraws as [| u draws Hu _ IH]; intros st Hone Hnone.
  - exists st. repeat split; try reflexivity; try assumption. contradiction.
  - assert (Hfalsy : truthy (Scene3D.targetPhotoId st) = false)
      by (rewrite Hnone; reflexivity).
    pose proof (single_photo_pick st p u Hone Hfalsy Hu) as Hpick.
    set (shownSt := {| Scene3D.objects := Scene3D.objects st;
                       Scene3D.viewedPhotoIds :=
                         (if Scene3D.shouldResetHistory st then ∅
                          else Scene3D.viewedPhotoIds st) ∪ {[TreeObjectData.id p]};
                       Scene3D.targetPhotoId := Some (TreeObjectData.id p) |}) in *.
    assert (Hleave : Scene3D.commit shownSt (Scene3D.focusChanged exit (Fin u))
                     = Some {| Scene3D.objects := Scene3D.objects st;
                               Scene3D.viewedPhotoIds := Scene3D.viewedPhotoIds shownSt;
                               Scene3D.targetPhotoId := None |}).
    { apply (focus_leave shownSt exit (Fin u) Hexit).
      cbn. apply negb_true_iff, String.eqb_neq, Hid. }
    destruct (IH {| Scene3D.objects := Scene3D.objects st;
                    Scene3D.viewedPhotoIds := Scene3D.viewedPhotoIds shownSt;
                    Scene3D.targetPhotoId := None |} Hone eq_refl)
      as (st' & Hvisits & Hobjs & Htarget & Hviewed).
    exists st'. split.
    { rewrite fmap_cons. cbn [Scene3D.focusVisits]. unfold Scene3D.focusVisit.
      rewrite Hpick. cbn [mbind option_bind]. rewrite Hleave. cbn [mbind option_bind].
      rewrite Hvisits. reflexivity. }
    split; [exact Hobjs |]. split; [exact Htarget |].
    intros _. destruct draws as [| u' draws'].
    + cbn in Hvisits. injection Hvisits as <-.
      cbn [Scene3D.viewedPhotoIds shownSt]. set_solver.
    + apply Hviewed. discriminate.
Qed.

Lemma single_photo_always_shown_witness :
  let st := {| Scene3D.objects := [sampleStar; samplePhoto "photo-a"; sampleBall];
               Scene3D.viewedPhotoIds := ∅; Scene3D.targetPhotoId := None |} in
  exists st',
    Scene3D.focusVisits TREE st [Fin 0; Fin 0.5; Fin 0.9]
    = Some (replicate 3 (Some "photo-a"%string), st').
Proof.
  cbv zeta.
  destruct (single_photo_always_shown TREE (samplePhoto "photo-a") [0; 0.5; 0.9]
              {| Scene3D.objects := [sampleStar; samplePhoto "photo-a"; sampleBall];
                 Scene3D.viewedPhotoIds := ∅; Scene3D.targetPhotoId := None |})
    as (st' & Hvisits & _).
  - discriminate.
  - reflexivity.
  - discriminate.
  - reflexivity.
  - repeat constructor; lra.
  - exists st'. exact Hvisits.
Defined.

(* ------------------------------------------------------------------ *)
(** ** Which extent decides the camera distance *)
(* ------------------------------------------------------------------ *)

Section BindingExtent.

Lemma fit_width_vs_height (t a : R) :
  0 < t -> 0 < a ->
  (7 / 9 <= a -> 14 / (2 * t * a) <= 18 / (2 * t))
  /\ (a <= 7 / 9 -> 18 / (2 * t) <= 14 / (2 * t * a)).
Proof.
  intros Ht Ha.
  assert (Hc : 0 < 2 * t * a) by (apply Rmult_lt_0_compat; lra).
  split; intros Hle.
  - apply div_le_iff; [exact Hc |].
    replace (18 / (2 * t) * (2 * t * a)) with (18 * a) by (field; lra). lra.
  - apply Rmult_le_reg_r with (2 * t * a); [exact Hc |].
    replace (18 / (2 * t) * (2 * t * a)) with (18 * a) by (field; lra).
    replace (14 / (2 * t * a) * (2 * t * a)) with 14 by (field; lra). lra.
Qed.
End BindingExtent.

(** X10: on a positive viewport with a field of view inside (0, 180)
    degrees, the target width decides the camera distance only on narrow
    viewports: at an aspect of 7/9 or more the distance is the larger of
    the height-fitting distance and 20, whatever the width; at an aspect of
    7/9 or less it is the larger of the width-fitting distance and 20. *)
Theorem camera_binding_extent (w h f z : R) :
  0 < w -> 0 < h -> 0 < f * (PI / 180) < PI ->
  let distance :=
    position_z (Scene3D.adaptiveCamera {| width := w; height := h |}
                                       {| fov := f; position_z := z |}) in
  (7 / 9 <= w / h ->
   distance = Fin (Rmax (18 / (2 * tan (f * (PI / 180) / 2))) 20))
  /\ (w / h <= 7 / 9 ->
      distance = Fin (Rmax (14 / (2 * tan (f * (PI / 180) / 2) * (w / h))) 20)).
Proof.
  intros Hw Hh Hf distance. subst distance.
  rewrite adaptiveCamera_finite by assumption.
  pose proof (tan_half_fov_pos f Hf) as Ht.
  assert (Ha : 0 < w / h) by (apply Rdiv_lt_0_compat; assumption).
  destruct (fit_width_vs_height _ _ Ht Ha) as [Hwide Hnarrow].
  split; intros Haspect; f_equal.
  - specialize (Hwide Haspect). unfold Rmax.
    repeat destruct (Rle_dec _ _); lra.
  - specialize (Hnarrow Haspect). unfold Rmax.
    repeat destruct (Rle_dec _ _); lra.
Qed.

Lemma camera_binding_extent_witness :
  position_z (Scene3D.adaptiveCamera {| width := 1920; height := 1080 |}
                                     {| fov := 90; position_z := 25 |})
  = position_z (Scene3D.adaptiveCamera sampleSize sampleCamera).
Proof.
  pose proof PI_RGT_0 as Hpi.
  assert (Hf : 0 < 90 * (PI / 180) < PI) by lra.
  destruct (camera_binding_extent 1920 1080 90 25 ltac:(lra) ltac:(lra) Hf) as [Hwide _].
  destruct (camera_binding_extent 800 600 90 25 ltac:(lra) ltac:(lra) Hf) as [Hwide' _].
  cbv zeta in Hwide, Hwide'. unfold sampleSize, sampleCamera.
  rewrite Hwide by lra. rewrite Hwide' by lra. reflexivity.
Defined.

(* ------------------------------------------------------------------ *)
(** ** The rotation of the group *)
(* ------------------------------------------------------------------ *)

Section GroupRotation.
Import Scene3D.

Lemma groupFrames_succ (mode : AppMode) (hs : HandGestureState) (n : nat)
    (ref : option Euler.t) :
  groupFrames mode hs (S n) ref = groupFrame mode hs (groupFrames mode hs n ref).
Proof. reflexivity. Qed.

Lemma groupFrame_tree (hs : HandGestureState) (x y : R) (z : number) :
  groupFrame TREE hs (Some (Euler.mk (Fin x) (Fin y) z))
  = Some (Euler.mk (Fin (0.95 * x)) (Fin (y + 0.002)) z).
Proof.
  unfold groupFrame, MathUtils.lerp. cbn. do 2 f_equal. f_equal. lra.
Qed.

End GroupRotation.

(** X11: in ASSEMBLED mode the group turns by 0.002 about y at every frame
    while its tilt about x decays by the factor 0.95, so after [n] frames
    the angles are [0.95^n * x] and [y + 0.002 * n]; in FOCUSED mode the
    group does not move; and no mode ever changes the angle about z. *)
Theorem group_turns_and_levels (hs : HandGestureState) (n : nat) (x y : R) (z : number) :
  Scene3D.groupFrames TREE hs n (Some (Euler.mk (Fin x) (Fin y) z))
  = Some (Euler.mk (Fin (0.95 ^ n * x)) (Fin (y + 0.002 * INR n)) z)
  /\ (forall ref, Scene3D.groupFrames FOCUSED hs n ref = ref)
  /\ (forall mode rotation rotation',
        Scene3D.groupFrame mode hs (Some rotation) = Some rotation' ->
        Euler.z rotation' = Euler.z rotation).
Proof.
  split; [| split].
  - induction n as [| n IH].
    + cbn. do 2 f_equal; f_equal; lra.
    + rewrite groupFrames_succ, IH, groupFrame_tree. rewrite S_INR. cbn [pow].
      do 2 f_equal; f_equal; lra.
  - intros ref. induction n as [| n IH]; [reflexivity |].
    rewrite groupFrames_succ, IH. destruct ref; reflexivity.
  - intros mode rotation rotation'. unfold Scene3D.groupFrame.
    destruct (decide (mode = SCATTERED)); [intros H; injection H as <-; reflexivity |].
    destruct (decide (mode = TREE)); intros H; injection H as <-; reflexivity.
Qed.



(* ------------------------------------------------------------------ *)
(** ** The blend of an element, frame by frame *)
(* ------------------------------------------------------------------ *)

Section Blend.
Import TreeElement.

(** The blend rate of an element, as a real. *)
Lemma lerpSpeed_cases (data : TreeObjectData.t) (mode : AppMode) (tp : option string) :
  exists s : R,
    (if bool_decide (mode = FOCUSED) && isTarget data tp then Fin 0.12 else Fin 0.05)
    = Fin s
    /\ (mode = FOCUSED /\ Some (TreeObjectData.id data) = tp -> s = 0.12)
    /\ (~ (mode = FOCUSED /\ Some (TreeObjectData.id data) = tp) -> s = 0.05).
Proof.
  unfold isTarget.
  destruct (bool_decide (mode = FOCUSED)) eqn:Hm;
    destruct (bool_decide (Some (TreeObjectData.id data) = tp)) eqn:Ht; cbn;
    eexists; (split; [reflexivity |]);
    try apply bool_decide_eq_true in Hm; try apply bool_decide_eq_true in Ht;
    try apply bool_decide_eq_false in Hm; try apply bool_decide_eq_false in Ht;
    split; intros H; try reflexivity; tauto.
Qed.

Lemma vector_lerp_finite (a b c ta tb tc s : R) :
  Vector3.lerp (Vector3.mk (Fin a) (Fin b) (Fin c))
               (Vector3.mk (Fin ta) (Fin tb) (Fin tc)) (Fin s)
  = Vector3.mk (Fin (a + (ta - a) * s)) (Fin (b + (tb - b) * s))
               (Fin (c + (tc - c) * s)).
Proof. unfold Vector3.lerp. cbn. f_equal; f_equal; lra. Qed.

Variable slerp : Euler.t -> Quaternion.t -> number -> Euler.t.

Lemma blend_scale (data : TreeObjectData.t) (mode : AppMode) (tp : option string)
    (tg : Target) (t : number) (memo : Memo) (mesh : Mesh) (a b c ts s : R) :
  scale mesh = Vector3.mk (Fin a) (Fin b) (Fin c) -> targetScale tg = Fin ts ->
  (if bool_decide (mode = FOCUSED) && isTarget data tp then Fin 0.12 else Fin 0.05)
  = Fin s ->
  scale (blend slerp data mode tp tg t memo mesh)
  = Vector3.mk (Fin (a + (ts - a) * s)) (Fin (b + (ts - b) * s))
               (Fin (c + (ts - c) * s)).
Proof.
  intros Hscale Hts Hs. unfold blend. cbn [scale].
  rewrite Hscale, Hts, Hs. apply vector_lerp_finite.
Qed.

Lemma frames_scale (data : TreeObjectData.t) (mode : AppMode) (tp : option string)
    (camera : Camera) (size : Size) (parent : option Parent) (memo : Memo)
    (ts s : R) (clock : list number) :
  targetScale (frameTarget data mode tp camera size parent) = Fin ts ->
  (if bool_decide (mode = FOCUSED) && isTarget data tp then Fin 0.12 else Fin 0.05)
  = Fin s ->
  forall (mesh : Mesh) (a b c : R),
    scale mesh = Vector3.mk (Fin a) (Fin b) (Fin c) ->
    exists mesh',
      frames slerp data mode tp camera size parent memo clock (Some mesh) = Some mesh'
      /\ scale mesh'
         = Vector3.mk (Fin (ts + (1 - s) ^ length clock * (a - ts)))
                      (Fin (ts + (1 - s) ^ length clock * (b - ts)))
                      (Fin (ts + (1 - s) ^ length clock * (c - ts))).
Proof.
  intros Hts Hs. unfold frames.
  induction clock as [| t clock IH]; intros mesh a b c Hscale.
  - exists mesh. split; [reflexivity |]. rewrite Hscale. cbn.
    f_equal; f_equal; lra.
  - cbn [foldl useFrame].
    destruct (IH _ _ _ _ (blend_scale data mode tp _ t memo mesh a b c ts s Hscale Hts Hs))
      as (mesh' & Hframes & Hscale').
    exists mesh'. split; [exact Hframes |]. rewrite Hscale'. cbn [List.length pow].
    f_equal; f_equal; lra.
Qed.
End Blend.

(** X13: the scale of an element closes on its target at a fixed rate in
    every mode.  With a finite live scale and a finite target scale [ts],
    after any number [n] of frames at that target each component is
    [ts + (1 - s)^n * (a - ts)], [a] the component before, where the rate
    [s] is 0.12 for the held focus photo in FOCUSED mode and 0.05
    otherwise: the idle float never touches the scale. *)
Theorem scale_closes_on_target
    (slerp : Euler.t -> Quaternion.t -> number -> Euler.t)
    (data : TreeObjectData.t) (mode : AppMode) (targetPhotoId : option string)
    (camera : Camera) (size : Size) (parent : option TreeElement.Parent)
    (memo : TreeElement.Memo) (clock : list number) (mesh : TreeElement.Mesh)
    (a b c ts : R) :
  TreeElement.scale mesh = Vector3.mk (Fin a) (Fin b) (Fin c) ->
  TreeElement.targetScale
    (TreeElement.frameTarget data mode targetPhotoId camera size parent) = Fin ts ->
  exists (s : R) mesh',
    (mode = FOCUSED /\ Some (TreeObjectData.id data) = targetPhotoId -> s = 0.12)
    /\ (~ (mode = FOCUSED /\ Some (TreeObjectData.id data) = targetPhotoId) -> s = 0.05)
    /\ TreeElement.frames slerp data mode targetPhotoId camera size parent memo clock
         (Some mesh) = Some mesh'
    /\ TreeElement.scale mesh'
       = Vector3.mk (Fin (ts + (1 - s) ^ length clock * (a - ts)))
                    (Fin (ts + (1 - s) ^ length clock * (b - ts)))
                    (Fin (ts + (1 - s) ^ length clock * (c - ts))).
Proof.
  intros Hscale Hts.
  destruct (lerpSpeed_cases data mode targetPhotoId) as (s & Hs & Hfocus & Hother).
  destruct (frames_scale slerp data mode targetPhotoId camera size parent memo ts s
              clock Hts Hs mesh a b c Hscale) as (mesh' & Hframes & Hscale').
  exists s, mesh'. repeat split; assumption.
Qed.

Lemma scale_closes_on_target_witness :
  let slerp := fun (e : Euler.t) (_ : Quaternion.t) (_ : number) => e in
  let mesh := {| TreeElement.position := Vector3.mk 0 0 0;
                 TreeElement.rotation := Euler.mk 0 0 0;
                 TreeElement.scale := Vector3.mk 1 1 1;
                 TreeElement.emissiveIntensity := 2 |} in
  exists mesh',
    TreeElement.frames slerp sampleBall SCATTERED None sampleCamera sampleSize None
      sampleMemo [Fin 0; Fin 1] (Some mesh) = Some mesh'
    /\ Vector3.x (TreeElement.scale mesh') = Fin (0.5 + (1 - 0.05) ^ 2 * (1 - 0.5)).
Proof.
  cbv zeta.
  destruct (scale_closes_on_target (fun e _ _ => e) sampleBall SCATTERED None
              sampleCamera sampleSize None sampleMemo [Fin 0; Fin 1]
              {| TreeElement.position := Vector3.mk 0 0 0;
                 TreeElement.rotation := Euler.mk 0 0 0;
                 TreeElement.scale := Vector3.mk 1 1 1;
                 TreeElement.emissiveIntensity := 2 |} 1 1 1 0.5 eq_refl eq_refl)
    as (s & mesh' & _ & Hs & Hframes & Hscale).
  exists mesh'. split; [exact Hframes |].
  rewrite Hscale, Hs; [reflexivity |]. intros [Hmode _]. discriminate.
Defined.

(** X14: one frame moves a finite position toward a finite target by the
    blend rate in each coordinate, and the idle float then shifts the
    height alone, by [sin (t + offset) * 0.005], never more than 0.005 up
    or down; an element exempt from the idle float gets no shift. *)
Theorem position_step_and_bob
    (slerp : Euler.t -> Quaternion.t -> number -> Euler.t)
    (data : TreeObjectData.t) (mode : AppMode) (targetPhotoId : option string)
    (tg : TreeElement.Target) (memo : TreeElement.Memo) (mesh : TreeElement.Mesh)
    (px py pz tx ty tz t offset : R) :
  TreeElement.position mesh = Vector3.mk (Fin px) (Fin py) (Fin pz) ->
  TreeElement.targetPos tg = Vector3.mk (Fin tx) (Fin ty) (Fin tz) ->
  TreeElement.floatOffset memo = Fin offset ->
  exists s dy : R,
    TreeElement.position (TreeElement.blend slerp data mode targetPhotoId tg (Fin t) memo mesh)
    = Vector3.mk (Fin (px + (tx - px) * s)) (Fin (py + (ty - py) * s + dy))
                 (Fin (pz + (tz - pz) * s))
    /\ (s = 0.12 \/ s = 0.05)
    /\ -0.005 <= dy <= 0.005
    /\ (TreeElement.idles data mode targetPhotoId = true -> dy = sin (t + offset) * 0.005)
    /\ (TreeElement.idles data mode targetPhotoId = false -> dy = 0).
Proof.
  intros Hpos Htarget Hoffset.
  destruct (lerpSpeed_cases data mode targetPhotoId) as (s & Hs & Hfocus & Hother).
  assert (Hrate : s = 0.12 \/ s = 0.05).
  { destruct (decide (mode = FOCUSED /\ Some (TreeObjectData.id data) = targetPhotoId));
      [left; apply Hfocus | right; apply Hother]; assumption. }
  pose proof (SIN_bound (t + offset)) as Hsin.
  unfold TreeElement.blend. cbn [TreeElement.position].
  rewrite Hpos, Htarget, Hs, Hoffset, vector_lerp_finite.
  destruct (TreeElement.idles data mode targetPhotoId).
  - exists s, (sin (t + offset) * 0.005). cbn.
    split; [reflexivity |]. split; [exact Hrate |]. split; [lra |].
    split; [reflexivity | discriminate].
  - exists s, 0. split; [do 2 f_equal; lra |]. split; [exact Hrate |].
    split; [lra |]. split; [discriminate | reflexivity].
Qed.

Lemma position_step_and_bob_witness :
  let slerp := fun (e : Euler.t) (_ : Quaternion.t) (_ : number) => e in
  let tg := TreeElement.frameTarget sampleBall TREE None sampleCamera sampleSize None in
  let mesh := {| TreeElement.position := Vector3.mk 0 0 0;
                 TreeElement.rotation := Euler.mk 0 0 0;
                 TreeElement.scale := Vector3.mk 1 1 1;
                 TreeElement.emissiveIntensity := 2 |} in
  Vector3.x (TreeElement.position
               (TreeElement.blend slerp sampleBall TREE None tg (Fin 0) sampleMemo mesh))
  = Fin (0 + (1 - 0) * 0.05).
Proof.
  cbv zeta.
  destruct (position_step_and_bob (fun e _ _ => e) sampleBall TREE None
              (TreeElement.frameTarget sampleBall TREE None sampleCamera sampleSize None)
              sampleMemo
              {| TreeElement.position := Vector3.mk 0 0 0;
                 TreeElement.rotation := Euler.mk 0 0 0;
                 TreeElement.scale := Vector3.mk 1 1 1;
                 TreeElement.emissiveIntensity := 2 |}
              0 0 0 1 0 1 0 0 eq_refl eq_refl eq_refl)
    as (s & dy & Hpos & _ & _ & _ & _).
  rewrite Hpos. cbn [Vector3.x].
  pose proof Hpos as Hx. cbn in Hx. injection Hx as Hx _ _.
  f_equal. lra.
Defined.

(** X15: a light twinkles within a fixed range.  After any frame with
    finite clock, speed and phase, the emissive intensity of a light is
    [1.5 + (sin (t * speed + phase) * 0.5 + 0.5) * 3.5], a value between 1.5
    and 5; the intensity of any other element is not written. *)
Theorem twinkle_stays_in_range
    (slerp : Euler.t -> Quaternion.t -> number -> Euler.t)
    (data : TreeObjectData.t) (mode : AppMode) (targetPhotoId : option string)
    (tg : TreeElement.Target) (memo : TreeElement.Memo) (mesh : TreeElement.Mesh)
    (t speed phase : R) :
  TreeElement.twinkleSpeed memo = Fin speed ->
  TreeElement.twinklePhase memo = Fin phase ->
  let after := TreeElement.blend slerp data mode targetPhotoId tg (Fin t) memo mesh in
  (TreeObjectData.type data = light ->
   exists e : R,
     TreeElement.emissiveIntensity after = Fin e
     /\ e = 1.5 + (sin (t * speed + phase) * 0.5 + 0.5) * 3.5
     /\ 1.5 <= e <= 5)
  /\ (TreeObjectData.type data <> light ->
      TreeElement.emissiveIntensity after = TreeElement.emissiveIntensity mesh).
Proof.
  intros Hspeed Hphase after. subst after.
  unfold TreeElement.blend. cbn [TreeElement.emissiveIntensity].
  rewrite Hspeed, Hphase.
  pose proof (SIN_bound (t * speed + phase)) as Hsin.
  split; intros Htype.
  - destruct (decide (TreeObjectData.type data = light)); [| contradiction].
    eexists. split; [reflexivity |]. split; [reflexivity | lra].
  - destruct (decide (TreeObjectData.type data = light)); [contradiction | reflexivity].
Qed.

Lemma twinkle_stays_in_range_witness :
  let slerp := fun (e : Euler.t) (_ : Quaternion.t) (_ : number) => e in
  let bulb := TreeObjectData.mk "light-0" light "#ffddaa" None
                (Vector3.mk 1 0 1) (Vector3.mk 4 2 2)
                (Euler.mk 0 0 0) (Euler.mk 1 2 0) 0.15 in
  let tg := TreeElement.frameTarget bulb TREE None sampleCamera sampleSize None in
  exists e : R,
    TreeElement.emissiveIntensity
      (TreeElement.blend slerp bulb TREE None tg (Fin 3) sampleMemo (meshAt tg)) = Fin e
    /\ 1.5 <= e <= 5.
Proof.
  cbv zeta.
  destruct (twinkle_stays_in_range (fun e _ _ => e)
              (TreeObjectData.mk "light-0" light "#ffddaa" None
                 (Vector3.mk 1 0 1) (Vector3.mk 4 2 2)
                 (Euler.mk 0 0 0) (Euler.mk 1 2 0) 0.15)
              TREE None
              (TreeElement.frameTarget
                 (TreeObjectData.mk "light-0" light "#ffddaa" None
                    (Vector3.mk 1 0 1) (Vector3.mk 4 2 2)
                    (Euler.mk 0 0 0) (Euler.mk 1 2 0) 0.15)
                 TREE None sampleCamera sampleSize None)
              sampleMemo
              (meshAt (TreeElement.frameTarget
                 (TreeObjectData.mk "light-0" light "#ffddaa" None
                    (Vector3.mk 1 0 1) (Vector3.mk 4 2 2)
                    (Euler.mk 0 0 0) (Euler.mk 1 2 0) 0.15)
                 TREE None sampleCamera sampleSize None))
              3 2 0 eq_refl eq_refl) as [Hlight _].
  destruct (Hlight eq_refl) as (e & He & _ & Hrange).
  exists e. split; [exact He | exact Hrange].
Defined.

(* ------------------------------------------------------------------ *)
(** ** The layout generator *)
(* ------------------------------------------------------------------ *)

Section GeneratedScene.
Import Generator.
Variable randomSrc : nat -> number.
Variable uuidSrc : nat -> string.

Lemma scattered_in_box (a b c : R) :
  0 <= a < 1 -> 0 <= b < 1 -> 0 <= c < 1 ->
  inScatterBox (Vector3.mk ((Fin a - 0.5) * 20)%js ((Fin b - 0.5) * 20)%js
                           ((Fin c - 0.5) * 10)%js).
Proof.
  intros Ha Hb Hc. exists ((a - 0.5) * 20), ((b - 0.5) * 20), ((c - 0.5) * 10).
  split; [reflexivity |]. lra.
Qed.

Lemma getScatteredPos_run (r u : nat) :
  getScatteredPos randomSrc (r, u)
  = (Vector3.mk ((randomSrc r - 0.5) * 20)%js ((randomSrc (S r) - 0.5) * 20)%js
                ((randomSrc (S (S r)) - 0.5) * 10)%js, (S (S (S r)), u)).
Proof. reflexivity. Qed.

Lemma getScatteredPos_in_box (r u : nat) :
  unitDraws randomSrc -> inScatterBox (getScatteredPos randomSrc (r, u)).1.
Proof.
  intros Hunit. rewrite getScatteredPos_run. cbn [fst].
  destruct (Hunit r) as (a & -> & Ha), (Hunit (S r)) as (b & -> & Hb),
    (Hunit (S (S r))) as (c & -> & Hc).
  apply scattered_in_box; assumption.
Qed.

Lemma makePhoto_run (count index : nat) (url : string) (r u : nat) :
  exists o,
    makePhoto randomSrc uuidSrc count index url (r, u) = (o, (5 + r, S u)%nat)
    /\ TreeObjectData.id o = uuidSrc u
    /\ TreeObjectData.type o = photo
    /\ TreeObjectData.textureUrl o = Some url
    /\ TreeObjectData.color o = WHITE
    /\ TreeObjectData.scale o = Fin 1.5
    /\ TreeObjectData.positionTree o = (photoPlacement (photoTreeIdx count index)).1
    /\ TreeObjectData.positionScattered o = (getScatteredPos randomSrc (r, S u)).1.
Proof.
  unfold makePhoto. destruct (photoPlacement (photoTreeIdx count index)) as [surface facing].
  eexists. split; [reflexivity |]. repeat split; reflexivity.
Qed.

Lemma ornamentKind_cases (r : number) :
  ornamentKind r = gift \/ ornamentKind r = candy \/ ornamentKind r = light
  \/ ornamentKind r = ball.
Proof.
  unfold ornamentKind.
  destruct (r >? 0.85)%js; [auto |]. destruct (r >? 0.75)%js; [auto |].
  destruct (r >? 0.55)%js; auto.
Qed.

Lemma makeOrnament_run (i r u : nat) :
  exists o r',
    makeOrnament randomSrc uuidSrc i (r, u) = (o, (r', S u))
    /\ TreeObjectData.id o = uuidSrc u
    /\ TreeObjectData.type o = ornamentKind (randomSrc r)
    /\ ornamentLook o
    /\ (TreeObjectData.type o = ball ->
        TreeObjectData.scale o = (0.3 + randomSrc (S r) * 0.3)%js)
    /\ exists k, TreeObjectData.positionScattered o = (getScatteredPos randomSrc (k, S u)).1.
Proof.
  unfold makeOrnament.
  cbv beta iota zeta delta [bind Math_random ret uuidv4 fst snd getScatteredPos
                            randomRotationScattered].
  pose proof (ornamentKind_cases (randomSrc r)) as Hkind.
  destruct (ornamentKind (randomSrc r)) eqn:H;
    try (exfalso; destruct Hkind as [Hk | [Hk | [Hk | Hk]]]; discriminate);
    cbv beta iota zeta delta [bind Math_random ret uuidv4 fst snd].
  - do 2 eexists. split; [reflexivity |].
    split; [reflexivity |]. split; [reflexivity |].
    split.
    { split; [reflexivity |]. right; right; right. split; [reflexivity |].
      cbv beta iota zeta delta [TreeObjectData.color fst].
      destruct (randomSrc (S (S r)) >? 0.5)%js; auto. }
    split; [reflexivity |]. eexists; reflexivity.
  - do 2 eexists. split; [reflexivity |].
    split; [reflexivity |]. split; [reflexivity |].
    split; [split; [reflexivity | left; repeat split; reflexivity] |].
    split; [discriminate |]. eexists; reflexivity.
  - do 2 eexists. split; [reflexivity |].
    split; [reflexivity |]. split; [reflexivity |].
    split; [split; [reflexivity | right; left; repeat split; reflexivity] |].
    split; [discriminate |]. eexists; reflexivity.
  - do 2 eexists. split; [reflexivity |].
    split; [reflexivity |]. split; [reflexivity |].
    split; [split; [reflexivity | right; right; left; repeat split; reflexivity] |].
    split; [discriminate |]. eexists; reflexivity.
Qed.

(** What the photo loop pushes, from photo [index] on. *)
Lemma makePhotos_run (count : nat) (urls : list string) :
  forall index r u,
  exists os r',
    makePhotos randomSrc uuidSrc count index urls (r, u)
    = (os, (r', (length urls + u)%nat))
    /\ TreeObjectData.id <$> os = uuidSrc <$> seq u (length urls)
    /\ TreeObjectData.textureUrl <$> os = Some <$> urls
    /\ TreeObjectData.positionTree <$> os
       = (fun k => (photoPlacement (photoTreeIdx count k)).1) <$> seq index (length urls)
    /\ Forall (fun o => TreeObjectData.type o = photo
                        /\ TreeObjectData.color o = WHITE
                        /\ TreeObjectData.scale o = Fin 1.5) os
    /\ (unitDraws randomSrc ->
        Forall (fun o => inScatterBox (TreeObjectData.positionScattered o)) os).
Proof.
  induction urls as [| url urls IH]; intros index r u.
  - exists [], r. repeat split; constructor.
  - destruct (makePhoto_run count index url r u)
      as (o & Ho & Hid & Htype & Hurl & Hcolor & Hscale & Htree & Hscattered).
    destruct (IH (S index) (5 + r)%nat (S u))
      as (os & r' & Hos & Hids & Hurls & Htrees & Hlook & Hbox).
    exists (o :: os), r'. split.
    { cbn [makePhotos]. unfold bind at 1. rewrite Ho.
      unfold bind at 1. rewrite Hos. unfold ret. cbn [length].
      do 2 f_equal. lia. }
    cbn [length seq]. rewrite !fmap_cons.
    split; [rewrite Hid, Hids; reflexivity |].
    split; [rewrite Hurl, Hurls; reflexivity |].
    split; [rewrite Htree, Htrees; reflexivity |].
    split; [constructor; auto |].
    intros Hunit. constructor; [| auto].
    rewrite Hscattered. apply getScatteredPos_in_box, Hunit.
Qed.

(** What the ornament loop pushes, from round [i] on. *)
Lemma makeOrnaments_run (count : nat) :
  forall i r u,
  exists os r',
    makeOrnaments randomSrc uuidSrc count i (r, u) = (os, (r', (count + u)%nat))
    /\ TreeObjectData.id <$> os = uuidSrc <$> seq u count
    /\ Forall ornamentLook os
    /\ (unitDraws randomSrc ->
        Forall (fun o => inScatterBox (TreeObjectData.positionScattered o)
                         /\ (TreeObjectData.type o = ball ->
                             exists sc : R, TreeObjectData.scale o = Fin sc
                                            /\ 0.3 <= sc < 0.6)) os).
Proof.
  induction count as [| count IH]; intros i r u.
  - exists [], r. repeat split; constructor.
  - destruct (makeOrnament_run i r u)
      as (o & r1 & Ho & Hid & Htype & Hlook & Hball & k & Hscattered).
    destruct (IH (S i) r1 (S u)) as (os & r' & Hos & Hids & Hlooks & Hbox).
    exists (o :: os), r'. split.
    { cbn [makeOrnaments]. unfold bind at 1. rewrite Ho.
      unfold bind at 1. rewrite Hos. unfold ret.
      do 2 f_equal. lia. }
    cbn [seq]. rewrite !fmap_cons.
    split; [rewrite Hid, Hids; reflexivity |].
    split; [constructor; auto |].
    intros Hunit. constructor; [| auto]. split.
    + rewrite Hscattered. apply getScatteredPos_in_box, Hunit.
    + intros Hb. rewrite (Hball Hb).
      destruct (Hunit (S r)) as (sc & -> & Hsc).
      exists (0.3 + sc * 0.3). split; [reflexivity | lra].
Qed.

Lemma ornamentLook_kind (o : TreeObjectData.t) :
  ornamentLook o ->
  TreeObjectData.type o <> photo /\ TreeObjectData.type o <> star
  /\ TreeObjectData.color o <> MATTE_GREEN.
Proof.
  intros (_ & [(Ht & Hc & _) | [(Ht & Hc & _) | [(Ht & Hc & _) | (Ht & [Hc | Hc])]]]);
    rewrite Ht, Hc; repeat split; discriminate.
Qed.

(** The generated list: the star, the photos, the ornaments. *)
Lemma generateTreeData_run (photoUrls : list string) :
  exists theStar photos ornaments,
    generateTreeData randomSrc uuidSrc photoUrls = theStar :: photos ++ ornaments
    /\ theStar = TreeObjectData.mk (uuidSrc 0%nat) star STAR_CREAM None
                   (Vector3.mk 0 (TREE_HEIGHT / 2 + 0.5)%js 0) (Vector3.mk 0 0 0)
                   (Euler.mk 0 0 0) (Euler.mk 0 0 0) 2.5
    /\ TreeObjectData.id <$> photos = uuidSrc <$> seq 1 (length photoUrls)
    /\ TreeObjectData.textureUrl <$> photos = Some <$> photoUrls
    /\ TreeObjectData.positionTree <$> photos
       = (fun k => (photoPlacement (photoTreeIdx (length photoUrls) k)).1)
         <$> seq 0 (length photoUrls)
    /\ Forall (fun o => TreeObjectData.type o = photo
                        /\ TreeObjectData.color o = WHITE
                        /\ TreeObjectData.scale o = Fin 1.5) photos
    /\ TreeObjectData.id <$> ornaments = uuidSrc <$> seq (S (length photoUrls)) 220
    /\ Forall ornamentLook ornaments
    /\ (unitDraws randomSrc ->
        Forall (fun o => inScatterBox (TreeObjectData.positionScattered o)) photos
        /\ Forall (fun o => inScatterBox (TreeObjectData.positionScattered o)
                            /\ (TreeObjectData.type o = ball ->
                                exists sc : R, TreeObjectData.scale o = Fin sc
                                               /\ 0.3 <= sc < 0.6)) ornaments).
Proof.
  destruct (makePhotos_run (length photoUrls) photoUrls 0 0 1)
    as (photos & r1 & Hphotos & Hids & Hurls & Htrees & Hlook & Hbox).
  destruct (makeOrnaments_run 220 0 r1 (length photoUrls + 1))
    as (ornaments & r2 & Hornaments & Hoids & Hlooks & Hobox).
  eexists _, photos, ornaments. split.
  { unfold generateTreeData, generate, makeStar.
    unfold bind at 1 2. unfold uuidv4 at 1. cbn [fst snd]. unfold ret at 1.
    unfold bind at 1. rewrite Hphotos.
    unfold bind at 1. rewrite Hornaments. reflexivity. }
  split; [reflexivity |]. split; [exact Hids |]. split; [exact Hurls |].
  split; [exact Htrees |]. split; [exact Hlook |].
  split; [replace (S (length photoUrls)) with (length photoUrls + 1)%nat by lia;
          exact Hoids |].
  split; [exact Hlooks |]. auto.
Qed.

Lemma filter_all {A : Type} (P : A -> Prop) `{forall x, Decision (P x)} (l : list A) :
  Forall P l -> filter P l = l.
Proof.
  induction 1 as [| x l Hx _ IH]; [reflexivity |].
  rewrite filter_cons_True by exact Hx. now rewrite IH.
Qed.

Lemma filter_none {A : Type} (P : A -> Prop) `{forall x, Decision (P x)} (l : list A) :
  Forall (fun x => ~ P x) l -> filter P l = [].
Proof.
  induction 1 as [| x l Hx _ IH]; [reflexivity |].
  rewrite filter_cons_False by exact Hx. exact IH.
Qed.

Lemma generated_photos (photoUrls : list string) :
  exists theStar photos ornaments,
    generateTreeData randomSrc uuidSrc photoUrls = theStar :: photos ++ ornaments
    /\ filter Scene3D.isPhoto (generateTreeData randomSrc uuidSrc photoUrls) = photos
    /\ TreeObjectData.textureUrl <$> photos = Some <$> photoUrls
    /\ length photos = length photoUrls
    /\ length ornaments = 220%nat.
Proof.
  destruct (generateTreeData_run photoUrls)
    as (theStar & photos & ornaments & Hrun & Hstar & Hids & Hurls & _ & Hlook
        & Hoids & Hlooks & _).
  exists theStar, photos, ornaments. split; [exact Hrun |].
  split.
  { rewrite Hrun, filter_cons_False by (rewrite Hstar; discriminate).
    rewrite filter_app, filter_all, filter_none, app_nil_r; [reflexivity | |].
    - eapply Forall_impl; [exact Hlooks |]. intros o Ho. apply ornamentLook_kind, Ho.
    - eapply Forall_impl; [exact Hlook |]. intros o Ho. apply Ho. }
  split; [exact Hurls |].
  split.
  - apply (f_equal length) in Hurls. now rewrite !length_fmap in Hurls.
  - apply (f_equal length) in Hoids. now rewrite !length_fmap, length_seq in Hoids.
Qed.

Lemma generated_ids (photoUrls : list string) :
  TreeObjectData.id <$> generateTreeData randomSrc uuidSrc photoUrls
  = uuidSrc <$> seq 0 (221 + length photoUrls).
Proof.
  destruct (generateTreeData_run photoUrls)
    as (theStar & photos & ornaments & Hrun & Hstar & Hids & _ & _ & _ & Hoids & _).
  rewrite Hrun, fmap_cons, fmap_app, Hids, Hoids, Hstar.
  replace (221 + length photoUrls)%nat with (S (length photoUrls + 220)) by lia.
  cbn [seq]. rewrite (seq_app (length photoUrls) 220 1), !fmap_cons, fmap_app.
  reflexivity.
Qed.

Lemma generated_box (photoUrls : list string) :
  unitDraws randomSrc ->
  Forall (fun o => inScatterBox (TreeObjectData.positionScattered o)
                   /\ (TreeObjectData.type o = ball ->
                       exists sc : R, TreeObjectData.scale o = Fin sc /\ 0.3 <= sc < 0.6))
         (generateTreeData randomSrc uuidSrc photoUrls).
Proof.
  intros Hunit.
  destruct (generateTreeData_run photoUrls)
    as (theStar & photos & ornaments & Hrun & Hstar & _ & _ & _ & Hlook & _ & _ & Hbox).
  destruct (Hbox Hunit) as [Hphotos Hornaments].
  rewrite Hrun. constructor; [| apply Forall_app; split].
  - rewrite Hstar. split; [| discriminate].
    exists 0, 0, 0. split; [reflexivity | lra].
  - rewrite Forall_forall in Hphotos, Hlook. apply Forall_forall. intros o Ho. split.
    + apply Hphotos, Ho.
    + intros Hb. destruct (Hlook o Ho) as (Ht & _). congruence.
  - exact Hornaments.
Qed.

Lemma generated_look (photoUrls : list string) :
  Forall (fun o =>
            (TreeObjectData.type o = star /\ TreeObjectData.color o = STAR_CREAM
             /\ TreeObjectData.scale o = Fin 2.5)
            \/ (TreeObjectData.type o = photo /\ TreeObjectData.color o = WHITE
                /\ TreeObjectData.scale o = Fin 1.5)
            \/ ornamentLook o)
         (generateTreeData randomSrc uuidSrc photoUrls).
Proof.
  destruct (generateTreeData_run photoUrls)
    as (theStar & photos & ornaments & Hrun & Hstar & _ & _ & _ & Hlook & _ & Hlooks & _).
  rewrite Hrun. constructor; [| apply Forall_app; split].
  - rewrite Hstar. left. repeat split; reflexivity.
  - eapply Forall_impl; [exact Hlook |]. intros o Ho. right; left. exact Ho.
  - eapply Forall_impl; [exact Hlooks |]. intros o Ho. right; right. exact Ho.
Qed.
End GeneratedScene.

(** X16: the generated scene is the star, then one photo per URL in the
    order of the URLs, then 220 ornaments: [221 + n] objects for [n]
    URLs, whatever [Math.random()] and [uuidv4()] return.  The objects of
    type photo are those photos, carrying the URLs in order; the first
    object is the only star, at the origin when scattered; and the ids
    are the successive results of [uuidv4()]. *)
Theorem generated_scene_layout (randomSrc : nat -> number) (uuidSrc : nat -> string)
    (photoUrls : list string) :
  let objects := Generator.generateTreeData randomSrc uuidSrc photoUrls in
  length objects = (221 + length photoUrls)%nat
  /\ TreeObjectData.id <$> objects = uuidSrc <$> seq 0 (221 + length photoUrls)
  /\ TreeObjectData.textureUrl <$> filter Scene3D.isPhoto objects = Some <$> photoUrls
  /\ (exists theStar rest,
        objects = theStar :: rest
        /\ TreeObjectData.type theStar = star
        /\ TreeObjectData.positionScattered theStar = Vector3.mk 0 0 0
        /\ Forall (fun o => TreeObjectData.type o <> star) rest).
Proof.
  cbv zeta.
  destruct (generated_photos randomSrc uuidSrc photoUrls)
    as (theStar & photos & ornaments & Hrun & Hfilter & Hurls & Hphotos & Hornaments).
  destruct (generateTreeData_run randomSrc uuidSrc photoUrls)
    as (theStar' & photos' & ornaments' & Hrun' & Hstar & _ & _ & _ & Hlook & _
        & Hlooks & _).
  rewrite Hrun in Hrun'. injection Hrun' as <- Happ.
  split.
  { rewrite Hrun. cbn [length]. rewrite length_app, Hphotos, Hornaments. lia. }
  split; [apply generated_ids |].
  split; [rewrite Hfilter; exact Hurls |].
  exists theStar, (photos ++ ornaments). split; [exact Hrun |].
  rewrite Hstar. split; [reflexivity |]. split; [reflexivity |].
  rewrite Happ. apply Forall_app. split.
  - eapply Forall_impl; [exact Hlook |]. intros o (Ht & _). rewrite Ht. discriminate.
  - eapply Forall_impl; [exact Hlooks |]. intros o Ho. apply ornamentLook_kind, Ho.
Qed.

Lemma tally_inj (i j : nat) : tally i = tally j -> i = j.
Proof.
  revert j. induction i as [| i IH]; intros [| j] H; cbn in H;
    try discriminate; [reflexivity |].
  injection H as H. f_equal. apply IH, H.
Qed.

Lemma tally_nonempty (i : nat) : tally i <> ""%string.
Proof. destruct i; discriminate. Qed.

(** X17: the generated scene meets the condition the focus selection is
    proved under.  If [uuidv4()] never returns the same string twice and
    never the empty string, the ids of the generated objects are pairwise
    distinct and none is empty. *)
Theorem generated_ids_are_uuids (randomSrc : nat -> number) (uuidSrc : nat -> string)
    (photoUrls : list string) :
  (forall i j, uuidSrc i = uuidSrc j -> i = j) ->
  (forall i, uuidSrc i <> ""%string) ->
  Scene3D.uuids (Generator.generateTreeData randomSrc uuidSrc photoUrls).
Proof.
  intros Hinj Hnonempty. unfold Scene3D.uuids.
  pose proof (generated_ids randomSrc uuidSrc photoUrls) as Hids.
  split.
  - rewrite Hids. apply NoDup_fmap_2; [exact Hinj | apply NoDup_seq].
  - apply Forall_forall. intros o Ho.
    assert (Hin : TreeObjectData.id o
                  ∈ TreeObjectData.id <$>
                      Generator.generateTreeData randomSrc uuidSrc photoUrls)
      by (apply list_elem_of_fmap; eauto).
    rewrite Hids in Hin. apply list_elem_of_fmap in Hin as (k & -> & _).
    apply Hnonempty.
Qed.

Lemma generated_ids_are_uuids_witness :
  Scene3D.uuids
    (Generator.generateTreeData (fun _ => NaN) tally ["a.jpg"%string; "b.jpg"%string]).
Proof.
  apply (generated_ids_are_uuids (fun _ => NaN) tally ["a.jpg"%string; "b.jpg"%string]).
  - exact tally_inj.
  - exact tally_nonempty.
Defined.

(** X18: with every draw of [Math.random()] in [0, 1), every generated
    object is scattered inside the box of 20 by 20 by 10 around the
    origin, and every ball has a scale of at least 0.3 and below 0.6. *)
Theorem generated_scatter_in_box (randomSrc : nat -> number) (uuidSrc : nat -> string)
    (photoUrls : list string) :
  unitDraws randomSrc ->
  Forall (fun o => inScatterBox (TreeObjectData.positionScattered o)
                   /\ (TreeObjectData.type o = ball ->
                       exists sc : R, TreeObjectData.scale o = Fin sc /\ 0.3 <= sc < 0.6))
         (Generator.generateTreeData randomSrc uuidSrc photoUrls).
Proof. apply generated_box. Qed.

Lemma generated_scatter_in_box_witness :
  Forall (fun o => inScatterBox (TreeObjectData.positionScattered o)
                   /\ (TreeObjectData.type o = ball ->
                       exists sc : R, TreeObjectData.scale o = Fin sc /\ 0.3 <= sc < 0.6))
         (Generator.generateTreeData (fun _ => Fin 0.5) tally ["a.jpg"%string]).
Proof.
  apply (generated_scatter_in_box (fun _ => Fin 0.5) tally ["a.jpg"%string]).
  intros k. exists 0.5. split; [reflexivity | lra].
Defined.

(** X19: the generator never makes a green ornament, so no generated
    element is rendered with the green material: whatever the draws, a
    generated object is the star (cream, scale 2.5), a photo (scale 1.5),
    a gift (red, 0.5), a candy (white, 0.4), a light (warm, 0.15) or a
    ball (red or gold); and a photo alone has no shared material. *)
Theorem generated_never_green (randomSrc : nat -> number) (uuidSrc : nat -> string)
    (photoUrls : list string) :
  Forall (fun o =>
            TreeObjectData.color o <> Generator.MATTE_GREEN
            /\ TreeElement.getMaterial o <> Some TreeElement.MaterialGreen
            /\ (TreeElement.getMaterial o = None <-> TreeObjectData.type o = photo)
            /\ ((TreeObjectData.type o = star
                 /\ TreeObjectData.color o = Generator.STAR_CREAM
                 /\ TreeObjectData.scale o = Fin 2.5)
                \/ (TreeObjectData.type o = photo
                    /\ TreeObjectData.color o = Generator.WHITE
                    /\ TreeObjectData.scale o = Fin 1.5)
                \/ ornamentLook o))
         (Generator.generateTreeData randomSrc uuidSrc photoUrls).
Proof.
  eapply Forall_impl; [apply generated_look |].
  intros o Hlook. split; [| split; [| split; [| exact Hlook]]].
  - destruct Hlook as [(_ & Hc & _) | [(_ & Hc & _) | Ho]];
      [rewrite Hc; discriminate | rewrite Hc; discriminate |].
    apply ornamentLook_kind, Ho.
  - unfold TreeElement.getMaterial.
    destruct Hlook as [(Ht & Hc & _) | [(Ht & Hc & _) | Ho]].
    + rewrite Ht. destruct (decide (star = star)); [discriminate | contradiction].
    + rewrite Ht. destruct (decide (photo = star)); [discriminate |].
      destruct (decide (photo = photo)); [discriminate | contradiction].
    + destruct (ornamentLook_kind o Ho) as (_ & _ & Hgreen).
      repeat case_decide; try discriminate. contradiction.
  - unfold TreeElement.getMaterial.
    destruct Hlook as [(Ht & Hc & _) | [(Ht & Hc & _) | Ho]].
    + rewrite Ht. destruct (decide (star = star)); [| contradiction].
      split; discriminate.
    + rewrite Ht. destruct (decide (photo = star)); [discriminate |].
      destruct (decide (photo = photo)); [| contradiction]. split; reflexivity.
    + destruct (ornamentLook_kind o Ho) as (Hphoto & _ & _).
      repeat case_decide; split; intros; try discriminate; contradiction.
Qed.

Section PhotoSlots.
Import Generator.

(** The step between two photo slots: 220 divided by the number of
    photos plus one, rounded down. *)
Lemma photo_step (count : nat) :
  Math_floor (baseObjectCount / (INR count + 1))%js
  = Fin (IZR (220 / (Z.of_nat count + 1))).
Proof.
  pose proof (pos_INR count) as Hpos.
  unfold baseObjectCount. cbn [add]. rewrite div_fin by lra.
  unfold Math_floor. do 2 f_equal.
  set (d := (Z.of_nat count + 1)%Z).
  assert (Hd : (0 < d)%Z) by lia.
  assert (HdR : INR count + 1 = IZR d).
  { unfold d. rewrite plus_IZR, <- INR_IZR_INZ. reflexivity. }
  rewrite HdR. apply Zfloor_eq.
  pose proof (Z.div_mod 220 d ltac:(lia)) as Hdiv.
  pose proof (Z.mod_pos_bound 220 d Hd) as Hmod.
  assert (HdR0 : 0 < IZR d) by (apply IZR_lt; exact Hd).
  assert (Heq : 220 = IZR d * IZR (220 / d) + IZR (220 mod d)).
  { rewrite <- mult_IZR, <- plus_IZR. apply IZR_eq. exact Hdiv. }
  assert (Hr : 0 <= IZR (220 mod d) < IZR d).
  { split; [apply IZR_le | apply IZR_lt]; lia. }
  assert (Hx : 220 / IZR d * IZR d = 220) by (field; lra).
  split.
  - apply Rmult_le_reg_r with (IZR d); [exact HdR0 |]. rewrite Hx. lra.
  - apply Rmult_lt_reg_r with (IZR d); [exact HdR0 |]. rewrite Hx. lra.
Qed.

Lemma photoTreeIdx_slot (count index : nat) :
  photoTreeIdx count index
  = Fin (IZR ((Z.of_nat index + 1) * (220 / (Z.of_nat count + 1)))).
Proof.
  unfold photoTreeIdx. cbv zeta. rewrite photo_step. cbn [add mul].
  f_equal. rewrite mult_IZR, plus_IZR, <- INR_IZR_INZ. reflexivity.
Qed.

Lemma photoTreeIdx_collapse (count index : nat) :
  (220 <= count)%nat -> photoTreeIdx count index = Fin 0.
Proof.
  intros Hcount. rewrite photoTreeIdx_slot, Z.div_small by lia.
  rewrite Z.mul_0_r. reflexivity.
Qed.

Lemma generated_photo_places (randomSrc : nat -> number) (uuidSrc : nat -> string)
    (photoUrls : list string) :
  TreeObjectData.positionTree
    <$> filter Scene3D.isPhoto (generateTreeData randomSrc uuidSrc photoUrls)
  = (fun k => (photoPlacement (photoTreeIdx (length photoUrls) k)).1)
    <$> seq 0 (length photoUrls).
Proof.
  destruct (generateTreeData_run randomSrc uuidSrc photoUrls)
    as (theStar & photos & ornaments & Hrun & Hstar & _ & _ & Htrees & Hlook
        & _ & Hlooks & _).
  rewrite Hrun, filter_cons_False by (rewrite Hstar; discriminate).
  rewrite filter_app, filter_all, filter_none, app_nil_r; [exact Htrees | |].
  - eapply Forall_impl; [exact Hlooks |]. intros o Ho. apply ornamentLook_kind, Ho.
  - eapply Forall_impl; [exact Hlook |]. intros o Ho. apply Ho.
Qed.
End PhotoSlots.

(** X20: photo [index] of [n] hangs at slot
    [(index + 1) * floor (220 / (n + 1))] of the 220 slots of the spiral.
    With at most 219 photos the slots grow with the index and lie between
    1 and 219, so no two photos share a slot.  With 220 photos or more
    the step is 0: every photo is given slot 0, and all of them hang at
    one and the same place of the tree. *)
Theorem photo_slots :
  (forall count index : nat,
     Generator.photoTreeIdx count index
     = Fin (IZR ((Z.of_nat index + 1) * (220 / (Z.of_nat count + 1)))))
  /\ (forall count index index' : nat,
        (count <= 219)%nat -> (index < index' < count)%nat ->
        exists a b : Z,
          Generator.photoTreeIdx count index = Fin (IZR a)
          /\ Generator.photoTreeIdx count index' = Fin (IZR b)
          /\ (1 <= a < b)%Z /\ (b <= 219)%Z)
  /\ (forall (randomSrc : nat -> number) (uuidSrc : nat -> string)
             (photoUrls : list string),
        (220 <= length photoUrls)%nat ->
        Forall (fun o => TreeObjectData.positionTree o
                         = (Generator.photoPlacement (Fin 0)).1)
               (filter Scene3D.isPhoto
                  (Generator.generateTreeData randomSrc uuidSrc photoUrls))).
Proof.
  split; [exact photoTreeIdx_slot |]. split.
  - intros count index index' Hcount Hindex.
    rewrite !photoTreeIdx_slot. do 2 eexists.
    split; [reflexivity |]. split; [reflexivity |].
    set (d := (Z.of_nat count + 1)%Z).
    assert (Hd : (0 < d <= 220)%Z) by (unfold d; lia).
    assert (Hstep : (1 <= 220 / d)%Z).
    { apply Z.div_le_lower_bound; lia. }
    pose proof (Z.mul_div_le 220 d ltac:(lia)) as Hle.
    split; nia.
  - intros randomSrc uuidSrc photoUrls Hmany.
    pose proof (generated_photo_places randomSrc uuidSrc photoUrls) as Hplaces.
    apply Forall_forall. intros o Ho.
    assert (Hin : TreeObjectData.positionTree o
                  ∈ TreeObjectData.positionTree
                      <$> filter Scene3D.isPhoto
                            (Generator.generateTreeData randomSrc uuidSrc photoUrls))
      by (apply list_elem_of_fmap; eauto).
    rewrite Hplaces in Hin. apply list_elem_of_fmap in Hin as (k & -> & _).
    rewrite photoTreeIdx_collapse by exact Hmany. reflexivity.
Qed.

Lemma photo_slots_witness :
  Generator.photoTreeIdx 2 0 = Fin 73 /\ Generator.photoTreeIdx 2 1 = Fin 146.
Proof.
  destruct photo_slots as (Hslot & _ & _).
  rewrite !Hslot. split; reflexivity.
Defined.

(** X21: the held photo is fitted to the smaller side of the view.  On a
    positive viewport with a field of view inside (0, 180) degrees, with
    [visible = 2 * tan (fov / 2) * 4] the height visible at the distance
    of 4 in front of the camera, the focus photo is scaled to
    [0.85 * visible] when the viewport is at least as wide as high,
    whatever its size, and to [0.85 * visible * width / height] when it is
    at most as wide as high; in both cases to no more than
    [0.85 * visible]. *)
Theorem focus_scale_by_orientation (data : TreeObjectData.t) (tp : option string)
    (parent : option TreeElement.Parent) (w h f z : R) :
  TreeObjectData.type data = photo -> Some (TreeObjectData.id data) = tp ->
  0 < w -> 0 < h -> 0 < f * (PI / 180) < PI ->
  let visible := 2 * tan (f * (PI / 180) / 2) * 4 in
  let tg := TreeElement.frameTarget data FOCUSED tp {| fov := f; position_z := z |}
              {| width := w; height := h |} parent in
  (h <= w -> TreeElement.targetScale tg = Fin (visible * 0.85))
  /\ (w <= h -> TreeElement.targetScale tg = Fin (visible * (w / h) * 0.85))
  /\ exists s : R, TreeElement.targetScale tg = Fin s /\ 0 < s <= visible * 0.85.
Proof.
  intros Hphoto Htarget Hw Hh Hf visible tg. subst tg.
  pose proof (tan_half_fov_pos f Hf) as Ht.
  assert (Hv : 0 < visible) by (unfold visible; lra).
  assert (Ha : 0 < w / h) by (apply Rdiv_lt_0_compat; assumption).
  rewrite focus_scale by assumption. cbn [fov width height].
  rewrite (tan_half_fov f Hf). cbn [mul].
  rewrite (div_fin w h) by lra. cbn [mul].
  rewrite Math_min2_fin. cbn [mul]. fold visible.
  assert (Hwide : h <= w -> 1 <= w / h).
  { intros Hle. apply Rmult_le_reg_r with h; [exact Hh |].
    replace (w / h * h) with w by (field; lra). lra. }
  assert (Htall : w <= h -> w / h <= 1).
  { intros Hle. apply Rmult_le_reg_r with h; [exact Hh |].
    replace (w / h * h) with w by (field; lra). lra. }
  split; [| split].
  - intros Hle. rewrite Rmin_left; [reflexivity |]. specialize (Hwide Hle). nra.
  - intros Hle. rewrite Rmin_right; [reflexivity |]. specialize (Htall Hle). nra.
  - eexists. split; [reflexivity |].
    pose proof (Rmin_l visible (visible * (w / h))) as Hmin.
    assert (0 < Rmin visible (visible * (w / h))).
    { apply Rmin_glb_lt; [exact Hv |]. apply Rmult_lt_0_compat; assumption. }
    nra.
Qed.

Lemma focus_scale_by_orientation_witness :
  TreeElement.targetScale
    (TreeElement.frameTarget (samplePhoto "photo-a") FOCUSED (Some "photo-a"%string)
       {| fov := 90; position_z := 25 |} {| width := 800; height := 600 |} None)
  = Fin (2 * tan (90 * (PI / 180) / 2) * 4 * 0.85).
Proof.
  assert (Hf : 0 < 90 * (PI / 180) < PI) by (pose proof PI_RGT_0; lra).
  destruct (focus_scale_by_orientation (samplePhoto "photo-a") (Some "photo-a"%string)
              None 800 600 90 25 eq_refl eq_refl ltac:(lra) ltac:(lra) Hf)
    as (Hwide & _ & _).
  apply Hwide. lra.
Defined.

Section Uploads.
Import Scene3D.

(** With an empty history the pool of the draw is the list of photos. *)
Lemma candidates_fresh (st : State) :
  viewedPhotoIds st = ∅ -> candidates st = photoObjs st.
Proof.
  intros Hviewed. unfold candidates.
  destruct (shouldResetHistory st); [reflexivity |].
  unfold unviewed. rewrite Hviewed. apply filter_all.
  apply Forall_forall. intros o _. unfold notViewed. set_solver.
Qed.

Lemma photos_commit (st : State) (data : list TreeObjectData.t) :
  commit st (photosChanged data)
  = Some {| objects := data; viewedPhotoIds := ∅; targetPhotoId := targetPhotoId st |}.
Proof. reflexivity. Qed.
End Uploads.

(** X22: from the upload to the photo shown.  When the photo list changes
    while no target is held, the scene becomes the generated one with an
    empty history; the next entry into FOCUSED, with a draw [u] in [0, 1),
    then selects nothing if the list is empty, and otherwise shows the
    generated photo of URL number [floor (u * n)] of the [n] URLs and
    records its id as the only one viewed. *)
Theorem upload_then_focus (randomSrc : nat -> number) (uuidSrc : nat -> string)
    (photoUrls : list string) (st : Scene3D.State) (u : R) :
  Scene3D.targetPhotoId st = None -> 0 <= u < 1 ->
  let data := Generator.generateTreeData randomSrc uuidSrc photoUrls in
  exists st1,
    Scene3D.commit st (Scene3D.photosChanged data) = Some st1
    /\ Scene3D.objects st1 = data
    /\ (photoUrls = [] ->
        Scene3D.commit st1 (Scene3D.focusChanged FOCUSED (Fin u)) = Some st1)
    /\ (photoUrls <> [] ->
        exists st2 chosen url,
          Scene3D.commit st1 (Scene3D.focusChanged FOCUSED (Fin u)) = Some st2
          /\ Scene3D.targetPhotoId st2 = Some (TreeObjectData.id chosen)
          /\ Scene3D.viewedPhotoIds st2 = {[TreeObjectData.id chosen]}
          /\ chosen ∈ data
          /\ TreeObjectData.type chosen = photo
          /\ TreeObjectData.textureUrl chosen = Some url
          /\ photoUrls !! Scene3D.drawIndex u (length photoUrls) = Some url).
Proof.
  intros Htarget Hu data.
  destruct (generated_photos randomSrc uuidSrc photoUrls)
    as (theStar & photos & ornaments & Hrun & Hfilter & Hurls & Hlen & _).
  fold data in Hrun, Hfilter.
  set (st1 := {| Scene3D.objects := data; Scene3D.viewedPhotoIds := ∅;
                 Scene3D.targetPhotoId := Scene3D.targetPhotoId st |}).
  assert (Hphotos : Scene3D.photoObjs st1 = photos) by exact Hfilter.
  exists st1. split; [apply photos_commit |]. split; [reflexivity |]. split.
  - intros ->. apply commit_no_photos. rewrite Hphotos.
    destruct photos; [reflexivity | discriminate].
  - intros Hsome.
    assert (Hne : Scene3D.photoObjs st1 <> []).
    { rewrite Hphotos. intros ->. destruct photoUrls; [contradiction | discriminate]. }
    assert (Hfalsy : truthy (Scene3D.targetPhotoId st1) = false)
      by (cbn [st1 Scene3D.targetPhotoId]; rewrite Htarget; reflexivity).
    destruct (focus_select st1 u Hfalsy Hne Hu) as (chosen & Hchosen & Hcommit).
    rewrite (candidates_fresh st1 eq_refl), Hphotos, Hlen in Hchosen.
    assert (Hurl : (TreeObjectData.textureUrl <$> photos)
                     !! Scene3D.drawIndex u (length photoUrls)
                   = Some (TreeObjectData.textureUrl chosen))
      by (rewrite list_lookup_fmap, Hchosen; reflexivity).
    rewrite Hurls, list_lookup_fmap in Hurl.
    destruct (photoUrls !! Scene3D.drawIndex u (length photoUrls)) as [url |] eqn:Hk;
      [| discriminate].
    injection Hurl as Hurl.
    assert (Hin : chosen ∈ photos) by (eapply list_elem_of_lookup_2; exact Hchosen).
    eexists _, chosen, url. split; [exact Hcommit |].
    split; [reflexivity |]. split.
    { cbn [Scene3D.viewedPhotoIds]. destruct (Scene3D.shouldResetHistory st1); set_solver. }
    split.
    { rewrite Hrun. apply list_elem_of_further, elem_of_app. left. exact Hin. }
    split.
    { rewrite <- Hfilter in Hin. apply list_elem_of_filter in Hin as [Hp _]. exact Hp. }
    split; [symmetry; exact Hurl | reflexivity].
Qed.

Lemma upload_then_focus_witness :
  exists st1 st2 chosen,
    Scene3D.commit Scene3D.initial
      (Scene3D.photosChanged
         (Generator.generateTreeData (fun _ => Fin 0.5) tally
            ["a.jpg"%string; "b.jpg"%string])) = Some st1
    /\ Scene3D.commit st1 (Scene3D.focusChanged FOCUSED (Fin 0.5)) = Some st2
    /\ Scene3D.targetPhotoId st2 = Some (TreeObjectData.id chosen)
    /\ TreeObjectData.textureUrl chosen = Some "b.jpg"%string.
Proof.
  assert (Hu : 0 <= 0.5 < 1) by lra.
  destruct (upload_then_focus (fun _ => Fin 0.5) tally ["a.jpg"%string; "b.jpg"%string]
              Scene3D.initial 0.5 eq_refl Hu)
    as (st1 & Hcommit & _ & _ & Hshown).
  destruct (Hshown ltac:(discriminate))
    as (st2 & chosen & url & Hfocus & Htarget & _ & _ & _ & Hurl & Hdraw).
  exists st1, st2, chosen. split; [exact Hcommit |]. split; [exact Hfocus |].
  split; [exact Htarget |]. rewrite Hurl. f_equal.
  assert (Hindex : Scene3D.drawIndex 0.5 2 = 1%nat).
  { apply drawIndex_interval; [exact Hu | lia |]. simpl. lra. }
  cbn [length] in Hdraw. rewrite Hindex in Hdraw. injection Hdraw as <-. reflexivity.
Defined.
